(** * Atomize: the decision core, embedded and checked against its specification

    The development follows the TypeScript sources of the repository:

    - [JSDate]            the part of ECMAScript [Date] the program relies on
                          (time values, [toISOString], ISO parsing, local-time
                          [getDate]/[setDate]/[setHours]);
    - [Types]             [lib/types.ts]: tasks, history, (de)serialisation;
    - [PriorityEngine]    the priority engine ([calculatePriority],
                          [prioritizeTasks], ...);
    - [AtomizationEngine] the atomization engine ([atomize],
                          [processLLMResponse], [topologicalSort], ...);
    - [TaskStore]         [lib/store/task-store.ts], with the
                          [StorageAdapter] interface and the
                          [MemoryStorageAdapter] of
                          [lib/store/memory-storage-adapter.ts];
    - [ProgressManager]   [lib/managers/progress-manager.ts];
    - [TaskManager]       [lib/managers/task-manager.ts].

    Conventions.  A [Date] is its time value, an integer number of
    milliseconds since the epoch; the [Invalid Date] object (time value NaN)
    is not a value of the model.  JavaScript numbers that hold minutes, scores
    and indices are integers ([Z]); quotients of time differences are exact
    rationals ([Q]).  Strings are strings of ASCII characters, on which
    [toLowerCase], [toUpperCase] and [trim] act as on the ASCII letters and
    white space.  A thrown exception is an explicit [Throw] outcome and
    the mutable [Map] of the store is threaded through the operations; the
    clock readings, the generated ids, the host's time zone and the language
    model provider are parameters of the functions that use them. *)

From Stdlib Require Import ZArith QArith Qround Lia String Ascii List Bool.
From Stdlib Require Import Relations.Relation_Operators.
From stdpp Require Import base option list relations sorting gmap strings.

Local Open Scope string_scope.
Local Open Scope list_scope.
Local Open Scope Z_scope.

(** ** JavaScript outcomes *)

Inductive outcome (A : Type) : Type :=
| Ok (a : A)
| Throw (message : string).
Arguments Ok {A} a.
Arguments Throw {A} message.

(** ** Decimal digits and fixed-width fields *)

Module Digits.

Definition digit (k : Z) : ascii :=
  ascii_of_N (48 + Z.to_N k).

Definition digit_val (c : ascii) : option Z :=
  let n := Z.of_N (N_of_ascii c) in
  if (48 <=? n) && (n <=? 57) then Some (n - 48) else None.

Definition is_digit (c : ascii) : bool :=
  match digit_val c with Some _ => true | None => false end.

(** [pad w n]: the last [w] decimal digits of [n], most significant first
    (what [padStart(w, "0")] yields for [0 <= n < 10^w]). *)
Fixpoint pad (w : nat) (n : Z) : list ascii :=
  match w with
  | O => []
  | S w' => pad w' (n / 10) ++ [digit (n mod 10)]
  end.

(** Value of a run of digit characters, [None] if one is not a digit. *)
Fixpoint number_from (acc : Z) (cs : list ascii) : option Z :=
  match cs with
  | [] => Some acc
  | c :: cs' =>
      match digit_val c with
      | Some d => number_from (10 * acc + d) cs'
      | None => None
      end
  end.

Definition number (cs : list ascii) : option Z := number_from 0 cs.

(** Decimal rendering of an integer, as [String(n)] and template literals
    render it. *)
Fixpoint render_pos (fuel : nat) (n : Z) : list ascii :=
  match fuel with
  | O => []
  | S fuel' =>
      if n <? 10 then [digit n]
      else render_pos fuel' (n / 10) ++ [digit (n mod 10)]
  end.

Definition render (n : Z) : string :=
  if n <? 0
  then String "-" (string_of_list_ascii (render_pos (S (Z.to_nat (Z.log2 (- n)))) (- n)))
  else string_of_list_ascii (render_pos (S (Z.to_nat (Z.log2 n))) n).

End Digits.

(** ** ECMAScript [Date]

    Time values and the abstract operations of ECMA-262 (section "Date
    Objects") that [Date.prototype.toISOString], [new Date(string)],
    [getDate], [setDate] and [setHours] are defined by.  Division on [Z] is
    floor division, as in the standard. *)

Module JSDate.

(** A [Date] is its time value: milliseconds since 1970-01-01T00:00:00Z. *)
Abbreviation Date := Z (only parsing).

Definition msPerSecond : Z := 1000.
Definition msPerMinute : Z := 60000.
Definition msPerHour : Z := 3600000.
Definition msPerDay : Z := 86400000.

(** Largest magnitude of a time value ([TimeClip]). *)
Definition maxTime : Z := 8640000000000000.

Definition valid (t : Date) : Prop := - maxTime <= t <= maxTime.

Definition validb (t : Date) : bool := (- maxTime <=? t) && (t <=? maxTime).

Definition Day (t : Z) : Z := t / msPerDay.

Definition TimeWithinDay (t : Z) : Z := t mod msPerDay.

Definition DaysInYear (y : Z) : Z :=
  if negb (y mod 4 =? 0) then 365
  else if negb (y mod 100 =? 0) then 366
  else if negb (y mod 400 =? 0) then 365
  else 366.

Definition DayFromYear (y : Z) : Z :=
  365 * (y - 1970) + (y - 1969) / 4 - (y - 1901) / 100 + (y - 1601) / 400.

(** The year of a day number: the largest [y] with [DayFromYear y <= d],
    found from the mean year length (146097 days in 400 years). *)
Definition YearFromDay (d : Z) : Z :=
  let y := 1970 + (400 * d) / 146097 in
  if DayFromYear (y + 1) <=? d then y + 1
  else if DayFromYear y <=? d then y
  else y - 1.

Definition YearFromTime (t : Z) : Z := YearFromDay (Day t).

(** 1 for a leap year, 0 otherwise. *)
Definition leapOf (y : Z) : Z := if DaysInYear y =? 366 then 1 else 0.

Definition InLeapYear (t : Z) : Z := leapOf (YearFromTime t).

Definition DayWithinYear (t : Z) : Z := Day t - DayFromYear (YearFromTime t).

(** First day (within the year) of month [m] (0 = January), [leap] being 0
    or 1. *)
Definition monthStart (m leap : Z) : Z :=
  if m =? 0 then 0
  else if m =? 1 then 31
  else if m =? 2 then 59 + leap
  else if m =? 3 then 90 + leap
  else if m =? 4 then 120 + leap
  else if m =? 5 then 151 + leap
  else if m =? 6 then 181 + leap
  else if m =? 7 then 212 + leap
  else if m =? 8 then 243 + leap
  else if m =? 9 then 273 + leap
  else if m =? 10 then 304 + leap
  else 334 + leap.

Definition monthOfDay (dwy leap : Z) : Z :=
  if dwy <? 31 then 0
  else if dwy <? 59 + leap then 1
  else if dwy <? 90 + leap then 2
  else if dwy <? 120 + leap then 3
  else if dwy <? 151 + leap then 4
  else if dwy <? 181 + leap then 5
  else if dwy <? 212 + leap then 6
  else if dwy <? 243 + leap then 7
  else if dwy <? 273 + leap then 8
  else if dwy <? 304 + leap then 9
  else if dwy <? 334 + leap then 10
  else 11.

Definition MonthFromTime (t : Z) : Z := monthOfDay (DayWithinYear t) (InLeapYear t).

Definition DateFromTime (t : Z) : Z :=
  DayWithinYear t - monthStart (MonthFromTime t) (InLeapYear t) + 1.

Definition HourFromTime (t : Z) : Z := (t / msPerHour) mod 24.
Definition MinFromTime (t : Z) : Z := (t / msPerMinute) mod 60.
Definition SecFromTime (t : Z) : Z := (t / msPerSecond) mod 60.
Definition msFromTime (t : Z) : Z := t mod msPerSecond.

Definition MakeTime (hour min sec ms : Z) : Z :=
  hour * msPerHour + min * msPerMinute + sec * msPerSecond + ms.

Definition MakeDay (year month date : Z) : Z :=
  let ym := year + month / 12 in
  let mn := month mod 12 in
  DayFromYear ym + monthStart mn (leapOf ym) + date - 1.

Definition MakeDate (day time : Z) : Z := day * msPerDay + time.

Definition DaysInMonth (year month : Z) : Z :=
  MakeDay year (month + 1) 1 - MakeDay year month 1.

(** The host's time zone: the offset (local minus UTC, in ms) in force at a
    UTC instant, and the offset used to interpret a local wall-clock time. *)
Record TimeZone : Type := mkTimeZone
  { offset_at_utc : Z -> Z;
    offset_at_local : Z -> Z }.

Definition fixedZone (offset : Z) : TimeZone :=
  {| offset_at_utc := fun _ => offset; offset_at_local := fun _ => offset |}.

Definition LocalTime (tz : TimeZone) (t : Z) : Z := t + offset_at_utc tz t.

Definition UTC (tz : TimeZone) (l : Z) : Z := l - offset_at_local tz l.

(** [d.getDate()]: day of the month, local time. *)
Definition getDate (tz : TimeZone) (t : Date) : Z := DateFromTime (LocalTime tz t).

(** [d.setDate(dt)]: the new time value, before [TimeClip] (the identity on
    the time values in range). *)
Definition setDate (tz : TimeZone) (t : Date) (dt : Z) : Date :=
  let l := LocalTime tz t in
  UTC tz (MakeDate (MakeDay (YearFromTime l) (MonthFromTime l) dt) (TimeWithinDay l)).

(** [d.setHours(h, m, s, ms)]: the new time value. *)
Definition setHours (tz : TimeZone) (t : Date) (h m s ms : Z) : Date :=
  let l := LocalTime tz t in
  UTC tz (MakeDate (Day l) (MakeTime h m s ms)).

Definition yearChars (y : Z) : list ascii :=
  if (0 <=? y) && (y <=? 9999) then Digits.pad 4 y
  else (if y <? 0 then "-"%char else "+"%char) :: Digits.pad 6 (Z.abs y).

(** The date part [YYYY-MM-DD] (or [±YYYYYY-MM-DD]) of the ISO format. *)
Definition dateChars (t : Date) : list ascii :=
  yearChars (YearFromTime t)
    ++ "-"%char :: Digits.pad 2 (MonthFromTime t + 1)
    ++ "-"%char :: Digits.pad 2 (DateFromTime t).

(** The characters of [d.toISOString()]. *)
Definition isoChars (t : Date) : list ascii :=
  dateChars t
    ++ "T"%char :: Digits.pad 2 (HourFromTime t)
    ++ ":"%char :: Digits.pad 2 (MinFromTime t)
    ++ ":"%char :: Digits.pad 2 (SecFromTime t)
    ++ "."%char :: Digits.pad 3 (msFromTime t)
    ++ ["Z"%char].

Definition toISOString (t : Date) : string := string_of_list_ascii (isoChars t).

(** Reading a field of [w] digits, and a literal character. *)
Definition field (w : nat) (cs : list ascii) : option (Z * list ascii) :=
  if (w <=? length cs)%nat
  then n ← Digits.number (firstn w cs); Some (n, skipn w cs)
  else None.

Definition expect (c : ascii) (cs : list ascii) : option (list ascii) :=
  match cs with
  | c' :: cs' => if Ascii.eqb c c' then Some cs' else None
  | [] => None
  end.

Definition yearField (cs : list ascii) : option (Z * list ascii) :=
  match cs with
  | "+"%char :: cs' => field 6 cs'
  | "-"%char :: cs' =>
      '(y, rest) ← field 6 cs';
      if y =? 0 then None else Some (- y, rest)
  | _ => field 4 cs
  end.

Definition timeClip (t : Z) : option Date :=
  if validb t then Some t else None.

(** [Date.parse] on the two shapes of the ISO format the program produces:
    the date-only form [YYYY-MM-DD] (UTC midnight) and the full UTC form
    [YYYY-MM-DDTHH:mm:ss.sssZ], each with a four-digit or a signed six-digit
    year.  [None] is NaN (an Invalid Date).  Other strings, which ECMAScript
    leaves to the implementation or reads in local time, are not modelled and
    yield [None] here. *)
Definition parseChars (cs : list ascii) : option Date :=
  '(y, cs) ← yearField cs;
  cs ← expect "-" cs;
  '(mo, cs) ← field 2 cs;
  cs ← expect "-" cs;
  '(d, cs) ← field 2 cs;
  if (1 <=? mo) && (mo <=? 12) && (1 <=? d) && (d <=? DaysInMonth y (mo - 1)) then
    match cs with
    | [] => timeClip (MakeDate (MakeDay y (mo - 1) d) 0)
    | _ =>
        cs ← expect "T" cs;
        '(h, cs) ← field 2 cs;
        cs ← expect ":" cs;
        '(mi, cs) ← field 2 cs;
        cs ← expect ":" cs;
        '(s, cs) ← field 2 cs;
        cs ← expect "." cs;
        '(ms, cs) ← field 3 cs;
        cs ← expect "Z" cs;
        match cs with
        | [] =>
            if (h <=? 23) && (mi <=? 59) && (s <=? 59)
            then timeClip (MakeDate (MakeDay y (mo - 1) d) (MakeTime h mi s ms))
            else None
        | _ => None
        end
    end
  else None.

(** [new Date(s)] for a string [s]. *)
Definition parse (s : string) : option Date := parseChars (list_ascii_of_string s).

End JSDate.

Import JSDate.

(** ** [lib/types.ts]: core task types *)

Inductive PriorityLevel : Type := high | medium | low.

Inductive TaskStatus : Type := pending | in_progress | completed | deferred | archived.

Inductive HistoryAction : Type :=
  act_created | act_updated | act_completed | act_deferred | act_rescheduled.

#[global] Instance PriorityLevel_eq_dec : EqDecision PriorityLevel.
Proof. solve_decision. Defined.

#[global] Instance TaskStatus_eq_dec : EqDecision TaskStatus.
Proof. solve_decision. Defined.

(** The JavaScript strings behind the two string-literal unions. *)
Definition PriorityLevel_str (p : PriorityLevel) : string :=
  match p with high => "high" | medium => "medium" | low => "low" end.

Definition TaskStatus_str (s : TaskStatus) : string :=
  match s with
  | pending => "pending"
  | in_progress => "in_progress"
  | completed => "completed"
  | deferred => "deferred"
  | archived => "archived"
  end.

(** Values stored under the [unknown]-typed [previousValue] / [newValue]
    of a history entry: the store puts strings, numbers, [Date] objects and
    [childIds] arrays there. *)
Inductive JSValue : Type :=
| VString (s : string)
| VNumber (n : Z)
| VDate (d : Date)
| VStrings (l : list string).

Record TaskHistoryEntry : Type := mkHistoryEntry
  { timestamp : Date;
    action : HistoryAction;
    details : string;
    previousValue : option JSValue;
    newValue : option JSValue }.

Record TaskContext : Type := mkContext
  { originalGoal : option string;
    parentContext : option string;
    notes : list string;
    relatedTaskIds : list string }.

Record Task : Type := mkTask
  { id : string;
    createdAt : Date;
    updatedAt : Date;
    title : string;
    description : option string;
    rawInput : string;
    parentId : option string;
    childIds : list string;
    deadline : option Date;
    scheduledDate : option Date;
    estimatedMinutes : option Z;
    priority : PriorityLevel;
    priorityReason : string;
    status : TaskStatus;
    context : TaskContext;
    history : list TaskHistoryEntry }.

Record TaskInput : Type := mkTaskInput
  { in_rawInput : string;
    in_title : option string;
    in_description : option string;
    in_parentId : option string;
    in_deadline : option Date;
    in_scheduledDate : option Date;
    in_estimatedMinutes : option Z;
    in_priority : option PriorityLevel }.

(** One own property of a [TaskUpdate] object.  Optional task fields may be
    given the value [undefined] ([None]); [title], [priority],
    [priorityReason] and [status], which a task always has, carry a value. *)
Inductive UpdateProperty : Type :=
| upd_title (v : string)
| upd_description (v : option string)
| upd_deadline (v : option Date)
| upd_priority (v : PriorityLevel)
| upd_priorityReason (v : string)
| upd_scheduledDate (v : option Date)
| upd_estimatedMinutes (v : option Z)
| upd_status (v : TaskStatus).

(** A [TaskUpdate]: its own properties in [Object.entries] order. *)
Definition TaskUpdate : Type := list UpdateProperty.

(** [TaskFilter]: an absent criterion is [None]. *)
Record TaskFilter : Type := mkTaskFilter
  { f_status : option (list TaskStatus);
    f_priority : option (list PriorityLevel);
    f_dateRange : option (Date * Date);
    f_parentId : option string;
    f_scheduledDate : option Date }.

Record SerializedTaskHistoryEntry : Type := mkSerializedHistoryEntry
  { s_timestamp : string;
    s_action : HistoryAction;
    s_details : string;
    s_previousValue : option JSValue;
    s_newValue : option JSValue }.

Record SerializedTask : Type := mkSerializedTask
  { s_id : string;
    s_createdAt : string;
    s_updatedAt : string;
    s_title : string;
    s_description : option string;
    s_rawInput : string;
    s_parentId : option string;
    s_childIds : list string;
    s_deadline : option string;
    s_scheduledDate : option string;
    s_estimatedMinutes : option Z;
    s_priority : PriorityLevel;
    s_priorityReason : string;
    s_status : TaskStatus;
    s_context : TaskContext;
    s_history : list SerializedTaskHistoryEntry }.

Definition serializeHistoryEntry (h : TaskHistoryEntry) : SerializedTaskHistoryEntry :=
  {| s_timestamp := toISOString (timestamp h);
     s_action := action h;
     s_details := details h;
     s_previousValue := previousValue h;
     s_newValue := newValue h |}.

Definition serializeTask (task : Task) : SerializedTask :=
  {| s_id := id task;
     s_createdAt := toISOString (createdAt task);
     s_updatedAt := toISOString (updatedAt task);
     s_title := title task;
     s_description := description task;
     s_rawInput := rawInput task;
     s_parentId := parentId task;
     s_childIds := childIds task;
     s_deadline := toISOString <$> deadline task;
     s_scheduledDate := toISOString <$> scheduledDate task;
     s_estimatedMinutes := estimatedMinutes task;
     s_priority := priority task;
     s_priorityReason := priorityReason task;
     s_status := status task;
     s_context := context task;
     s_history := serializeHistoryEntry <$> history task |}.

(** [s ? new Date(s) : undefined] for an optional string: absent and empty
    strings are falsy. *)
Definition optionalDate (s : option string) : option (option Date) :=
  match s with
  | None => Some None
  | Some "" => Some None
  | Some str => d ← parse str; Some (Some d)
  end.

Definition deserializeHistoryEntry (h : SerializedTaskHistoryEntry) : option TaskHistoryEntry :=
  ts ← parse (s_timestamp h);
  Some {| timestamp := ts;
          action := s_action h;
          details := s_details h;
          previousValue := s_previousValue h;
          newValue := s_newValue h |}.

(** [deserializeTask]; [None] when one of the date strings does not parse,
    where the JavaScript function returns an object holding an Invalid Date. *)
Definition deserializeTask (data : SerializedTask) : option Task :=
  created ← parse (s_createdAt data);
  updated ← parse (s_updatedAt data);
  dl ← optionalDate (s_deadline data);
  sd ← optionalDate (s_scheduledDate data);
  hist ← mapM deserializeHistoryEntry (s_history data);
  Some {| id := s_id data;
          createdAt := created;
          updatedAt := updated;
          title := s_title data;
          description := s_description data;
          rawInput := s_rawInput data;
          parentId := s_parentId data;
          childIds := s_childIds data;
          deadline := dl;
          scheduledDate := sd;
          estimatedMinutes := s_estimatedMinutes data;
          priority := s_priority data;
          priorityReason := s_priorityReason data;
          status := s_status data;
          context := s_context data;
          history := hist |}.

(** [deserializeTask] again, over any reading [newDate] of [new Date(s)]
    ([None] for an Invalid Date).  ECMAScript fixes what [new Date] makes of
    the ISO format, which [parse] follows, and leaves the other strings to
    the host; [deserializeTask] above is the instance at [parse]. *)
Section Reading.

Variable newDate : string -> option Date.

Definition optionalDateBy (s : option string) : option (option Date) :=
  match s with
  | None => Some None
  | Some "" => Some None
  | Some str => d ← newDate str; Some (Some d)
  end.

Definition deserializeHistoryEntryBy (h : SerializedTaskHistoryEntry)
    : option TaskHistoryEntry :=
  ts ← newDate (s_timestamp h);
  Some {| timestamp := ts;
          action := s_action h;
          details := s_details h;
          previousValue := s_previousValue h;
          newValue := s_newValue h |}.

Definition deserializeTaskBy (data : SerializedTask) : option Task :=
  created ← newDate (s_createdAt data);
  updated ← newDate (s_updatedAt data);
  dl ← optionalDateBy (s_deadline data);
  sd ← optionalDateBy (s_scheduledDate data);
  hist ← mapM deserializeHistoryEntryBy (s_history data);
  Some {| id := s_id data;
          createdAt := created;
          updatedAt := updated;
          title := s_title data;
          description := s_description data;
          rawInput := s_rawInput data;
          parentId := s_parentId data;
          childIds := s_childIds data;
          deadline := dl;
          scheduledDate := sd;
          estimatedMinutes := s_estimatedMinutes data;
          priority := s_priority data;
          priorityReason := s_priorityReason data;
          status := s_status data;
          context := s_context data;
          history := hist |}.

End Reading.

(** The validation helpers, on a value of type [unknown]. *)
Definition isValidPriority (value : JSValue) : bool :=
  match value with
  | VString s => String.eqb s "high" || String.eqb s "medium" || String.eqb s "low"
  | _ => false
  end.

Definition isValidTaskStatus (value : JSValue) : bool :=
  match value with
  | VString s =>
      String.eqb s "pending" || String.eqb s "in_progress" || String.eqb s "completed"
      || String.eqb s "deferred" || String.eqb s "archived"
  | _ => false
  end.

(** A task of the data model: every date it holds is a time value in the
    range of ECMAScript dates. *)
Definition valid_entry (h : TaskHistoryEntry) : Prop := valid (timestamp h).

Definition valid_task (task : Task) : Prop :=
  valid (createdAt task) /\ valid (updatedAt task)
  /\ (forall d, deadline task = Some d -> valid d)
  /\ (forall d, scheduledDate task = Some d -> valid d)
  /\ Forall valid_entry (history task).

(** ** JavaScript built-ins used by the engines *)

Module JS.

(** [Math.round], [Math.ceil] and [Math.floor] on exact quotients. *)
Definition Math_round (x : Q) : Z := Qfloor (x + (1 # 2))%Q.
Definition Math_ceil (x : Q) : Z := Qceiling x.
Definition Math_floor (x : Q) : Z := Qfloor x.

(** [Array.prototype.sort(compare)]: a stable sort; an element moves in
    front of another only when [compare] puts it strictly first. *)
Fixpoint insertSorted {A : Type} (compare : A -> A -> Z) (x : A) (l : list A) : list A :=
  match l with
  | [] => [x]
  | y :: l' =>
      if compare x y <=? 0 then x :: y :: l'
      else y :: insertSorted compare x l'
  end.

Definition sort {A : Type} (compare : A -> A -> Z) (l : list A) : list A :=
  foldr (insertSorted compare) [] l.

(** ASCII case mapping, for [toLowerCase] / [toUpperCase]. *)
Definition lowerChar (c : ascii) : ascii :=
  let n := N_of_ascii c in
  if ((65 <=? n) && (n <=? 90))%N then ascii_of_N (n + 32) else c.

Definition upperChar (c : ascii) : ascii :=
  let n := N_of_ascii c in
  if ((97 <=? n) && (n <=? 122))%N then ascii_of_N (n - 32) else c.

Fixpoint toLowerCase (s : string) : string :=
  match s with
  | EmptyString => EmptyString
  | String c s' => String (lowerChar c) (toLowerCase s')
  end.

(** [s.charAt(0).toUpperCase() + s.slice(1)]. *)
Definition capitalize (s : string) : string :=
  match s with
  | EmptyString => EmptyString
  | String c s' => String (upperChar c) s'
  end.

(** [s.includes(sub)]. *)
Fixpoint includes (sub s : string) : bool :=
  String.prefix sub s ||
  match s with
  | EmptyString => false
  | String _ s' => includes sub s'
  end.

(** [s.split(' ')[0]]: the text before the first space. *)
Fixpoint firstWord (s : string) : string :=
  match s with
  | EmptyString => EmptyString
  | String c s' => if Ascii.eqb c " " then EmptyString else String c (firstWord s')
  end.

(** Lexicographic comparison of strings by character code: [a < b], and
    the sign of [a.localeCompare(b)] on the digit-and-hyphen date strings
    the program compares. *)
Definition localeCompare (a b : string) : Z :=
  match String.compare a b with
  | Lt => -1
  | Eq => 0
  | Gt => 1
  end.

Definition string_lt (a b : string) : bool :=
  match String.compare a b with
  | Lt => true
  | _ => false
  end.

(** [parseInt(s, 10)]: optional ASCII white space, an optional sign, then
    the longest run of digits; [None] is NaN. *)
Definition isSpace (c : ascii) : bool :=
  let n := N_of_ascii c in
  ((n =? 32) || ((9 <=? n) && (n <=? 13)))%N.

Fixpoint skipSpaces (cs : list ascii) : list ascii :=
  match cs with
  | c :: cs' => if isSpace c then skipSpaces cs' else cs
  | [] => []
  end.

Fixpoint digitRun (cs : list ascii) : list ascii :=
  match cs with
  | c :: cs' => if Digits.is_digit c then c :: digitRun cs' else []
  | [] => []
  end.

Definition unsignedInt (cs : list ascii) : option Z :=
  match digitRun cs with
  | [] => None
  | ds => Digits.number ds
  end.

Definition parseInt (s : string) : option Z :=
  match skipSpaces (list_ascii_of_string s) with
  | "-"%char :: cs => Z.opp <$> unsignedInt cs
  | "+"%char :: cs => unsignedInt cs
  | cs => unsignedInt cs
  end.

(** [s.trim()]: white space removed at both ends. *)
Definition trim (s : string) : string :=
  string_of_list_ascii
    (reverse (skipSpaces (reverse (skipSpaces (list_ascii_of_string s))))).

End JS.

(** ** The priority engine *)

Module PriorityEngine.

Record PriorityFactor : Type := mkFactor
  { name : string;
    weight : Z;
    value : Z;
    explanation : string }.

Record PriorityResult : Type := mkResult
  { level : PriorityLevel;
    reason : string;
    score : Z;
    factors : list PriorityFactor }.

Definition HOURS_IN_DAY : Q := 24.
Definition HOURS_IN_WEEK : Q := (7 * HOURS_IN_DAY)%Q.

(** [now] is the value of [new Date()] read by the function. *)
Definition calculateDeadlineFactor (now : Date) (task : Task) : PriorityFactor :=
  let weight := 50 in
  match deadline task with
  | None => mkFactor "deadline" weight 30 "No deadline set"
  | Some dl =>
      let hoursUntilDeadline : Q := (inject_Z (dl - now) / inject_Z (1000 * 60 * 60))%Q in
      if Qle_bool hoursUntilDeadline 0 then
        mkFactor "deadline" weight 100 "Overdue"
      else if Qle_bool hoursUntilDeadline HOURS_IN_DAY then
        mkFactor "deadline" weight 100 "Due within 24 hours"
      else if Qle_bool hoursUntilDeadline HOURS_IN_WEEK then
        let daysUntil : Q := (hoursUntilDeadline / HOURS_IN_DAY)%Q in
        let value := JS.Math_round (90 - (daysUntil - 1) * 3)%Q in
        mkFactor "deadline" weight value
          ("Due in " +:+ Digits.render (JS.Math_ceil daysUntil) +:+ " days")
      else
        let daysUntil : Q := (hoursUntilDeadline / HOURS_IN_DAY)%Q in
        let value := Z.max 20 (JS.Math_round (60 - daysUntil)%Q) in
        mkFactor "deadline" weight value
          ("Due in " +:+ Digits.render (JS.Math_ceil daysUntil) +:+ " days")
  end.

Definition priorityValues (p : PriorityLevel) : Z :=
  match p with high => 100 | medium => 50 | low => 20 end.

Definition calculateExistingPriorityFactor (task : Task) : PriorityFactor :=
  mkFactor "existing_priority" 30 (priorityValues (priority task))
    ("Current priority: " +:+ PriorityLevel_str (priority task)).

Definition calculateAgeFactor (now : Date) (task : Task) : PriorityFactor :=
  let ageInDays : Q := (inject_Z (now - createdAt task) / inject_Z (1000 * 60 * 60 * 24))%Q in
  let value := Z.min 100 (JS.Math_round (30 + ageInDays * 10)%Q) in
  mkFactor "age" 10 value
    ("Created " +:+ Digits.render (JS.Math_floor ageInDays) +:+ " days ago").

Definition calculateHierarchyFactor (task : Task) : PriorityFactor :=
  let weight := 10 in
  if (0 <? length (childIds task))%nat then mkFactor "hierarchy" weight 70 "Has subtasks"
  else
    match parentId task with
    | Some (String _ _) => mkFactor "hierarchy" weight 50 "Is a subtask"
    | _ => mkFactor "hierarchy" weight 40 "Standalone task"
    end.

Definition scoreToLevel (score : Z) : PriorityLevel :=
  if 70 <=? score then high
  else if 40 <=? score then medium
  else low.

(** [explanation.match(/Due in (\d+) days/)]: the digits captured by the
    first match, searched from every position of the string. *)
Definition matchDueInAt (cs : list ascii) : option (list ascii) :=
  let pre := list_ascii_of_string "Due in " in
  if decide (firstn (length pre) cs = pre) then
    let rest := skipn (length pre) cs in
    let ds := JS.digitRun rest in
    let post := list_ascii_of_string " days" in
    match ds with
    | [] => None
    | _ =>
        if decide (firstn (length post) (skipn (length ds) rest) = post)
        then Some ds else None
    end
  else None.

Fixpoint matchDueIn (cs : list ascii) : option (list ascii) :=
  match matchDueInAt cs with
  | Some ds => Some ds
  | None =>
      match cs with
      | [] => None
      | _ :: cs' => matchDueIn cs'
      end
  end.

Definition defaultReason (level : PriorityLevel) : string :=
  match level with
  | high => "High: Urgent task"
  | medium => "Medium: Standard priority"
  | low => "Low: No immediate deadline"
  end.

Definition generateReason (level : PriorityLevel) (factors : list PriorityFactor) : string :=
  match find (fun f => String.eqb (name f) "deadline") factors with
  | Some deadlineFactor =>
      if String.eqb (explanation deadlineFactor) "Overdue" then "High: Overdue"
      else if String.eqb (explanation deadlineFactor) "Due within 24 hours"
      then "High: Due within 24 hours"
      else if String.prefix "Due in" (explanation deadlineFactor) then
        match matchDueIn (list_ascii_of_string (explanation deadlineFactor)) with
        | Some ds =>
            match JS.parseInt (string_of_list_ascii ds) with
            | Some days =>
                if days <=? 7
                then JS.capitalize (PriorityLevel_str level) +:+ ": "
                       +:+ explanation deadlineFactor
                else defaultReason level
            | None => defaultReason level
            end
        | None => defaultReason level
        end
      else defaultReason level
  | None => defaultReason level
  end.

Definition calculatePriority (now : Date) (task : Task) : PriorityResult :=
  let deadlineFactor := calculateDeadlineFactor now task in
  let existingPriorityFactor := calculateExistingPriorityFactor task in
  let ageFactor := calculateAgeFactor now task in
  let hierarchyFactor := calculateHierarchyFactor task in
  let factors := [deadlineFactor; existingPriorityFactor; ageFactor; hierarchyFactor] in
  let totalScore :=
    value deadlineFactor * weight deadlineFactor
    + value existingPriorityFactor * weight existingPriorityFactor
    + value ageFactor * weight ageFactor
    + value hierarchyFactor * weight hierarchyFactor in
  let totalWeight :=
    weight deadlineFactor + weight existingPriorityFactor
    + weight ageFactor + weight hierarchyFactor in
  let score := JS.Math_round (inject_Z totalScore / inject_Z totalWeight)%Q in
  let level := scoreToLevel score in
  let reason := generateReason level factors in
  mkResult level reason score factors.

Definition priorityOrder (p : PriorityLevel) : Z :=
  match p with high => 0 | medium => 1 | low => 2 end.

(** The comparison function handed to [sort] by [prioritizeTasks]. *)
Definition compareTasks (a b : Task) : Z :=
  let priorityDiff := priorityOrder (priority a) - priorityOrder (priority b) in
  if negb (priorityDiff =? 0) then priorityDiff
  else
    match deadline a, deadline b with
    | Some da, Some db => da - db
    | Some _, None => -1
    | None, Some _ => 1
    | None, None => createdAt a - createdAt b
    end.

Definition prioritizeTasks (tasks : list Task) : list Task :=
  JS.sort compareTasks tasks.

Definition isOpen (t : Task) : bool :=
  match status t with
  | pending | in_progress => true
  | _ => false
  end.

Definition getNextTask (tasks : list Task) : option Task :=
  let pendingTasks := filter (fun t => isOpen t = true) tasks in
  head (prioritizeTasks pendingTasks).

Definition recalculatePriority (now : Date) (task : Task) : PriorityLevel * string :=
  let result := calculatePriority now task in
  (level result, reason result).

Definition createPriorityOverride (newPriority : PriorityLevel) : PriorityLevel * string :=
  (newPriority, "User override: " +:+ PriorityLevel_str newPriority).

End PriorityEngine.

(** ** The atomization engine *)

Module AtomizationEngine.

Record MicroTaskSuggestion : Type := mkMicroTask
  { mt_title : string;
    mt_description : option string;
    mt_estimatedMinutes : Z;
    dependsOn : list string;
    isParallelizable : bool }.

Inductive DependencyType : Type := blocks | informs.

Record Dependency : Type := mkDependency
  { fromIndex : Z;
    toIndex : nat;
    dep_type : DependencyType }.

Record AtomizationResult : Type := mkAtomizationResult
  { microTasks : list MicroTaskSuggestion;
    dependencies : list Dependency;
    parallelGroups : list (list nat);
    mvpSuggestion : option string }.

(** The structured response asked of the generation collaborator. *)
Record LLMMicroTask : Type := mkLLMMicroTask
  { llm_title : string;
    llm_description : option string;
    llm_estimatedMinutes : option Z;
    llm_dependsOn : option (list Z) }.

Record AtomizationLLMResponse : Type := mkLLMResponse
  { llm_microTasks : list LLMMicroTask;
    llm_mvpSuggestion : option string }.

Record LLMMessage : Type := mkMessage
  { role : string;
    content : string }.

(** [llmProvider.generateJSON]: resolves with a response or rejects. *)
Definition LLMProvider : Type := list LLMMessage -> outcome AtomizationLLMResponse.

Definition nl : string := String (ascii_of_N 10) EmptyString.
Definition dq : string := String (ascii_of_N 34) EmptyString.

Definition ACTION_VERBS : list string :=
  [ "Write"; "Draft"; "Create"; "Design"; "Build"; "Implement"; "Develop";
    "Review"; "Edit"; "Update"; "Fix"; "Debug"; "Test"; "Verify"; "Check";
    "Research"; "Analyze"; "Investigate"; "Explore"; "Study"; "Learn";
    "Send"; "Email"; "Call"; "Contact"; "Schedule"; "Meet"; "Discuss";
    "Prepare"; "Plan"; "Organize"; "Set up"; "Configure"; "Install";
    "Document"; "Record"; "Note"; "List"; "Outline"; "Summarize";
    "Complete"; "Finish"; "Submit"; "Deliver"; "Present"; "Share";
    "Gather"; "Collect"; "Find"; "Locate"; "Identify"; "Select";
    "Define"; "Specify"; "Clarify"; "Confirm"; "Validate"; "Approve" ].

Definition ensureActionVerb (title : string) : string :=
  let firstWord := JS.firstWord title in
  let isVerb :=
    existsb (fun verb => String.eqb (JS.toLowerCase firstWord) (JS.toLowerCase verb))
      ACTION_VERBS in
  if isVerb then title
  else
    let lowerTitle := JS.toLowerCase title in
    if JS.includes "email" lowerTitle || JS.includes "message" lowerTitle
    then "Send " +:+ title
    else if JS.includes "meeting" lowerTitle || JS.includes "call" lowerTitle
    then "Schedule " +:+ title
    else if JS.includes "report" lowerTitle || JS.includes "document" lowerTitle
    then "Write " +:+ title
    else if JS.includes "bug" lowerTitle || JS.includes "issue" lowerTitle
    then "Fix " +:+ title
    else if JS.includes "test" lowerTitle
    then "Run " +:+ title
    else "Complete " +:+ title.

Definition clampTimeEstimate (minutes : Z) : Z :=
  Z.max 15 (Z.min 60 minutes).

Definition getSystemPrompt : string :=
  "You are a task decomposition assistant. Your job is to break down large tasks into smaller, actionable micro-tasks."
  +:+ nl +:+ nl +:+ "Rules:"
  +:+ nl +:+ "1. Each micro-task should take 15-60 minutes"
  +:+ nl +:+ "2. Each micro-task title MUST start with an action verb (e.g., "
  +:+ dq +:+ "Write" +:+ dq +:+ ", " +:+ dq +:+ "Review" +:+ dq +:+ ", "
  +:+ dq +:+ "Send" +:+ dq +:+ ", " +:+ dq +:+ "Create" +:+ dq +:+ ")"
  +:+ nl +:+ "3. Identify dependencies between tasks (which tasks must be done before others)"
  +:+ nl +:+ "4. Mark tasks that can be done in parallel"
  +:+ nl +:+ "5. Be specific and concrete - avoid vague tasks"
  +:+ nl +:+ "6. Aim for 3-7 micro-tasks for most tasks"
  +:+ nl +:+ nl +:+ "Respond with valid JSON only.".

(** A string is truthy when it is not empty, a number when it is not 0. *)
Definition truthyString (s : option string) : option string :=
  match s with
  | Some (String c s') => Some (String c s')
  | _ => None
  end.

Definition truthyNumber (n : option Z) : option Z :=
  match n with
  | Some k => if k =? 0 then None else Some k
  | None => None
  end.

Definition buildAtomizationPrompt (task : Task) : string :=
  let prompt := "Break down this task into micro-tasks:" +:+ nl +:+ nl +:+ "Task: " +:+ title task in
  let prompt :=
    match truthyString (description task) with
    | Some d => prompt +:+ nl +:+ "Description: " +:+ d
    | None => prompt
    end in
  let prompt :=
    match deadline task with
    | Some dl => prompt +:+ nl +:+ "Deadline: " +:+ toISOString dl
    | None => prompt
    end in
  let prompt :=
    match truthyNumber (estimatedMinutes task) with
    | Some m => prompt +:+ nl +:+ "Estimated total time: " +:+ Digits.render m +:+ " minutes"
    | None => prompt
    end in
  match truthyString (originalGoal (context task)) with
  | Some g => prompt +:+ nl +:+ "Original goal: " +:+ g
  | None => prompt
  end.

Definition buildMicroTask (mt : LLMMicroTask) : MicroTaskSuggestion :=
  {| mt_title := ensureActionVerb (llm_title mt);
     mt_description := llm_description mt;
     mt_estimatedMinutes :=
       clampTimeEstimate (default 30 (truthyNumber (llm_estimatedMinutes mt)));
     dependsOn := Digits.render <$> default [] (llm_dependsOn mt);
     isParallelizable :=
       match llm_dependsOn mt with
       | None => true
       | Some deps => (length deps =? 0)%nat
       end |}.

(** The edges pushed for the micro-task at position [toIndex]. *)
Definition dependenciesOf (n : nat) (toIndex : nat) (mt : MicroTaskSuggestion) : list Dependency :=
  omap (fun fromIndexStr =>
          match JS.parseInt fromIndexStr with
          | Some fromIndex =>
              if fromIndex <? Z.of_nat n
              then Some (mkDependency fromIndex toIndex blocks)
              else None
          | None => None
          end) (dependsOn mt).

Definition buildDependencies (microTasks : list MicroTaskSuggestion) : list Dependency :=
  mjoin (imap (dependenciesOf (length microTasks)) microTasks).

(** The [forEach] of [buildParallelGroups]: [(groups, currentGroup)] after
    visiting the micro-tasks from position [index] on. *)
Fixpoint scanGroups (index : nat) (microTasks : list MicroTaskSuggestion)
    (groups : list (list nat)) (currentGroup : list nat) : list (list nat) * list nat :=
  match microTasks with
  | [] => (groups, currentGroup)
  | mt :: rest =>
      if isParallelizable mt
      then scanGroups (S index) rest groups (currentGroup ++ [index])
      else
        if (0 <? length currentGroup)%nat
        then scanGroups (S index) rest (groups ++ [currentGroup]) []
        else scanGroups (S index) rest groups currentGroup
  end.

Definition buildParallelGroups (microTasks : list MicroTaskSuggestion) : list (list nat) :=
  let '(groups, currentGroup) := scanGroups 0 microTasks [] [] in
  if (0 <? length currentGroup)%nat then groups ++ [currentGroup] else groups.

Definition processLLMResponse (response : AtomizationLLMResponse) (originalTask : Task)
    : AtomizationResult :=
  let microTasks := buildMicroTask <$> llm_microTasks response in
  let mvp :=
    match truthyString (llm_mvpSuggestion response), deadline originalTask, microTasks with
    | Some s, _, _ => Some s
    | None, Some _, first :: _ => Some ("Complete " +:+ dq +:+ mt_title first +:+ dq)
    | None, _, _ => llm_mvpSuggestion response
    end in
  {| microTasks := microTasks;
     dependencies := buildDependencies microTasks;
     parallelGroups := buildParallelGroups microTasks;
     mvpSuggestion := mvp |}.

Definition createSingleTaskResult (task : Task) : AtomizationResult :=
  {| microTasks :=
       [ {| mt_title := ensureActionVerb (title task);
            mt_description := description task;
            mt_estimatedMinutes :=
              match truthyNumber (estimatedMinutes task) with
              | Some m => clampTimeEstimate m
              | None => 30
              end;
            dependsOn := [];
            isParallelizable := true |} ];
     dependencies := [];
     parallelGroups := [[0%nat]];
     mvpSuggestion :=
       match deadline task with
       | Some _ => Some ("Complete " +:+ dq +:+ title task +:+ dq)
       | None => None
       end |}.

(** [try { ... } catch (error) { ... }]. *)
Definition try_catch {A : Type} (body : outcome A) (handler : string -> outcome A) : outcome A :=
  match body with
  | Ok a => Ok a
  | Throw e => handler e
  end.

(** [task.estimatedMinutes && task.estimatedMinutes <= 60]. *)
Definition smallEnough (task : Task) : bool :=
  match truthyNumber (estimatedMinutes task) with
  | Some m => m <=? 60
  | None => false
  end.

Definition atomize (llmProvider : LLMProvider) (task : Task) : outcome AtomizationResult :=
  if smallEnough task then Ok (createSingleTaskResult task)
  else
    let prompt := buildAtomizationPrompt task in
    let messages := [ mkMessage "system" getSystemPrompt; mkMessage "user" prompt ] in
    try_catch
      (match llmProvider messages with
       | Ok result => Ok (processLLMResponse result task)
       | Throw e => Throw e
       end)
      (fun _ => Ok (createSingleTaskResult task)).

(** *** [topologicalSort]

    [adjList] and [inDegree] are the two arrays of length [n]; an index that
    [parseInt] reads as negative selects no element of [adjList], and the
    [push] on [undefined] throws. *)
Definition Graph : Type := (list (list nat) * list Z)%type.

Definition addEdge (fromIndex : Z) (toIndex : nat) (g : Graph) : outcome Graph :=
  let '(adjList, inDegree) := g in
  if fromIndex <? 0
  then Throw "TypeError: Cannot read properties of undefined (reading 'push')"
  else Ok (alter (fun l => l ++ [toIndex]) (Z.to_nat fromIndex) adjList,
           alter Z.succ toIndex inDegree).

Fixpoint addDependsOn (n toIndex : nat) (deps : list string) (g : Graph) : outcome Graph :=
  match deps with
  | [] => Ok g
  | fromIndexStr :: rest =>
      match JS.parseInt fromIndexStr with
      | Some fromIndex =>
          if (fromIndex <? Z.of_nat n) && negb (fromIndex =? Z.of_nat toIndex)
          then
            match addEdge fromIndex toIndex g with
            | Ok g' => addDependsOn n toIndex rest g'
            | Throw e => Throw e
            end
          else addDependsOn n toIndex rest g
      | None => addDependsOn n toIndex rest g
      end
  end.

Fixpoint buildGraph (n toIndex : nat) (microTasks : list MicroTaskSuggestion) (g : Graph)
    : outcome Graph :=
  match microTasks with
  | [] => Ok g
  | mt :: rest =>
      match addDependsOn n toIndex (dependsOn mt) g with
      | Ok g' => buildGraph n (S toIndex) rest g'
      | Throw e => Throw e
      end
  end.

(** One turn of the inner [for ... of adjList[node]] loop. *)
Definition relax (st : list Z * list nat) (neighbor : nat) : list Z * list nat :=
  let '(inDegree, queue) := st in
  let inDegree' := alter Z.pred neighbor inDegree in
  if decide (inDegree' !! neighbor = Some 0)
  then (inDegree', queue ++ [neighbor])
  else (inDegree', queue).

(** The [while (queue.length > 0)] loop, at most [fuel] turns; [None] when
    the turns run out before the queue is empty. *)
Fixpoint kahn (fuel : nat) (adjList : list (list nat)) (inDegree : list Z)
    (queue result : list nat) : option (list nat) :=
  match queue with
  | [] => Some result
  | node :: queue' =>
      match fuel with
      | O => None
      | S fuel' =>
          let '(inDegree', queue'') :=
            foldl relax (inDegree, queue') (default [] (adjList !! node)) in
          kahn fuel' adjList inDegree' queue'' (result ++ [node])
      end
  end.

Definition initialQueue (n : nat) (inDegree : list Z) : list nat :=
  filter (fun i => inDegree !! i = Some 0) (seq 0 n).

(** [topologicalSort]; the outer [None] only says that the bound given to
    the loop was too small, which never happens (see [kahn_terminates]). *)
Definition topologicalSort (microTasks : list MicroTaskSuggestion)
    : option (outcome (list nat)) :=
  let n := length microTasks in
  match buildGraph n 0 microTasks (replicate n [], replicate n 0) with
  | Throw e => Some (Throw e)
  | Ok (adjList, inDegree) =>
      match kahn n adjList inDegree (initialQueue n inDegree) [] with
      | Some result =>
          if decide (length result = n) then Some (Ok result)
          else Some (Ok (seq 0 n))
      | None => None
      end
  end.

(** *** [estimateTime], [suggestMVP]

    [llmProvider.generate], reduced to the [content] of the response it
    resolves with. *)
Definition LLMGenerate : Type := list LLMMessage -> outcome string.

Definition estimateTime (generate : LLMGenerate) (task : Task) : Z :=
  let messages :=
    [ mkMessage "system"
        "You are a productivity assistant. Estimate how long a task will take in minutes. Consider complexity, typical time for similar tasks, and any context provided. Respond with just a number (minutes).";
      mkMessage "user"
        ("Task: " +:+ title task +:+ nl +:+ "Description: "
         +:+ default "None" (truthyString (description task))
         +:+ nl +:+ nl +:+ "Estimate in minutes:") ] in
  match generate messages with
  | Ok content =>
      match JS.parseInt (JS.trim content) with
      | None => 30
      | Some minutes => Z.max 5 (Z.min 480 minutes)
      end
  | Throw _ => 30
  end.

Definition suggestMVP (generate : LLMGenerate) (task : Task) : string :=
  match deadline task with
  | None => ""
  | Some dl =>
      let messages :=
        [ mkMessage "system"
            "You are a productivity assistant. Given a task with a deadline, suggest the minimum viable progress (MVP) - the smallest deliverable that represents meaningful progress. Be concise and specific.";
          mkMessage "user"
            ("Task: " +:+ title task +:+ nl +:+ "Description: "
             +:+ default "None" (truthyString (description task))
             +:+ nl +:+ "Deadline: " +:+ toISOString dl +:+ nl +:+ nl
             +:+ "What is the minimum viable progress for this task? Respond with just the MVP suggestion, no explanation.") ] in
      match generate messages with
      | Ok content => JS.trim content
      | Throw _ => "Complete the first step of " +:+ dq +:+ title task +:+ dq
      end
  end.

(** *** [orderByDependencies]

    [order.map((i) => microTasks[i])]; an index outside the array would give
    [undefined], which is [None] here. *)
Definition orderByDependencies (microTasks : list MicroTaskSuggestion)
    : option (outcome (list (option MicroTaskSuggestion))) :=
  match topologicalSort microTasks with
  | Some (Ok order) => Some (Ok ((fun i => microTasks !! i) <$> order))
  | Some (Throw e) => Some (Throw e)
  | None => None
  end.

(** *** [atomizationResultToTaskInputs] *)
Definition atomizationResultToTaskInputs (result : AtomizationResult) (parentTask : Task)
    : list TaskInput :=
  (fun mt =>
     {| in_rawInput := mt_title mt;
        in_title := Some (mt_title mt);
        in_description := mt_description mt;
        in_parentId := Some (id parentTask);
        in_deadline := deadline parentTask;
        in_scheduledDate := None;
        in_estimatedMinutes := Some (mt_estimatedMinutes mt);
        in_priority := None |}) <$> microTasks result.

End AtomizationEngine.

(** ** Storage adapters ([lib/store/memory-storage-adapter.ts])

    [StorageAdapter] is the interface the store persists through; [S] is the
    state of an adapter.  Adapters whose promises reject are not modelled. *)

Class StorageAdapter (S : Type) : Type :=
  { load : S -> list SerializedTask;
    save : S -> list SerializedTask -> S }.

(** [MemoryStorageAdapter]: the state is its [data] array; [load] and [save]
    copy the array they return or receive. *)
Module MemoryStorageAdapter.

Definition t : Type := list SerializedTask.

Definition load (data : t) : list SerializedTask := data.

Definition save (data : t) (tasks : list SerializedTask) : t := tasks.

Definition clear (data : t) : t := [].

Definition getData (data : t) : list SerializedTask := data.

End MemoryStorageAdapter.

#[global] Instance MemoryStorageAdapter_adapter : StorageAdapter MemoryStorageAdapter.t :=
  {| load := MemoryStorageAdapter.load; save := MemoryStorageAdapter.save |}.

(** ** The task store ([lib/store/task-store.ts])

    The private [Map<string, Task>] is a [gmap string Task], threaded
    through the operations; every operation returns the map it leaves
    behind together with its result.  [persist] hands a serialised copy of
    the map to the storage collaborator and does not change the map.  The
    clock ([new Date()]) and [generateId] ([crypto.randomUUID]) are inputs. *)

Module TaskStore.

Abbreviation Tasks := (gmap string Task).

Definition truthy (s : option string) : bool :=
  match s with
  | Some (String _ _) => true
  | _ => false
  end.

(** [rawInput.slice(0, 100)]. *)
Definition slice100 (s : string) : string := String.substring 0 100 s.

Definition create (tasks : Tasks) (now : Date) (newId : string) (input : TaskInput)
    : Tasks * Task :=
  let task0 : Task :=
    {| id := newId;
       createdAt := now;
       updatedAt := now;
       title := if truthy (in_title input) then default EmptyString (in_title input)
                else slice100 (in_rawInput input);
       description := in_description input;
       rawInput := in_rawInput input;
       parentId := in_parentId input;
       childIds := [];
       deadline := in_deadline input;
       scheduledDate := in_scheduledDate input;
       estimatedMinutes := in_estimatedMinutes input;
       priority := default medium (in_priority input);
       priorityReason :=
         match in_priority input with
         | Some _ => "User specified"
         | None => "Default priority"
         end;
       status := pending;
       context := mkContext None None [] [];
       history := [ mkHistoryEntry now act_created "Task created" None None ] |} in
  let parent : option Task :=
    if truthy (in_parentId input)
    then pid ← in_parentId input; tasks !! pid
    else None in
  match parent with
  | Some parent =>
      let updatedParent : Task :=
        {| id := id parent;
           createdAt := createdAt parent;
           updatedAt := now;
           title := title parent;
           description := description parent;
           rawInput := rawInput parent;
           parentId := parentId parent;
           childIds := childIds parent ++ [newId];
           deadline := deadline parent;
           scheduledDate := scheduledDate parent;
           estimatedMinutes := estimatedMinutes parent;
           priority := priority parent;
           priorityReason := priorityReason parent;
           status := status parent;
           context := context parent;
           history :=
             history parent ++
             [ mkHistoryEntry now act_updated ("Added child task: " +:+ newId)
                 (Some (VStrings (childIds parent)))
                 (Some (VStrings (childIds parent ++ [newId]))) ] |} in
      let task : Task :=
        {| id := id task0;
           createdAt := createdAt task0;
           updatedAt := updatedAt task0;
           title := title task0;
           description := description task0;
           rawInput := rawInput task0;
           parentId := parentId task0;
           childIds := childIds task0;
           deadline := deadline task0;
           scheduledDate := scheduledDate task0;
           estimatedMinutes := estimatedMinutes task0;
           priority := priority task0;
           priorityReason := priorityReason task0;
           status := status task0;
           context := mkContext (Some (rawInput parent)) (Some (title parent)) [] [];
           history := history task0 |} in
      (<[newId := task]> (<[id parent := updatedParent]> tasks), task)
  | None => (<[newId := task0]> tasks, task0)
  end.

Definition get (tasks : Tasks) (i : string) : option Task := tasks !! i.

(** [getAll()] without a filter: the values of the map.  (The order of
    [Array.from(map.values())] is insertion order; the functions below that
    consume [getAll()] do not depend on it.) *)
Definition getAll (tasks : Tasks) : list Task := (map_to_list tasks).*2.

Section Update.

(** [a !== b] on two [Date] objects compares the objects, not the instants;
    the outcome for a stored and a supplied date is a parameter. *)
Variable date_differs : Date -> Date -> bool.

Definition keyOf (p : UpdateProperty) : string :=
  match p with
  | upd_title _ => "title"
  | upd_description _ => "description"
  | upd_deadline _ => "deadline"
  | upd_priority _ => "priority"
  | upd_priorityReason _ => "priorityReason"
  | upd_scheduledDate _ => "scheduledDate"
  | upd_estimatedMinutes _ => "estimatedMinutes"
  | upd_status _ => "status"
  end.

(** The value of the property, [None] for [undefined]. *)
Definition valueOf (p : UpdateProperty) : option JSValue :=
  match p with
  | upd_title v => Some (VString v)
  | upd_description v => VString <$> v
  | upd_deadline v => VDate <$> v
  | upd_priority v => Some (VString (PriorityLevel_str v))
  | upd_priorityReason v => Some (VString v)
  | upd_scheduledDate v => VDate <$> v
  | upd_estimatedMinutes v => VNumber <$> v
  | upd_status v => Some (VString (TaskStatus_str v))
  end.

(** [task[key]]. *)
Definition currentOf (task : Task) (p : UpdateProperty) : option JSValue :=
  match p with
  | upd_title _ => Some (VString (title task))
  | upd_description _ => VString <$> description task
  | upd_deadline _ => VDate <$> deadline task
  | upd_priority _ => Some (VString (PriorityLevel_str (priority task)))
  | upd_priorityReason _ => Some (VString (priorityReason task))
  | upd_scheduledDate _ => VDate <$> scheduledDate task
  | upd_estimatedMinutes _ => VNumber <$> estimatedMinutes task
  | upd_status _ => Some (VString (TaskStatus_str (status task)))
  end.

(** [a !== b]. *)
Definition strictNotEqual (a b : option JSValue) : bool :=
  match a, b with
  | None, None => false
  | Some (VString x), Some (VString y) => negb (String.eqb x y)
  | Some (VNumber x), Some (VNumber y) => negb (x =? y)
  | Some (VDate x), Some (VDate y) => date_differs x y
  | _, _ => true
  end.

Definition historyEntriesFor (now : Date) (task : Task) (updates : TaskUpdate)
    : list TaskHistoryEntry :=
  omap (fun p =>
          match valueOf p with
          | Some value =>
              if strictNotEqual (currentOf task p) (Some value)
              then Some (mkHistoryEntry now act_updated (keyOf p +:+ " changed")
                           (currentOf task p) (Some value))
              else None
          | None => None
          end) updates.

(** [{ ...task, [key]: value }] for one property. *)
Definition assign (task : Task) (p : UpdateProperty) : Task :=
  {| id := id task;
     createdAt := createdAt task;
     updatedAt := updatedAt task;
     title := match p with upd_title v => v | _ => title task end;
     description := match p with upd_description v => v | _ => description task end;
     rawInput := rawInput task;
     parentId := parentId task;
     childIds := childIds task;
     deadline := match p with upd_deadline v => v | _ => deadline task end;
     scheduledDate := match p with upd_scheduledDate v => v | _ => scheduledDate task end;
     estimatedMinutes :=
       match p with upd_estimatedMinutes v => v | _ => estimatedMinutes task end;
     priority := match p with upd_priority v => v | _ => priority task end;
     priorityReason := match p with upd_priorityReason v => v | _ => priorityReason task end;
     status := match p with upd_status v => v | _ => status task end;
     context := context task;
     history := history task |}.

Definition withStamp (task : Task) (now : Date) (hist : list TaskHistoryEntry) : Task :=
  {| id := id task;
     createdAt := createdAt task;
     updatedAt := now;
     title := title task;
     description := description task;
     rawInput := rawInput task;
     parentId := parentId task;
     childIds := childIds task;
     deadline := deadline task;
     scheduledDate := scheduledDate task;
     estimatedMinutes := estimatedMinutes task;
     priority := priority task;
     priorityReason := priorityReason task;
     status := status task;
     context := context task;
     history := hist |}.

Definition update (tasks : Tasks) (now : Date) (i : string) (updates : TaskUpdate)
    (explicit : bool) : Tasks * outcome Task :=
  if negb explicit
  then (tasks, Throw "Task modifications require explicit user request")
  else
    match tasks !! i with
    | None => (tasks, Throw ("Task not found: " +:+ i))
    | Some task =>
        let historyEntries := historyEntriesFor now task updates in
        let updatedTask :=
          withStamp (foldl assign task updates) now (history task ++ historyEntries) in
        (<[i := updatedTask]> tasks, Ok updatedTask)
    end.

End Update.

Definition withStatus (task : Task) (st : TaskStatus) (sched : option Date) : Task :=
  {| id := id task;
     createdAt := createdAt task;
     updatedAt := updatedAt task;
     title := title task;
     description := description task;
     rawInput := rawInput task;
     parentId := parentId task;
     childIds := childIds task;
     deadline := deadline task;
     scheduledDate := sched;
     estimatedMinutes := estimatedMinutes task;
     priority := priority task;
     priorityReason := priorityReason task;
     status := st;
     context := context task;
     history := history task |}.

Definition complete (tasks : Tasks) (now : Date) (i : string) : Tasks * outcome Task :=
  match tasks !! i with
  | None => (tasks, Throw ("Task not found: " +:+ i))
  | Some task =>
      let historyEntry :=
        mkHistoryEntry now act_completed "Task marked as complete"
          (Some (VString (TaskStatus_str (status task))))
          (Some (VString "completed")) in
      let updatedTask :=
        withStamp (withStatus task completed (scheduledDate task)) now
          (history task ++ [historyEntry]) in
      (<[i := updatedTask]> tasks, Ok updatedTask)
  end.

(** [defer].  [setDate] and [setHours] give the dates they compute without
    clipping them to the range of time values, so the definition follows the
    code for a clock away from the ends of that range ([clearOfLimits] in
    the statements below); at the very end of the range the code's [tomorrow]
    is an Invalid Date and [toISOString] throws. *)
Definition defer (tz : TimeZone) (tasks : Tasks) (now : Date) (i : string)
    (newDate : option Date) : Tasks * outcome Task :=
  match tasks !! i with
  | None => (tasks, Throw ("Task not found: " +:+ i))
  | Some task =>
      let tomorrow := setDate tz now (getDate tz now + 1) in
      let tomorrow := setHours tz tomorrow 9 0 0 0 in
      let scheduled := default tomorrow newDate in
      let historyEntry :=
        mkHistoryEntry now act_deferred
          ("Task deferred to " +:+ toISOString scheduled)
          (VString <$> (toISOString <$> scheduledDate task))
          (Some (VString (toISOString scheduled))) in
      let updatedTask :=
        withStamp (withStatus task deferred (Some scheduled)) now
          (history task ++ [historyEntry]) in
      (<[i := updatedTask]> tasks, Ok updatedTask)
  end.

Definition withChildren (parent : Task) (now : Date) (children : list string)
    (entry : TaskHistoryEntry) : Task :=
  {| id := id parent;
     createdAt := createdAt parent;
     updatedAt := now;
     title := title parent;
     description := description parent;
     rawInput := rawInput parent;
     parentId := parentId parent;
     childIds := children;
     deadline := deadline parent;
     scheduledDate := scheduledDate parent;
     estimatedMinutes := estimatedMinutes parent;
     priority := priority parent;
     priorityReason := priorityReason parent;
     status := status parent;
     context := context parent;
     history := history parent ++ [entry] |}.

Definition delete (tasks : Tasks) (now : Date) (i : string) (explicit : bool)
    : Tasks * outcome unit :=
  if negb explicit
  then (tasks, Throw "Task deletion requires explicit user request")
  else
    match tasks !! i with
    | None => (tasks, Throw ("Task not found: " +:+ i))
    | Some task =>
        let parent : option Task :=
          if truthy (parentId task) then pid ← parentId task; tasks !! pid else None in
        let tasks' :=
          match parent with
          | Some parent =>
              let remaining := filter (fun cid => cid ≠ i) (childIds parent) in
              <[id parent :=
                  withChildren parent now remaining
                    (mkHistoryEntry now act_updated ("Removed child task: " +:+ i)
                       (Some (VStrings (childIds parent)))
                       (Some (VStrings remaining)))]> tasks
          | None => tasks
          end in
        (base.delete i tasks', Ok tt)
    end.

(** *** [getAll(filter)]

    [l.includes(x)] on the strings of a string-literal union. *)
Definition includesStatus (l : list TaskStatus) (x : TaskStatus) : bool :=
  existsb (fun y => String.eqb (TaskStatus_str y) (TaskStatus_str x)) l.

Definition includesPriority (l : list PriorityLevel) (x : PriorityLevel) : bool :=
  existsb (fun y => String.eqb (PriorityLevel_str y) (PriorityLevel_str x)) l.

Definition inDateRange (range : Date * Date) (t : Task) : bool :=
  match scheduledDate t with
  | None => false
  | Some sd => (range.1 <=? sd) && (sd <=? range.2)
  end.

Definition hasParent (pid : string) (t : Task) : bool :=
  match parentId t with
  | Some p => String.eqb p pid
  | None => false
  end.

(** Scheduled on the local calendar day of [target]: both dates are taken
    to local midnight with [setHours(0, 0, 0, 0)]. *)
Definition scheduledOn (tz : TimeZone) (target : Date) (t : Task) : bool :=
  let targetDate := setHours tz target 0 0 0 0 in
  match scheduledDate t with
  | None => false
  | Some sd => setHours tz sd 0 0 0 0 =? targetDate
  end.

(** The [if (filter) { ... }] block: one [Array.prototype.filter] per
    criterion that is present (and, for the two arrays, not empty). *)
Definition applyFilter (tz : TimeZone) (filter : TaskFilter) (tasks : list Task) : list Task :=
  let tasks :=
    match f_status filter with
    | Some (x :: l) => base.filter (fun t => includesStatus (x :: l) (status t) = true) tasks
    | _ => tasks
    end in
  let tasks :=
    match f_priority filter with
    | Some (x :: l) => base.filter (fun t => includesPriority (x :: l) (priority t) = true) tasks
    | _ => tasks
    end in
  let tasks :=
    match f_dateRange filter with
    | Some range => base.filter (fun t => inDateRange range t = true) tasks
    | None => tasks
    end in
  let tasks :=
    match f_parentId filter with
    | Some pid => base.filter (fun t => hasParent pid t = true) tasks
    | None => tasks
    end in
  match f_scheduledDate filter with
  | Some target => base.filter (fun t => scheduledOn tz target t = true) tasks
  | None => tasks
  end.

(** [getAll(filter)], from the array [Array.from(this.tasks.values())]. *)
Definition filterAll (tz : TimeZone) (filter : option TaskFilter) (all : list Task)
    : list Task :=
  match filter with
  | Some f => applyFilter tz f all
  | None => all
  end.

Definition getAllWith (tz : TimeZone) (tasks : Tasks) (filter : option TaskFilter)
    : list Task :=
  filterAll tz filter (getAll tasks).

(** *** [count], [clear] *)

Definition count (tasks : Tasks) : nat := size tasks.

Definition clear (tasks : Tasks) : Tasks := ∅.

(** *** [initialize], [persist]

    [storage] is [None] when the store was built without an adapter.
    [persist] returns the adapter after [save]; [initialize] returns the map
    after the loaded tasks were set, [None] when a loaded date string is not
    read by the model of [new Date(string)]. *)
Definition persist {S : Type} `{StorageAdapter S} (storage : option S) (tasks : Tasks)
    : option S :=
  match storage with
  | Some st => Some (save st (serializeTask <$> getAll tasks))
  | None => None
  end.

Definition initialize {S : Type} `{StorageAdapter S} (storage : option S) (tasks : Tasks)
    : option Tasks :=
  match storage with
  | Some st =>
      foldl (fun acc data =>
               tasks ← acc; task ← deserializeTask data; Some (<[id task := task]> tasks))
        (Some tasks) (load st)
  | None => Some tasks
  end.

(** *** [importJSON]

    [parsed] is the outcome of [JSON.parse(json)], read as a
    [SerializedTask[]]; [generateId k] and [clock k] are the id and the time
    obtained in turn [k] of the loop, and [newDate] is the host's
    [new Date(string)].  The result is [None] when [newDate] makes an Invalid
    Date of a date string of the data. *)
Definition importedTask (task : Task) (newId : string) (now : Date) : Task :=
  {| id := newId;
     createdAt := createdAt task;
     updatedAt := now;
     title := title task;
     description := description task;
     rawInput := rawInput task;
     parentId := parentId task;
     childIds := childIds task;
     deadline := deadline task;
     scheduledDate := scheduledDate task;
     estimatedMinutes := estimatedMinutes task;
     priority := priority task;
     priorityReason := priorityReason task;
     status := status task;
     context := context task;
     history :=
       history task ++
       [ mkHistoryEntry now act_created
           ("Imported from external source (original ID: " +:+ id task +:+ ")")
           None None ] |}.

Fixpoint importLoop (newDate : string -> option Date) (generateId : nat -> string)
    (clock : nat -> Date) (k : nat)
    (tasks : Tasks) (data : list SerializedTask) (imported : list Task)
    : option (Tasks * list Task) :=
  match data with
  | [] => Some (tasks, imported)
  | serialized :: rest =>
      task ← deserializeTaskBy newDate serialized;
      let newId := generateId k in
      let now := clock k in
      let importedTask := importedTask task newId now in
      importLoop newDate generateId clock (S k) (<[newId := importedTask]> tasks) rest
        (imported ++ [importedTask])
  end.

Definition importJSON (newDate : string -> option Date) (generateId : nat -> string)
    (clock : nat -> Date) (tasks : Tasks) (parsed : outcome (list SerializedTask))
    : option (Tasks * outcome (list Task)) :=
  match parsed with
  | Throw e => Some (tasks, Throw e)
  | Ok data =>
      '(tasks', imported) ← importLoop newDate generateId clock 0 tasks data [];
      Some (tasks', Ok imported)
  end.

End TaskStore.

(** ** The progress manager ([lib/managers/progress-manager.ts]) *)

Module ProgressManager.

(** [date.toISOString().split('T')[0]]. *)
Fixpoint beforeT (cs : list ascii) : list ascii :=
  match cs with
  | [] => []
  | c :: cs' => if Ascii.eqb c "T" then [] else c :: beforeT cs'
  end.

Definition formatDate (date : Date) : string :=
  string_of_list_ascii (beforeT (isoChars date)).

Definition isCompletedEntry (h : TaskHistoryEntry) : bool :=
  match action h with
  | act_completed => true
  | _ => false
  end.

(** [dates.add(d)] on a [Set], kept in insertion order. *)
Definition setAdd (dates : list string) (d : string) : list string :=
  if existsb (String.eqb d) dates then dates else dates ++ [d].

Definition getCompletionDates (allTasks : list Task) : list string :=
  foldl (fun dates task =>
           match status task with
           | completed =>
               match find isCompletedEntry (history task) with
               | Some completedEntry => setAdd dates (formatDate (timestamp completedEntry))
               | None => dates
               end
           | _ => dates
           end) [] allTasks.

(** The [for (const date of sortedDates)] loop.  [new Date(currentDate)]
    followed by [formatDate] throws a [RangeError] when the string is not a
    date. *)
Fixpoint countStreak (tz : TimeZone) (sortedDates : list string) (streak : Z)
    (currentDate : string) : outcome Z :=
  match sortedDates with
  | [] => Ok streak
  | date :: rest =>
      if String.eqb date currentDate then
        match parse currentDate with
        | Some prevDate =>
            let prevDate := setDate tz prevDate (getDate tz prevDate - 1) in
            countStreak tz rest (streak + 1) (formatDate prevDate)
        | None => Throw "RangeError: Invalid time value"
        end
      else if JS.string_lt date currentDate then Ok streak
      else countStreak tz rest streak currentDate
  end.

(** [calculateStreak], given the host time zone, the clock and the result of
    [store.getAll()]. *)
Definition streakOf (tz : TimeZone) (now : Date) (allTasks : list Task) : outcome Z :=
  let completionDates := getCompletionDates allTasks in
  match JS.sort (fun a b => JS.localeCompare b a) completionDates with
  | [] => Ok 0
  | first :: rest =>
      let today := formatDate now in
      let yesterday := formatDate (now - 24 * 60 * 60 * 1000) in
      if negb (String.eqb first today) && negb (String.eqb first yesterday)
      then Ok 0
      else
        let currentDate := if String.eqb first today then today else yesterday in
        countStreak tz (first :: rest) 0 currentDate
  end.

Definition calculateStreak (tz : TimeZone) (now : Date) (store : TaskStore.Tasks) : outcome Z :=
  streakOf tz now (TaskStore.getAll store).

(** *** Progress of a day

    [getTodayProgress] and [getProgressForDate] run the same two [filter]
    calls, on the day string of the clock and of the date given. *)
Record DayProgress : Type := mkDayProgress
  { dp_date : string;
    completedCount : Z;
    totalCount : Z;
    completedTaskIds : list string }.

Record ProgressStats : Type := mkProgressStats
  { today : DayProgress;
    streak : Z;
    totalCompleted : Z;
    completionRate : Q }.

(** Scheduled for the day, or completed on it. *)
Definition isOnDate (dateStr : string) (task : Task) : bool :=
  match scheduledDate task with
  | Some sd => String.eqb (formatDate sd) dateStr
  | None => false
  end
  ||
  match status task with
  | completed =>
      match find isCompletedEntry (history task) with
      | Some completedEntry => String.eqb (formatDate (timestamp completedEntry)) dateStr
      | None => false
      end
  | _ => false
  end.

Definition isCompleted (task : Task) : bool :=
  match status task with
  | completed => true
  | _ => false
  end.

Definition progressOn (dateStr : string) (allTasks : list Task) : DayProgress :=
  let dayTasks := filter (fun task => isOnDate dateStr task = true) allTasks in
  let completedTasks := filter (fun t => isCompleted t = true) dayTasks in
  {| dp_date := dateStr;
     completedCount := Z.of_nat (length completedTasks);
     totalCount := Z.of_nat (length dayTasks);
     completedTaskIds := id <$> completedTasks |}.

Definition getTodayProgress (now : Date) (allTasks : list Task) : DayProgress :=
  progressOn (formatDate now) allTasks.

Definition getProgressForDate (date : Date) (allTasks : list Task) : DayProgress :=
  progressOn (formatDate date) allTasks.

(** The loop [for (let i = 6; i >= 0; i--)]. *)
Definition getWeeklyProgress (tz : TimeZone) (today : Date) (allTasks : list Task)
    : list DayProgress :=
  (fun i => getProgressForDate (setDate tz today (getDate tz today - i)) allTasks)
    <$> [6; 5; 4; 3; 2; 1; 0].

Definition isAllDoneToday (now : Date) (allTasks : list Task) : bool :=
  let today := getTodayProgress now allTasks in
  (0 <? totalCount today) && (completedCount today =? totalCount today).

(** [getProgressStats]; the quotient [totalCompleted / allTasks.length] is
    exact here and a double in JavaScript. *)
Definition getProgressStats (tz : TimeZone) (now : Date) (allTasks : list Task)
    : outcome ProgressStats :=
  let today := getTodayProgress now allTasks in
  match streakOf tz now allTasks with
  | Throw e => Throw e
  | Ok streak =>
      let totalCompleted :=
        Z.of_nat (length (filter (fun t => isCompleted t = true) allTasks)) in
      let completionRate : Q :=
        if (0 <? length allTasks)%nat
        then (inject_Z totalCompleted / inject_Z (Z.of_nat (length allTasks)))%Q
        else 0%Q in
      Ok (mkProgressStats today streak totalCompleted completionRate)
  end.

End ProgressManager.

(** ** The task manager ([lib/managers/task-manager.ts])

    The functions that read the store take [all], the array
    [Array.from(this.tasks.values())] that [store.getAll] filters.  The
    functions that write to it take the store and, one by one, the values the
    clock has when it is read. *)

Module TaskManager.

Definition MAX_TODAY_TASKS : nat := 7.

(** The [PriorityInput] handed to [calculatePriority] by [createTask]:
    [{ priority, deadline, createdAt, childIds: [] }]. *)
Definition priorityInput (p : PriorityLevel) (dl : option Date) (created : Date) : Task :=
  {| id := ""; createdAt := created; updatedAt := created; title := "";
     description := None; rawInput := ""; parentId := None; childIds := [];
     deadline := dl; scheduledDate := None; estimatedMinutes := None;
     priority := p; priorityReason := ""; status := pending;
     context := mkContext None None [] []; history := [] |}.

(** [createTask].  [started] is the [new Date()] of [createTask] itself,
    [scored] the time read by [calculatePriority], [created] the one read by
    [store.create] and [stamped] the one read by [store.update]. *)
Definition createTask (date_differs : Date -> Date -> bool) (store : TaskStore.Tasks)
    (started scored created stamped : Date) (newId : string) (input : TaskInput)
    : TaskStore.Tasks * outcome (option Task) :=
  let priorityResult :=
    PriorityEngine.calculatePriority scored
      (priorityInput (default medium (in_priority input)) (in_deadline input) started) in
  let taskInput :=
    {| in_rawInput := in_rawInput input;
       in_title := in_title input;
       in_description := in_description input;
       in_parentId := in_parentId input;
       in_deadline := in_deadline input;
       in_scheduledDate := in_scheduledDate input;
       in_estimatedMinutes := in_estimatedMinutes input;
       in_priority := Some (default (PriorityEngine.level priorityResult) (in_priority input)) |} in
  let '(store1, task) := TaskStore.create store created newId taskInput in
  match in_priority input with
  | Some _ => (store1, Ok (TaskStore.get store1 (id task)))
  | None =>
      match TaskStore.update date_differs store1 stamped (id task)
              [upd_priorityReason (PriorityEngine.reason priorityResult)] true with
      | (store2, Ok _) => (store2, Ok (TaskStore.get store2 (id task)))
      | (store2, Throw e) => (store2, Throw e)
      end
  end.

Definition getTask (store : TaskStore.Tasks) (i : string) : option Task :=
  TaskStore.get store i.

Definition getTasks (tz : TimeZone) (all : list Task) (filter : option TaskFilter)
    : list Task :=
  TaskStore.filterAll tz filter all.

(** [updates.deadline]: [None] when the patch has no such property or holds
    [undefined] there. *)
Definition deadlineOf (updates : TaskUpdate) : option Date :=
  foldl (fun acc p => match p with upd_deadline v => v | _ => acc end) None updates.

(** [updateTask].  [stamped] is the time read by the first [store.update],
    [scored] the one read by [calculatePriority], [restamped] the one read by
    the second [store.update]. *)
Definition updateTask (date_differs : Date -> Date -> bool) (store : TaskStore.Tasks)
    (stamped scored restamped : Date) (i : string) (updates : TaskUpdate) (explicit : bool)
    : TaskStore.Tasks * outcome (option Task) :=
  match TaskStore.update date_differs store stamped i updates explicit with
  | (store1, Throw e) => (store1, Throw e)
  | (store1, Ok task) =>
      match deadlineOf updates with
      | Some _ =>
          let priorityResult := PriorityEngine.calculatePriority scored task in
          if negb (String.eqb (PriorityLevel_str (priority task))
                     (PriorityLevel_str (PriorityEngine.level priorityResult)))
          then
            match TaskStore.update date_differs store1 restamped i
                    [ upd_priority (PriorityEngine.level priorityResult);
                      upd_priorityReason (PriorityEngine.reason priorityResult) ] true with
            | (store2, Ok _) => (store2, Ok (TaskStore.get store2 i))
            | (store2, Throw e) => (store2, Throw e)
            end
          else (store1, Ok (TaskStore.get store1 i))
      | None => (store1, Ok (TaskStore.get store1 i))
      end
  end.

Definition completeTask (store : TaskStore.Tasks) (now : Date) (i : string)
    : TaskStore.Tasks * outcome Task :=
  TaskStore.complete store now i.

Definition deleteTask (store : TaskStore.Tasks) (now : Date) (i : string) (explicit : bool)
    : TaskStore.Tasks * outcome unit :=
  TaskStore.delete store now i explicit.

(** [{ status: ['pending', 'in_progress'] }]. *)
Definition openTasks : TaskFilter :=
  mkTaskFilter (Some [pending; in_progress]) None None None None.

(** [task.scheduledDate || task.deadline]. *)
Definition dateToCheck (task : Task) : option Date :=
  match scheduledDate task with
  | Some sd => Some sd
  | None => deadline task
  end.

Definition isToday (tz : TimeZone) (today : Date) (task : Task) : bool :=
  match scheduledDate task with
  | None =>
      match deadline task with
      | Some dl => setHours tz dl 0 0 0 0 =? today
      | None => false
      end
  | Some sd => setHours tz sd 0 0 0 0 =? today
  end.

Definition getTodayTasks (tz : TimeZone) (now : Date) (all : list Task) : list Task :=
  let today := setHours tz now 0 0 0 0 in
  let allTasks := TaskStore.filterAll tz (Some openTasks) all in
  let todayTasks := filter (fun task => isToday tz today task = true) allTasks in
  let sorted := PriorityEngine.prioritizeTasks todayTasks in
  take MAX_TODAY_TASKS sorted.

Definition isUpcoming (tz : TimeZone) (tomorrow weekFromNow : Date) (task : Task) : bool :=
  match dateToCheck task with
  | None => false
  | Some d =>
      let taskDate := setHours tz d 0 0 0 0 in
      (tomorrow <=? taskDate) && (taskDate <? weekFromNow)
  end.

Definition getUpcomingTasks (tz : TimeZone) (now : Date) (all : list Task) : list Task :=
  let today := setHours tz now 0 0 0 0 in
  let tomorrow := setDate tz today (getDate tz today + 1) in
  let weekFromNow := setDate tz today (getDate tz today + 7) in
  let allTasks := TaskStore.filterAll tz (Some openTasks) all in
  let upcomingTasks := filter (fun task => isUpcoming tz tomorrow weekFromNow task = true) allTasks in
  PriorityEngine.prioritizeTasks upcomingTasks.

Definition isLater (tz : TimeZone) (weekFromNow : Date) (task : Task) : bool :=
  match dateToCheck task with
  | None => true
  | Some d => weekFromNow <=? setHours tz d 0 0 0 0
  end.

Definition getLaterTasks (tz : TimeZone) (now : Date) (all : list Task) : list Task :=
  let weekFromNow := setDate tz now (getDate tz now + 7) in
  let weekFromNow := setHours tz weekFromNow 0 0 0 0 in
  let allTasks := TaskStore.filterAll tz (Some openTasks) all in
  let laterTasks := filter (fun task => isLater tz weekFromNow task = true) allTasks in
  PriorityEngine.prioritizeTasks laterTasks.

Definition getNextTask (tz : TimeZone) (now : Date) (all : list Task) : option Task :=
  let todayTasks := getTodayTasks tz now all in
  PriorityEngine.getNextTask todayTasks.

Definition getChildTasks (tz : TimeZone) (all : list Task) (parentId : string) : list Task :=
  TaskStore.filterAll tz (Some (mkTaskFilter None None None (Some parentId) None)) all.

(** [getTaskCounts]: [(pending, completed, total)]. *)
Definition getTaskCounts (all : list Task) : Z * Z * Z :=
  let pendingCount := length (filter (fun t => PriorityEngine.isOpen t = true) all) in
  let completedCount := length (filter (fun t => ProgressManager.isCompleted t = true) all) in
  (Z.of_nat pendingCount, Z.of_nat completedCount, Z.of_nat (length all)).

End TaskManager.

(** ** Sequences of store operations *)

Inductive StoreOp : Type :=
| OpCreate (now : Date) (newId : string) (input : TaskInput)
| OpUpdate (now : Date) (i : string) (updates : TaskUpdate) (explicit : bool)
| OpComplete (now : Date) (i : string)
| OpDefer (now : Date) (i : string) (newDate : option Date)
| OpDelete (now : Date) (i : string) (explicit : bool).

(** The map an operation leaves behind, whether it returns or throws. *)
Definition applyOp (date_differs : Date -> Date -> bool) (tz : TimeZone)
    (tasks : TaskStore.Tasks) (op : StoreOp) : TaskStore.Tasks :=
  match op with
  | OpCreate now newId input => (TaskStore.create tasks now newId input).1
  | OpUpdate now i updates explicit =>
      (TaskStore.update date_differs tasks now i updates explicit).1
  | OpComplete now i => (TaskStore.complete tasks now i).1
  | OpDefer now i newDate => (TaskStore.defer tz tasks now i newDate).1
  | OpDelete now i explicit => (TaskStore.delete tasks now i explicit).1
  end.

Definition runOps (date_differs : Date -> Date -> bool) (tz : TimeZone)
    (tasks : TaskStore.Tasks) (ops : list StoreOp) : TaskStore.Tasks :=
  foldl (applyOp date_differs tz) tasks ops.

(** [op] neither deletes task [k] nor creates a task under the id [k]
    ([generateId] returns fresh ids). *)
Definition spares (k : string) (op : StoreOp) : Prop :=
  match op with
  | OpCreate _ newId _ => newId ≠ k
  | OpDelete _ i explicit => i ≠ k \/ explicit = false
  | _ => True
  end.

(** The store keeps every task under its own id. *)
Definition keyed (tasks : TaskStore.Tasks) : Prop :=
  map_Forall (fun k t => id t = k) tasks.

(** ** The dependency graph of a micro-task list *)

Module DependencyGraph.

Import AtomizationEngine.

(** [u] is listed (as a string that [parseInt] reads as [u]) among the
    dependencies of the micro-task at position [v]. *)
Definition listed (microTasks : list MicroTaskSuggestion) (u v : nat) : Prop :=
  exists mt s,
    microTasks !! v = Some mt /\ s ∈ dependsOn mt /\ JS.parseInt s = Some (Z.of_nat u).

(** The edges [topologicalSort] keeps: a listed dependency on another
    micro-task of the list.  Indices past the end and a micro-task's
    reference to itself are skipped by the guard
    [fromIndex < n && fromIndex !== toIndex]. *)
Definition edge (microTasks : list MicroTaskSuggestion) (u v : nat) : Prop :=
  listed microTasks u v /\ (u < length microTasks)%nat /\ u ≠ v.

Definition acyclic (microTasks : list MicroTaskSuggestion) : Prop :=
  forall u, ~ tc (edge microTasks) u u.

(** No entry of a [dependsOn] list reads as a negative number. *)
Definition nonnegative (microTasks : list MicroTaskSuggestion) : Prop :=
  Forall (fun mt =>
            Forall (fun s =>
                      match JS.parseInt s with
                      | Some k => 0 <= k
                      | None => True
                      end) (dependsOn mt)) microTasks.

(** [u] comes before [v] in [order]. *)
Definition before (order : list nat) (u v : nat) : Prop :=
  exists i j, order !! i = Some u /\ order !! j = Some v /\ (i < j)%nat.

(** The edge list in the order the two nested [forEach] loops visit it. *)
Definition edgesOf (n toIndex : nat) (deps : list string) : list (nat * nat) :=
  omap (fun s =>
          match JS.parseInt s with
          | Some k =>
              if (k <? Z.of_nat n) && negb (k =? Z.of_nat toIndex) && (0 <=? k)
              then Some (Z.to_nat k, toIndex)
              else None
          | None => None
          end) deps.

Fixpoint edgeListFrom (n toIndex : nat) (microTasks : list MicroTaskSuggestion)
    : list (nat * nat) :=
  match microTasks with
  | [] => []
  | mt :: rest => edgesOf n toIndex (dependsOn mt) ++ edgeListFrom n (S toIndex) rest
  end.

Definition edgeList (microTasks : list MicroTaskSuggestion) : list (nat * nat) :=
  edgeListFrom (length microTasks) 0 microTasks.

(** The two arrays after the edges [E] have been entered. *)
Definition addEdges (E : list (nat * nat)) (g : Graph) : Graph :=
  foldl (fun g e => (alter (fun l => l ++ [e.2]) e.1 g.1, alter Z.succ e.2 g.2)) g E.

(** Successors of [u], with multiplicity, in insertion order. *)
Definition targets (E : list (nat * nat)) (u : nat) : list nat :=
  omap (fun e => if decide (e.1 = u) then Some e.2 else None) E.

Definition count (l : list nat) (v : nat) : nat := length (filter (fun x => x = v) l).

(** Number of edges into [v]. *)
Definition indegree (E : list (nat * nat)) (v : nat) : nat :=
  length (filter (fun e => e.2 = v) E).

(** Number of edges into [v] whose source is not in [done]. *)
Definition pending (E : list (nat * nat)) (done : list nat) (v : nat) : nat :=
  length (filter (fun e => e.2 = v /\ e.1 ∉ done) E).

(** What holds of the state of the loop each time its condition is tested:
    [result] and [queue] hold distinct positions; [inDegree] counts, for
    every position, the edges coming from positions not yet in [result];
    the positions with count 0 are exactly those in [result] or [queue];
    and [result] lists the source of every edge before its target. *)
Definition loop_invariant (n : nat) (E : list (nat * nat))
    (inDegree : list Z) (queue result : list nat) : Prop :=
  NoDup (result ++ queue)
  /\ (forall x, x ∈ result ++ queue -> (x < n)%nat)
  /\ length inDegree = n
  /\ (forall v, (v < n)%nat -> inDegree !! v = Some (Z.of_nat (pending E result v)))
  /\ (forall v, (v < n)%nat -> (v ∈ result ++ queue <-> pending E result v = 0%nat))
  /\ (forall u v, (u, v) ∈ E -> v ∈ result -> before result u v).

End DependencyGraph.

(** ** Concrete inputs used below *)

(** The offsets of America/New_York around the end of daylight saving time
    in 2024: UTC-4 until 2024-11-03T06:00:00Z (02:00 local wall-clock time),
    UTC-5 afterwards. *)
Definition newYork2024 : TimeZone :=
  {| offset_at_utc := fun t => if t <? 1730613600000 then -4 * msPerHour else -5 * msPerHour;
     offset_at_local := fun l => if l <? 1730599200000 then -4 * msPerHour else -5 * msPerHour |}.

Definition emptyContext : TaskContext := mkContext None None [] [].

(** A pending, standalone task as [create] makes it. *)
Definition plainTask (i ttl : string) (created : Date) (dl : option Date)
    (p : PriorityLevel) : Task :=
  mkTask i created created ttl None ttl None [] dl None None p "User specified"
    pending emptyContext [mkHistoryEntry created act_created "Task created" None None].

(** A task created at [created] and completed (through [complete]) at [at_]. *)
Definition completedTask (i ttl : string) (created at_ : Date) : Task :=
  mkTask i created at_ ttl None ttl None [] None None None medium "Default priority"
    completed emptyContext
    [ mkHistoryEntry created act_created "Task created" None None;
      mkHistoryEntry at_ act_completed "Task marked as complete"
        (Some (VString "pending")) (Some (VString "completed")) ].

(** ** Vocabulary of the statements about the streak *)

(** Lexicographic combination of two comparisons. *)
Definition lexNext (c : comparison) (rest : comparison) : comparison :=
  match c with Eq => rest | _ => c end.

(** Years that [toISOString] writes with four digits. *)
Definition fourDigitYear (t : Z) : Prop := 0 <= YearFromTime t <= 9999.

(** The time stamp [getCompletionDates] reads from a task: that of the first
    [completed] entry of the history of a task whose status is [completed]. *)
Definition completionOf (task : Task) : option Date :=
  match status task with
  | completed => timestamp <$> find ProgressManager.isCompletedEntry (history task)
  | _ => None
  end.

(** ** The hierarchy kept by the store *)

(** The two directions of the parent/child link agree: the [childIds] of
    every stored task list, once each, exactly the ids of the stored tasks
    whose [parentId] is that task's id. *)
Definition linked (tasks : TaskStore.Tasks) : Prop :=
  forall p parent, tasks !! p = Some parent ->
    NoDup (childIds parent)
    /\ forall c, c ∈ childIds parent <->
         exists child, tasks !! c = Some child /\ parentId child = Some p.

(** What [generateId] guarantees of the id it hands to [create]: it is not
    empty, not in use as a key, and not yet referred to as a parent. *)
Definition unused (tasks : TaskStore.Tasks) (newId : string) (input : TaskInput) : Prop :=
  newId <> "" /\ tasks !! newId = None /\ in_parentId input <> Some newId
  /\ map_Forall (fun _ t => parentId t <> Some newId) tasks.

(** Every [create] of the sequence is given an unused id. *)
Fixpoint freshIds (date_differs : Date -> Date -> bool) (tz : TimeZone)
    (tasks : TaskStore.Tasks) (ops : list StoreOp) : Prop :=
  match ops with
  | [] => True
  | op :: rest =>
      match op with
      | OpCreate _ newId input => unused tasks newId input
      | _ => True
      end
      /\ freshIds date_differs tz (applyOp date_differs tz tasks op) rest
  end.

(** Some task of the list was completed on the UTC day number [d]. *)
Definition completedOn (allTasks : list Task) (d : Z) : Prop :=
  exists task ts, task ∈ allTasks /\ completionOf task = Some ts /\ Day ts = d.

(** A task belongs to the UTC day number [d]: it is scheduled for it or was
    completed on it. *)
Definition onDay (d : Z) (task : Task) : Prop :=
  (exists sd, scheduledDate task = Some sd /\ Day sd = d)
  \/ (exists ts, completionOf task = Some ts /\ Day ts = d).

(* ================================================================== *)
(** A decimal digit character. *)
Definition digitChar (c : ascii) : Prop := exists k, 0 <= k <= 9 /\ c = Digits.digit k.

(** The indices a response lists in [dependsOn] are integers that [String]
    writes in plain decimal notation: below 10^21 in magnitude. *)
Definition decimalIndices (response : AtomizationEngine.AtomizationLLMResponse) : Prop :=
  Forall (fun mt => Forall (fun z => Z.abs z < 10 ^ 21)
                      (default [] (AtomizationEngine.llm_dependsOn mt)))
    (AtomizationEngine.llm_microTasks response).

(** ** Vocabulary of the statement about the history *)

(** A patch property that holds a value (not [undefined]). *)
Inductive Assignment : Type :=
| set_title (v : string)
| set_description (v : string)
| set_deadline (v : Date)
| set_priority (v : PriorityLevel)
| set_priorityReason (v : string)
| set_scheduledDate (v : Date)
| set_estimatedMinutes (v : Z)
| set_status (v : TaskStatus).

Definition asProperty (a : Assignment) : UpdateProperty :=
  match a with
  | set_title v => upd_title v
  | set_description v => upd_description (Some v)
  | set_deadline v => upd_deadline (Some v)
  | set_priority v => upd_priority v
  | set_priorityReason v => upd_priorityReason v
  | set_scheduledDate v => upd_scheduledDate (Some v)
  | set_estimatedMinutes v => upd_estimatedMinutes (Some v)
  | set_status v => upd_status v
  end.

(** The entry that records a change of the property [key] from [stored] to
    [value], when the two differ. *)
Definition changeEntry (now : Date) (key : string) (stored : option JSValue)
    (value : JSValue) (differs : bool) : option TaskHistoryEntry :=
  if differs
  then Some (mkHistoryEntry now act_updated (key +:+ " changed") stored (Some value))
  else None.

(** A supplied [Date] object differs from the stored one according to
    [date_differs]; it differs from an absent one. *)
Definition dateDiffers (date_differs : Date -> Date -> bool) (stored : option Date)
    (v : Date) : bool :=
  match stored with
  | Some d => date_differs d v
  | None => true
  end.

(** What the history is to record of one assignment of a patch: nothing when
    the value is the stored one, and otherwise the key, the stored value and
    the new value. *)
Definition recordedChange (date_differs : Date -> Date -> bool) (now : Date) (task : Task)
    (a : Assignment) : option TaskHistoryEntry :=
  match a with
  | set_title v =>
      changeEntry now "title" (Some (VString (title task))) (VString v)
        (bool_decide (title task <> v))
  | set_description v =>
      changeEntry now "description" (VString <$> description task) (VString v)
        (bool_decide (description task <> Some v))
  | set_deadline v =>
      changeEntry now "deadline" (VDate <$> deadline task) (VDate v)
        (dateDiffers date_differs (deadline task) v)
  | set_priority v =>
      changeEntry now "priority" (Some (VString (PriorityLevel_str (priority task))))
        (VString (PriorityLevel_str v)) (bool_decide (priority task <> v))
  | set_priorityReason v =>
      changeEntry now "priorityReason" (Some (VString (priorityReason task))) (VString v)
        (bool_decide (priorityReason task <> v))
  | set_scheduledDate v =>
      changeEntry now "scheduledDate" (VDate <$> scheduledDate task) (VDate v)
        (dateDiffers date_differs (scheduledDate task) v)
  | set_estimatedMinutes v =>
      changeEntry now "estimatedMinutes" (VNumber <$> estimatedMinutes task) (VNumber v)
        (bool_decide (estimatedMinutes task <> Some v))
  | set_status v =>
      changeEntry now "status" (Some (VString (TaskStatus_str (status task))))
        (VString (TaskStatus_str v)) (bool_decide (status task <> v))
  end.

(** ** Vocabulary of the statement about [estimateTime] *)

(** A run of white space. *)
Definition whiteSpace (cs : list ascii) : Prop := Forall (fun c => JS.isSpace c = true) cs.

(** A non-empty run of decimal digits. *)
Definition digitString (ds : list ascii) : Prop :=
  ds <> [] /\ Forall (fun c => Digits.is_digit c = true) ds.

(** The text does not go on with a digit. *)
Definition noDigitAhead (rest : list ascii) : Prop :=
  match rest with
  | [] => True
  | c :: _ => Digits.is_digit c = false
  end.

(** The text, taken after the leading white space, does not start with a
    number: it is empty, or starts with a character that is neither a digit
    nor a sign followed by a digit. *)
Definition noNumberAhead (cs : list ascii) : Prop :=
  match cs with
  | [] => True
  | c :: cs' =>
      JS.isSpace c = false /\ Digits.is_digit c = false
      /\ (c = "-"%char \/ c = "+"%char -> noDigitAhead cs')
  end.

(** The number written by the digits [ds] of value [m] after [sign], which is
    empty, [+] or [-]. *)
Definition signedValue (sign : list ascii) (m : Z) : Z :=
  match sign with
  | ["-"%char] => - m
  | _ => m
  end.

(** The sign and the digits that [parseInt] reads, once the white space is
    skipped. *)
Definition readInt (cs : list ascii) : option Z :=
  match cs with
  | "-"%char :: cs' => Z.opp <$> JS.unsignedInt cs'
  | "+"%char :: cs' => JS.unsignedInt cs'
  | cs' => JS.unsignedInt cs'
  end.

(** ** Vocabulary of the statements about the task views *)

(** A date at least eight days away from both ends of the range of time
    values: moving it by up to a week and to another hour of its day gives a
    date, not an Invalid Date. *)
Definition clearOfLimits (t : Date) : Prop :=
  - maxTime + 8 * msPerDay <= t <= maxTime - 8 * msPerDay.

(** The local calendar day of an instant, in a zone with a fixed offset. *)
Definition localDay (offset : Z) (t : Date) : Z := Day (LocalTime (fixedZone offset) t).

(** The status is ['pending'] or ['in_progress']. *)
Definition openTask (t : Task) : Prop := status t = pending \/ status t = in_progress.

(** * Properties *)
(* ================================================================== *)

(** ** ECMAScript dates: [new Date(d.toISOString())] is [d] *)

Import Digits.

Ltac divmod := Z.div_mod_to_equations; lia.

Lemma DayFromYear_succ y : DayFromYear (y + 1) = DayFromYear y + DaysInYear y.
Proof.
  unfold DayFromYear, DaysInYear.
  repeat match goal with |- context [ (?a =? ?b) ] => destruct (Z.eqb_spec a b) end; simpl; divmod.
Qed.

Lemma DayFromYear_mono y1 y2 : y1 <= y2 -> DayFromYear y1 <= DayFromYear y2.
Proof. unfold DayFromYear. intros. divmod. Qed.

Lemma YearFromDay_spec d :
  DayFromYear (YearFromDay d) <= d < DayFromYear (YearFromDay d + 1).
Proof.
  unfold YearFromDay.
  set (y := 1970 + 400 * d / 146097).
  assert (Hlo : DayFromYear (y - 1) <= d) by (unfold DayFromYear, y; divmod).
  assert (Hhi : d < DayFromYear (y + 1 + 1)) by (unfold DayFromYear, y; divmod).
  destruct (Z.leb_spec (DayFromYear (y + 1)) d); [lia|].
  destruct (Z.leb_spec (DayFromYear y) d); [lia|].
  replace (y - 1 + 1) with y by lia. lia.
Qed.

Lemma time_fields t :
  MakeTime (HourFromTime t) (MinFromTime t) (SecFromTime t) (msFromTime t) = TimeWithinDay t.
Proof.
  unfold MakeTime, HourFromTime, MinFromTime, SecFromTime, msFromTime, TimeWithinDay,
    msPerHour, msPerMinute, msPerSecond, msPerDay.
  divmod.
Qed.


Lemma digit_cases k : 0 <= k <= 9 ->
  k = 0 \/ k = 1 \/ k = 2 \/ k = 3 \/ k = 4 \/ k = 5 \/ k = 6 \/ k = 7 \/ k = 8 \/ k = 9.
Proof. lia. Qed.

Lemma digit_val_digit k : 0 <= k <= 9 -> digit_val (digit k) = Some k.
Proof.
  intros H. destruct (digit_cases k H) as [->|[->|[->|[->|[->|[->|[->|[->|[->| ->]]]]]]]]];
    reflexivity.
Qed.

Lemma length_pad w : forall n, length (pad w n) = w.
Proof.
  induction w as [|w IH]; intros n; simpl; [done|].
  rewrite length_app, IH. simpl. lia.
Qed.

Lemma number_from_app l1 : forall acc l2,
  number_from acc (l1 ++ l2) = a ← number_from acc l1; number_from a l2.
Proof.
  induction l1 as [|c l1 IH]; intros acc l2; simpl; [done|].
  destruct (digit_val c); simpl; [apply IH|done].
Qed.

Lemma number_from_pad w : forall n acc,
  0 <= n < 10 ^ Z.of_nat w ->
  number_from acc (pad w n) = Some (acc * 10 ^ Z.of_nat w + n).
Proof.
  induction w as [|w IH]; intros n acc Hn.
  - simpl in *. f_equal. lia.
  - rewrite Nat2Z.inj_succ, Z.pow_succ_r in * by lia.
    simpl. rewrite number_from_app, IH by divmod. simpl.
    rewrite digit_val_digit by divmod. f_equal. divmod.
Qed.

Lemma field_pad w n rest :
  0 <= n < 10 ^ Z.of_nat w -> field w (pad w n ++ rest) = Some (n, rest).
Proof.
  intros Hn. unfold field.
  rewrite length_app, length_pad.
  destruct (Nat.leb_spec w (w + length rest)); [|lia].
  rewrite take_app_length' by (by rewrite length_pad).
  rewrite drop_app_length' by (by rewrite length_pad).
  unfold number. rewrite number_from_pad by done. simpl. reflexivity.
Qed.

Lemma expect_cons c cs : expect c (c :: cs) = Some cs.
Proof. unfold expect. by rewrite Ascii.eqb_refl. Qed.

Lemma yearField_digit k cs : 0 <= k <= 9 ->
  yearField (digit k :: cs) = field 4 (digit k :: cs).
Proof.
  intros H. destruct (digit_cases k H) as [->|[->|[->|[->|[->|[->|[->|[->|[->| ->]]]]]]]]];
    reflexivity.
Qed.

Lemma yearField_yearChars y rest :
  -999999 <= y <= 999999 -> yearField (yearChars y ++ rest) = Some (y, rest).
Proof.
  intros Hy. unfold yearChars.
  destruct (Z.leb_spec 0 y); destruct (Z.leb_spec y 9999); simpl.
  - change (yearField (pad 4 y ++ rest) = Some (y, rest)).
    rewrite <- (field_pad 4 y rest) by lia.
    simpl. apply yearField_digit. divmod.
  - destruct (Z.ltb_spec y 0); [lia|]. simpl.
    change (field 6 (pad 6 (Z.abs y) ++ rest) = Some (y, rest)).
    rewrite field_pad by lia. f_equal. f_equal. lia.
  - destruct (Z.ltb_spec y 0); [|lia]. simpl.
    change (('(y0, rest0) ← field 6 (pad 6 (Z.abs y) ++ rest);
             if y0 =? 0 then None else Some (- y0, rest0)) = Some (y, rest)).
    rewrite field_pad by lia. simpl.
    destruct (Z.eqb_spec (Z.abs y) 0); [lia|]. f_equal. f_equal. lia.
  - lia.
Qed.

Lemma DayWithinYear_range t :
  0 <= DayWithinYear t < DaysInYear (YearFromTime t).
Proof.
  unfold DayWithinYear, YearFromTime.
  pose proof (YearFromDay_spec (Day t)) as H.
  rewrite DayFromYear_succ in H. lia.
Qed.

Lemma DaysInYear_cases y : DaysInYear y = 365 \/ DaysInYear y = 366.
Proof. unfold DaysInYear. repeat case_match; auto. Qed.

Lemma InLeapYear_spec t : DaysInYear (YearFromTime t) = 365 + InLeapYear t.
Proof.
  unfold InLeapYear, leapOf.
  destruct (DaysInYear_cases (YearFromTime t)) as [-> | ->]; reflexivity.
Qed.

Ltac split_ifs :=
  repeat match goal with
    | |- context [ (?a <? ?b) ] => destruct (Z.ltb_spec a b)
    | |- context [ (?a =? ?b) ] => destruct (Z.eqb_spec a b)
    | |- context [ (?a <=? ?b) ] => destruct (Z.leb_spec a b)
    end.

Lemma monthOfDay_range dwy leap : 0 <= monthOfDay dwy leap <= 11.
Proof. unfold monthOfDay. split_ifs; lia. Qed.

Lemma monthStart_monthOfDay dwy leap :
  0 <= dwy < 365 + leap -> 0 <= leap <= 1 ->
  let m := monthOfDay dwy leap in
  monthStart m leap <= dwy
  /\ (m < 11 -> dwy < monthStart (m + 1) leap)
  /\ dwy - monthStart m leap < 31.
Proof. intros. unfold m, monthOfDay, monthStart. split_ifs; simpl; try lia. Qed.

Lemma YearFromTime_range t : valid t -> -271821 <= YearFromTime t <= 275760.
Proof.
  intros [Hlo Hhi]. unfold YearFromTime.
  pose proof (YearFromDay_spec (Day t)) as [H1 H2].
  assert (Hd : -100000000 <= Day t <= 100000000).
  { unfold Day, msPerDay, maxTime in *. divmod. }
  split.
  - destruct (Z.le_gt_cases (-271821) (YearFromDay (Day t))) as [|Hlt]; [done|].
    pose proof (DayFromYear_mono (YearFromDay (Day t) + 1) (-271821) ltac:(lia)) as Hm.
    assert (DayFromYear (-271821) < -100000000) by (vm_compute; reflexivity). lia.
  - destruct (Z.le_gt_cases (YearFromDay (Day t)) 275760) as [|Hlt]; [done|].
    pose proof (DayFromYear_mono 275761 (YearFromDay (Day t)) ltac:(lia)) as Hm.
    assert (100000000 < DayFromYear 275761) by (vm_compute; reflexivity). lia.
Qed.

Lemma month_cases m : 0 <= m <= 11 ->
  m = 0 \/ m = 1 \/ m = 2 \/ m = 3 \/ m = 4 \/ m = 5 \/ m = 6 \/ m = 7 \/ m = 8 \/ m = 9
  \/ m = 10 \/ m = 11.
Proof. lia. Qed.

Lemma MonthFromTime_range t : 0 <= MonthFromTime t <= 11.
Proof. apply monthOfDay_range. Qed.

Lemma InLeapYear_range t : 0 <= InLeapYear t <= 1.
Proof. unfold InLeapYear, leapOf. case_match; lia. Qed.

Lemma MakeDay_in_year y m d : 0 <= m <= 11 ->
  MakeDay y m d = DayFromYear y + monthStart m (leapOf y) + d - 1.
Proof.
  intros Hm. unfold MakeDay, leapOf.
  rewrite Z.div_small, Z.mod_small, Z.add_0_r by lia. reflexivity.
Qed.

Lemma MakeDay_next_year y d : MakeDay y 12 d = DayFromYear (y + 1) + d - 1.
Proof.
  unfold MakeDay. change (12 / 12) with 1. change (12 mod 12) with 0.
  change (monthStart 0 _) with 0. lia.
Qed.

Lemma DaysInYear_leapOf y : DaysInYear y = 365 + leapOf y.
Proof. unfold leapOf. destruct (DaysInYear_cases y) as [-> | ->]; reflexivity. Qed.

Lemma DaysInMonth_eq y m : 0 <= m <= 11 ->
  DaysInMonth y m
  = (if m =? 11 then 365 + leapOf y else monthStart (m + 1) (leapOf y))
    - monthStart m (leapOf y).
Proof.
  intros Hm. unfold DaysInMonth.
  destruct (Z.eqb_spec m 11) as [->|Hne].
  - change (11 + 1) with 12. rewrite MakeDay_next_year, MakeDay_in_year by lia.
    rewrite DayFromYear_succ, DaysInYear_leapOf. lia.
  - rewrite !MakeDay_in_year by lia. lia.
Qed.

Lemma date_in_month dwy leap :
  0 <= dwy < 365 + leap -> 0 <= leap <= 1 ->
  let m := monthOfDay dwy leap in
  1 <= dwy - monthStart m leap + 1
       <= (if m =? 11 then 365 + leap else monthStart (m + 1) leap) - monthStart m leap.
Proof.
  intros Hd Hl. unfold monthOfDay.
  repeat match goal with
    | |- context [ (dwy <? ?b) ] => destruct (Z.ltb_spec dwy b)
    end; unfold monthStart; simpl; lia.
Qed.

Lemma InLeapYear_leapOf t : InLeapYear t = leapOf (YearFromTime t).
Proof. reflexivity. Qed.

Lemma DateFromTime_range t :
  1 <= DateFromTime t <= DaysInMonth (YearFromTime t) (MonthFromTime t).
Proof.
  pose proof (DayWithinYear_range t) as Hd. rewrite DaysInYear_leapOf in Hd.
  rewrite DaysInMonth_eq by apply MonthFromTime_range.
  unfold DateFromTime, MonthFromTime. rewrite InLeapYear_leapOf.
  apply date_in_month; [done|]. unfold leapOf. case_match; lia.
Qed.

Lemma MakeDay_of_time t :
  MakeDay (YearFromTime t) (MonthFromTime t) (DateFromTime t) = Day t.
Proof.
  rewrite MakeDay_in_year by apply MonthFromTime_range.
  unfold DateFromTime, DayWithinYear. rewrite InLeapYear_leapOf. lia.
Qed.

Lemma time_field_ranges t :
  0 <= HourFromTime t <= 23 /\ 0 <= MinFromTime t <= 59
  /\ 0 <= SecFromTime t <= 59 /\ 0 <= msFromTime t <= 999.
Proof.
  unfold HourFromTime, MinFromTime, SecFromTime, msFromTime, msPerSecond. divmod.
Qed.

Lemma MakeDate_of_time t : MakeDate (Day t) (TimeWithinDay t) = t.
Proof. unfold MakeDate, Day, TimeWithinDay, msPerDay. divmod. Qed.

Lemma andb_intro4 a b c d : a = true -> b = true -> c = true -> d = true ->
  a && b && c && d = true.
Proof. by intros -> -> -> ->. Qed.

Lemma dateChars_app t rest :
  dateChars t ++ rest
  = yearChars (YearFromTime t)
      ++ "-"%char :: pad 2 (MonthFromTime t + 1)
      ++ "-"%char :: pad 2 (DateFromTime t) ++ rest.
Proof.
  unfold dateChars. rewrite <- app_assoc. cbn [app]. by rewrite <- app_assoc.
Qed.

Lemma parseChars_isoChars t : valid t -> parseChars (isoChars t) = Some t.
Proof.
  intros Hv.
  pose proof (YearFromTime_range t Hv) as Hy.
  pose proof (MonthFromTime_range t) as Hm.
  pose proof (DateFromTime_range t) as Hd.
  pose proof (time_field_ranges t) as (Hh & Hmi & Hs & Hms).
  assert (Hd31 : DateFromTime t <= 31).
  { pose proof (DayWithinYear_range t) as Hw. rewrite InLeapYear_spec in Hw.
    pose proof (monthStart_monthOfDay _ _ Hw (InLeapYear_range t)) as (_ & _ & H3).
    unfold DateFromTime, MonthFromTime. lia. }
  unfold parseChars, isoChars. rewrite dateChars_app.
  rewrite yearField_yearChars by lia. cbn [mbind option_bind].
  rewrite expect_cons. cbn [mbind option_bind].
  rewrite (field_pad 2) by (simpl; lia). cbn [mbind option_bind].
  rewrite expect_cons. cbn [mbind option_bind].
  rewrite (field_pad 2) by (simpl; lia). cbn [mbind option_bind].
  replace (MonthFromTime t + 1 - 1) with (MonthFromTime t) by lia.
  rewrite andb_intro4; [|lia..].
  rewrite expect_cons. cbn [mbind option_bind].
  rewrite (field_pad 2) by (simpl; lia). cbn [mbind option_bind].
  rewrite expect_cons. cbn [mbind option_bind].
  rewrite (field_pad 2) by (simpl; lia). cbn [mbind option_bind].
  rewrite expect_cons. cbn [mbind option_bind].
  rewrite (field_pad 2) by (simpl; lia). cbn [mbind option_bind].
  rewrite expect_cons. cbn [mbind option_bind].
  rewrite (field_pad 3 _ ["Z"%char]) by (simpl; lia). cbn [mbind option_bind].
  rewrite expect_cons. cbn [mbind option_bind].
  replace ((HourFromTime t <=? 23) && (MinFromTime t <=? 59) && (SecFromTime t <=? 59))
    with true by (symmetry; rewrite !andb_true_iff; lia).
  rewrite MakeDay_of_time, time_fields, MakeDate_of_time.
  unfold timeClip, validb. destruct Hv.
  replace ((- maxTime <=? t) && (t <=? maxTime)) with true
    by (symmetry; rewrite andb_true_iff; lia).
  reflexivity.
Qed.

Lemma parse_toISOString t : valid t -> parse (toISOString t) = Some t.
Proof.
  intros Hv. unfold parse, toISOString.
  rewrite list_ascii_of_string_of_list_ascii. by apply parseChars_isoChars.
Qed.

(** ** Task store *)

Lemma create_keyed tasks now newId input :
  keyed tasks -> keyed (TaskStore.create tasks now newId input).1.
Proof.
  intros Hk k t. unfold TaskStore.create.
  destruct (if TaskStore.truthy (in_parentId input) then _ else _) as [p|] eqn:Hp; simpl.
  - assert (Hpid : tasks !! id p = Some p).
    { destruct (TaskStore.truthy (in_parentId input)); [|done].
      destruct (in_parentId input) as [pid|]; simpl in Hp; [|done].
      rewrite <- (Hk _ _ Hp) in Hp. exact Hp. }
    rewrite lookup_insert. case_decide as E1; [intros [= <-]; done|].
    rewrite lookup_insert. case_decide as E2; [intros [= <-]; done|].
    apply Hk.
  - rewrite lookup_insert. case_decide; [intros [= <-]; done|]. apply Hk.
Qed.

(** C2.  [update] and [delete] called with [explicit = false] throw, and the
    map they leave behind is the map they were given: no task is modified or
    removed and no history entry is appended. *)
Theorem update_delete_reject_without_explicit :
  forall (date_differs : Date -> Date -> bool) (tasks : TaskStore.Tasks)
         (now : Date) (i : string) (updates : TaskUpdate),
    TaskStore.update date_differs tasks now i updates false
      = (tasks, Throw "Task modifications require explicit user request")
    /\ TaskStore.delete tasks now i false
      = (tasks, Throw "Task deletion requires explicit user request").
Proof. intros. split; reflexivity. Qed.

Lemma parent_lookup tasks (pid : option string) (p : Task) :
  keyed tasks ->
  (if TaskStore.truthy pid then i ← pid; tasks !! i else None) = Some p ->
  tasks !! id p = Some p.
Proof.
  intros Hk Hp. destruct (TaskStore.truthy pid); [|done].
  destruct pid as [i|]; simpl in Hp; [|done].
  by rewrite (Hk _ _ Hp).
Qed.

Lemma foldl_assign_id updates : forall task,
  id (foldl TaskStore.assign task updates) = id task.
Proof.
  induction updates as [|p ps IH]; intros task; [done|].
  simpl. by rewrite IH.
Qed.

Lemma applyOp_keyed date_differs tz tasks op :
  keyed tasks -> keyed (applyOp date_differs tz tasks op).
Proof.
  intros Hk. destruct op as [now newId input|now i updates explicit|now i|now i nd|now i explicit];
    simpl.
  - by apply create_keyed.
  - unfold TaskStore.update. destruct explicit; simpl; [|done].
    destruct (tasks !! i) as [task|] eqn:Hi; simpl; [|done].
    intros k t. rewrite lookup_insert. case_decide; [|by apply Hk].
    intros [= <-]. simpl. subst. rewrite foldl_assign_id. by apply Hk.
  - unfold TaskStore.complete.
    destruct (tasks !! i) as [task|] eqn:Hi; simpl; [|done].
    intros k t. rewrite lookup_insert. case_decide; [|by apply Hk].
    intros [= <-]. simpl. subst. by apply Hk.
  - unfold TaskStore.defer.
    destruct (tasks !! i) as [task|] eqn:Hi; simpl; [|done].
    intros k t. rewrite lookup_insert. case_decide; [|by apply Hk].
    intros [= <-]. simpl. subst. by apply Hk.
  - unfold TaskStore.delete. destruct explicit; simpl; [|done].
    destruct (tasks !! i) as [task|] eqn:Hi; simpl; [|done].
    intros k t. rewrite lookup_delete. case_decide; [done|].
    destruct (if TaskStore.truthy (parentId task) then _ else _) as [p|] eqn:Hp;
      [|by apply Hk].
    rewrite lookup_insert. case_decide; [|by apply Hk].
    by intros [= <-].
Qed.

Lemma applyOp_history date_differs tz tasks op k t :
  keyed tasks -> tasks !! k = Some t -> spares k op ->
  exists t', applyOp date_differs tz tasks op !! k = Some t'
             /\ history t `prefix_of` history t'.
Proof.
  intros Hk Ht Hs.
  destruct op as [now newId input|now i updates explicit|now i|now i nd|now i explicit];
    simpl in *.
  - unfold TaskStore.create.
    destruct (if TaskStore.truthy (in_parentId input) then _ else _) as [p|] eqn:Hp; simpl.
    + apply parent_lookup in Hp; [|done].
      rewrite lookup_insert_ne by done.
      rewrite lookup_insert. case_decide as E.
      * eexists; split; [done|]. simpl. rewrite E, Ht in Hp.
        injection Hp as ->. by apply prefix_app_r.
      * by exists t.
    + rewrite lookup_insert_ne by done. by exists t.
  - unfold TaskStore.update. destruct explicit; simpl; [|by exists t].
    destruct (tasks !! i) as [task|] eqn:Hi; simpl; [|by exists t].
    rewrite lookup_insert. case_decide as E; [|by exists t].
    subst i. rewrite Ht in Hi. injection Hi as <-.
    eexists; split; [done|]. simpl. by apply prefix_app_r.
  - unfold TaskStore.complete.
    destruct (tasks !! i) as [task|] eqn:Hi; simpl; [|by exists t].
    rewrite lookup_insert. case_decide as E; [|by exists t].
    subst i. rewrite Ht in Hi. injection Hi as <-.
    eexists; split; [done|]. simpl. by apply prefix_app_r.
  - unfold TaskStore.defer.
    destruct (tasks !! i) as [task|] eqn:Hi; simpl; [|by exists t].
    rewrite lookup_insert. case_decide as E; [|by exists t].
    subst i. rewrite Ht in Hi. injection Hi as <-.
    eexists; split; [done|]. simpl. by apply prefix_app_r.
  - unfold TaskStore.delete. destruct explicit; simpl; [|by exists t].
    destruct Hs as [Hne|]; [|done].
    destruct (tasks !! i) as [task|] eqn:Hi; simpl; [|by exists t].
    rewrite lookup_delete_ne by done.
    destruct (if TaskStore.truthy (parentId task) then _ else _) as [p|] eqn:Hp;
      [|by exists t].
    apply parent_lookup in Hp; [|done].
    rewrite lookup_insert. case_decide as E; [|by exists t].
    eexists; split; [done|]. simpl. rewrite E, Ht in Hp.
    injection Hp as ->. by apply prefix_app_r.
Qed.

Lemma runOps_history date_differs tz ops : forall tasks k t,
  keyed tasks -> tasks !! k = Some t -> Forall (spares k) ops ->
  exists t', runOps date_differs tz tasks ops !! k = Some t'
             /\ history t `prefix_of` history t'.
Proof.
  induction ops as [|op ops IH]; intros tasks k t Hk Ht Hs.
  - exists t. by split.
  - apply Forall_cons in Hs as [Hop Hs].
    destruct (applyOp_history date_differs tz tasks op k t Hk Ht Hop) as (t1 & H1 & P1).
    destruct (IH (applyOp date_differs tz tasks op) k t1) as (t2 & H2 & P2);
      [by apply applyOp_keyed|done|done|].
    exists t2. split; [done|]. by etrans.
Qed.


(** The entries [update] pushes for a patch of assignments are the changes
    to record, one by one. *)
Lemma historyEntriesFor_recorded date_differs now task (patch : list Assignment) :
  TaskStore.historyEntriesFor date_differs now task (asProperty <$> patch)
  = omap (recordedChange date_differs now task) patch.
Proof.
  unfold TaskStore.historyEntriesFor.
  induction patch as [|a patch IH]; [done|].
  rewrite fmap_cons. cbn [omap list_omap]. rewrite IH. clear IH.
  assert (Ha : match TaskStore.valueOf (asProperty a) with
               | Some value =>
                   if TaskStore.strictNotEqual date_differs
                        (TaskStore.currentOf task (asProperty a)) (Some value)
                   then Some (mkHistoryEntry now act_updated
                                (TaskStore.keyOf (asProperty a) +:+ " changed")
                                (TaskStore.currentOf task (asProperty a)) (Some value))
                   else None
               | None => None
               end = recordedChange date_differs now task a); [|by rewrite Ha].
  destruct a as [v|v|v|v|v|v|v|v]; cbn; unfold changeEntry.
  - destruct (String.eqb_spec (title task) v) as [->|Hne]; cbn.
    + by rewrite bool_decide_eq_false_2 by (intros H; by apply H).
    + by rewrite bool_decide_eq_true_2.
  - destruct (description task) as [d|]; cbn.
    + destruct (String.eqb_spec d v) as [->|Hne]; cbn.
      * by rewrite bool_decide_eq_false_2 by (intros H; by apply H).
      * by rewrite bool_decide_eq_true_2 by congruence.
    + by rewrite bool_decide_eq_true_2.
  - by destruct (deadline task).
  - destruct (priority task), v; reflexivity.
  - destruct (String.eqb_spec (priorityReason task) v) as [->|Hne]; cbn.
    + by rewrite bool_decide_eq_false_2 by (intros H; by apply H).
    + by rewrite bool_decide_eq_true_2.
  - by destruct (scheduledDate task).
  - destruct (estimatedMinutes task) as [m|]; cbn.
    + destruct (Z.eqb_spec m v) as [->|Hne]; cbn.
      * by rewrite bool_decide_eq_false_2 by (intros H; by apply H).
      * by rewrite bool_decide_eq_true_2 by congruence.
    + by rewrite bool_decide_eq_true_2.
  - destruct (status task), v; reflexivity.
Qed.



(** C10.  [create] with a [parentId] that names no stored task returns
    normally: the new task is stored under its id with the dangling
    [parentId] kept, [context.parentContext] and [context.originalGoal] are
    unset, and every task already in the store is still there, unchanged. *)
Theorem create_with_dangling_parent :
  forall (tasks : TaskStore.Tasks) (now : Date) (newId : string)
         (input : TaskInput) (p : string),
    in_parentId input = Some p ->
    tasks !! p = None ->
    tasks !! newId = None ->
    exists task,
      TaskStore.create tasks now newId input = (<[newId := task]> tasks, task)
      /\ TaskStore.get (TaskStore.create tasks now newId input).1 newId = Some task
      /\ parentId task = Some p
      /\ parentContext (context task) = None
      /\ originalGoal (context task) = None
      /\ (forall k t, tasks !! k = Some t ->
            (TaskStore.create tasks now newId input).1 !! k = Some t).
Proof.
  intros tasks now newId input p Hp Hnone Hfresh.
  assert (Hparent :
    (if TaskStore.truthy (in_parentId input)
     then pid ← in_parentId input; tasks !! pid else None) = None).
  { rewrite Hp. destruct (TaskStore.truthy (Some p)); simpl; [exact Hnone|reflexivity]. }
  unfold TaskStore.create, TaskStore.get. rewrite Hparent. simpl.
  eexists. split; [reflexivity|]. simpl.
  rewrite lookup_insert_eq. repeat split; try done.
  intros k t Hk. rewrite lookup_insert_ne; [done|congruence].
Qed.

Lemma create_with_dangling_parent_witness :
  let t0 := mkTask "a" 0 0 "Pay rent" None "Pay rent" None [] None None None
              medium "Default priority" pending (mkContext None None [] [])
              [mkHistoryEntry 0 act_created "Task created" None None] in
  let input := mkTaskInput "Call the bank" None None (Some "gone") None None None None in
  exists task,
    TaskStore.create {[ "a" := t0 ]} 5 "b" input = (<["b" := task]> {[ "a" := t0 ]}, task)
    /\ TaskStore.get (TaskStore.create {[ "a" := t0 ]} 5 "b" input).1 "b" = Some task
    /\ parentId task = Some "gone"
    /\ parentContext (context task) = None
    /\ originalGoal (context task) = None
    /\ (forall k t, ({[ "a" := t0 ]} : TaskStore.Tasks) !! k = Some t ->
          (TaskStore.create {[ "a" := t0 ]} 5 "b" input).1 !! k = Some t).
Proof.
  intros t0 input.
  apply (create_with_dangling_parent {[ "a" := t0 ]} 5 "b" input "gone").
  - reflexivity.
  - vm_compute. reflexivity.
  - vm_compute. reflexivity.
Defined.

(** ** Priority engine *)

Lemma Math_round_quotient (a b : Z) :
  0 < b -> JS.Math_round (inject_Z a / inject_Z b)%Q = (2 * a + b) / (2 * b).
Proof.
  intros Hb. unfold JS.Math_round, Qdiv, Qinv, inject_Z. simpl.
  destruct b as [|p|p]; try lia. simpl.
  unfold Qfloor, Qplus, Qmult. simpl.
  f_equal; lia.
Qed.

Lemma within_24_hours_deadline_factor now task dl :
  deadline task = Some dl -> 0 < dl - now <= 24 * msPerHour ->
  PriorityEngine.calculateDeadlineFactor now task
  = PriorityEngine.mkFactor "deadline" 50 100 "Due within 24 hours".
Proof.
  intros Hdl Hrange. unfold PriorityEngine.calculateDeadlineFactor. rewrite Hdl.
  set (h := (inject_Z (dl - now) / inject_Z (1000 * 60 * 60))%Q).
  assert (Hpos : Qle_bool h 0 = false).
  { apply not_true_iff_false. rewrite Qle_bool_iff. unfold h, Qle, Qdiv, Qmult, Qinv. simpl.
    unfold msPerHour in *. lia. }
  assert (Hday : Qle_bool h PriorityEngine.HOURS_IN_DAY = true).
  { rewrite Qle_bool_iff. unfold h, Qle, Qdiv, Qmult, Qinv, PriorityEngine.HOURS_IN_DAY. simpl.
    unfold msPerHour in *. lia. }
  by rewrite Hpos, Hday.
Qed.

Lemma age_factor_value now task :
  createdAt task <= now ->
  30 <= PriorityEngine.value (PriorityEngine.calculateAgeFactor now task) <= 100.
Proof.
  intros Hage. unfold PriorityEngine.calculateAgeFactor. simpl.
  set (age := now - createdAt task).
  assert (Heq : (30 + inject_Z age / inject_Z (1000 * 60 * 60 * 24) * 10
                 == inject_Z (30 * 86400000 + 10 * age) / inject_Z 86400000)%Q).
  { unfold Qeq, Qdiv, Qmult, Qplus, Qinv, inject_Z. simpl. lia. }
  unfold JS.Math_round. rewrite Heq.
  fold (JS.Math_round (inject_Z (30 * 86400000 + 10 * age) / inject_Z 86400000)%Q).
  rewrite Math_round_quotient by lia.
  assert (30 <= (2 * (30 * 86400000 + 10 * age) + 86400000) / (2 * 86400000))
    by (unfold age; divmod).
  lia.
Qed.

(** Where the defect of C1 does not bite: with a stored priority [high] or
    [medium] and a creation time not in the future, a task due within 24
    hours is classified [high]. *)
Lemma due_within_24_hours_is_high_unless_low now task dl :
  deadline task = Some dl -> 0 < dl - now <= 24 * msPerHour ->
  createdAt task <= now -> priority task <> low ->
  PriorityEngine.level (PriorityEngine.calculatePriority now task) = high.
Proof.
  intros Hdl Hrange Hage Hprio.
  unfold PriorityEngine.calculatePriority.
  rewrite (within_24_hours_deadline_factor now task dl Hdl Hrange).
  pose proof (age_factor_value now task Hage) as Ha.
  cbn [PriorityEngine.level PriorityEngine.value PriorityEngine.weight].
  set (a := PriorityEngine.value (PriorityEngine.calculateAgeFactor now task)) in *.
  assert (Hw : PriorityEngine.weight (PriorityEngine.calculateAgeFactor now task) = 10)
    by reflexivity.
  rewrite Hw.
  assert (Hh : 40 <= PriorityEngine.value (PriorityEngine.calculateHierarchyFactor task)
               /\ PriorityEngine.weight (PriorityEngine.calculateHierarchyFactor task) = 10).
  { unfold PriorityEngine.calculateHierarchyFactor.
    destruct (0 <? length (childIds task))%nat; simpl; [lia|].
    destruct (parentId task) as [[|]|]; simpl; lia. }
  destruct Hh as [Hh1 ->].
  set (hv := PriorityEngine.value (PriorityEngine.calculateHierarchyFactor task)) in *.
  assert (Hp : 50 <= PriorityEngine.value (PriorityEngine.calculateExistingPriorityFactor task)
               /\ PriorityEngine.weight (PriorityEngine.calculateExistingPriorityFactor task) = 30).
  { unfold PriorityEngine.calculateExistingPriorityFactor. simpl.
    destruct (priority task); simpl; try lia. done. }
  destruct Hp as [Hp1 ->].
  set (pv := PriorityEngine.value (PriorityEngine.calculateExistingPriorityFactor task)) in *.
  rewrite Math_round_quotient by lia.
  unfold PriorityEngine.scoreToLevel.
  destruct (Z.leb_spec 70 ((2 * (100 * 50 + pv * 30 + a * 10 + hv * 10) + (50 + 30 + 10 + 10))
                           / (2 * (50 + 30 + 10 + 10)))) as [|Hlt]; [done|].
  exfalso. revert Hlt. divmod.
Qed.

(** C1 (defect in the code).  A standalone task created just now with stored
    priority [low] and a deadline 12 hours ahead scores
    [(100*50 + 20*30 + 30*10 + 40*10) / 100 = 63] and is classified [medium],
    although the reason the engine attaches reads "High: Due within 24
    hours". *)
Theorem low_priority_task_due_in_12_hours_is_medium :
  let now := 1700000000000 in
  let task := plainTask "t1" "Submit tax form" now (Some (now + 12 * msPerHour)) low in
  let result := PriorityEngine.calculatePriority now task in
  PriorityEngine.level result = medium
  /\ PriorityEngine.score result = 63
  /\ PriorityEngine.reason result = "High: Due within 24 hours".
Proof. vm_compute. repeat split; reflexivity. Qed.

(** ** [Array.prototype.sort] with a consistent comparison *)

Section Sort.

Context {A : Type} (compare : A -> A -> Z).

Hypothesis compare_total : forall x y, compare x y <= 0 \/ compare y x <= 0.
Hypothesis compare_trans :
  forall x y z, compare x y <= 0 -> compare y z <= 0 -> compare x z <= 0.

Lemma insertSorted_Permutation x l : JS.insertSorted compare x l ≡ₚ x :: l.
Proof.
  induction l as [|y l IH]; simpl; [done|].
  destruct (compare x y <=? 0); [done|].
  rewrite IH. apply Permutation_swap.
Qed.

Lemma sort_Permutation l : JS.sort compare l ≡ₚ l.
Proof.
  unfold JS.sort. induction l as [|x l IH]; simpl; [done|].
  by rewrite insertSorted_Permutation, IH.
Qed.

Lemma insertSorted_sorted x l :
  StronglySorted (fun a b => compare a b <= 0) l ->
  StronglySorted (fun a b => compare a b <= 0) (JS.insertSorted compare x l).
Proof.
  induction 1 as [|y l Hl IH Hy]; simpl.
  - repeat constructor.
  - destruct (Z.leb_spec (compare x y) 0) as [Hxy|Hxy].
    + constructor; [by constructor|].
      constructor; [done|]. eapply Forall_impl; [exact Hy|].
      intros z Hz. by eapply compare_trans.
    + constructor; [done|].
      rewrite insertSorted_Permutation. constructor; [|done].
      destruct (compare_total x y) as [H|H]; [lia|done].
Qed.

Lemma sort_sorted l : StronglySorted (fun a b => compare a b <= 0) (JS.sort compare l).
Proof.
  unfold JS.sort. induction l as [|x l IH]; simpl; [constructor|].
  by apply insertSorted_sorted.
Qed.

(** Stability: elements that the comparison ties with one another keep
    their relative order. *)
Lemma insertSorted_filter (P : A -> Prop) `{!forall x, Decision (P x)} x l :
  (forall a b, P a -> P b -> compare a b <= 0) ->
  filter P (JS.insertSorted compare x l) = filter P (x :: l).
Proof.
  intros Htie. induction l as [|y l IH]; simpl; [done|].
  destruct (Z.leb_spec (compare x y) 0) as [Hxy|Hxy]; [done|].
  rewrite !filter_cons in *. simpl in IH. rewrite IH.
  destruct (decide (P x)) as [Hx|Hx], (decide (P y)) as [Hy|Hy]; try done.
  pose proof (Htie x y Hx Hy). lia.
Qed.

Lemma sort_stable (P : A -> Prop) `{!forall x, Decision (P x)} l :
  (forall a b, P a -> P b -> compare a b <= 0) ->
  filter P (JS.sort compare l) = filter P l.
Proof.
  intros Htie. unfold JS.sort. induction l as [|x l IH]; simpl; [done|].
  rewrite insertSorted_filter by done. rewrite !filter_cons. by rewrite IH.
Qed.

End Sort.

Lemma compareTasks_total a b :
  PriorityEngine.compareTasks a b <= 0 \/ PriorityEngine.compareTasks b a <= 0.
Proof.
  unfold PriorityEngine.compareTasks.
  destruct (priority a), (priority b), (deadline a), (deadline b); simpl; lia.
Qed.

Lemma compareTasks_trans a b c :
  PriorityEngine.compareTasks a b <= 0 -> PriorityEngine.compareTasks b c <= 0 ->
  PriorityEngine.compareTasks a c <= 0.
Proof.
  unfold PriorityEngine.compareTasks.
  destruct (priority a), (priority b), (priority c),
    (deadline a), (deadline b), (deadline c); simpl; lia.
Qed.

(** What [prioritizeTasks] does establish: the result is a permutation of
    the input in which no task is followed by one the comparison puts
    strictly before it; in particular [high] tasks come before [medium]
    ones, these before [low] ones, and within a level tasks with a deadline
    come first, by increasing deadline. *)
Lemma prioritizeTasks_sorted tasks :
  PriorityEngine.prioritizeTasks tasks ≡ₚ tasks
  /\ StronglySorted (fun a b => PriorityEngine.compareTasks a b <= 0)
       (PriorityEngine.prioritizeTasks tasks).
Proof.
  split; [apply sort_Permutation|].
  apply sort_sorted; [apply compareTasks_total|apply compareTasks_trans].
Qed.

Lemma compareTasks_order a b :
  PriorityEngine.compareTasks a b <= 0 ->
  PriorityEngine.priorityOrder (priority a) <= PriorityEngine.priorityOrder (priority b)
  /\ (priority a = priority b ->
      match deadline a, deadline b with
      | Some da, Some db => da <= db
      | Some _, None => True
      | None, Some _ => False
      | None, None => createdAt a <= createdAt b
      end).
Proof.
  unfold PriorityEngine.compareTasks.
  destruct (priority a), (priority b), (deadline a), (deadline b); simpl;
    intros; split; try lia; try done; intros; lia.
Qed.

(** C4 (defect in the code).  Two [high] tasks with the same deadline keep
    their input order: the comparison returns the deadline difference, 0,
    and never reaches the creation dates, so the task created later stays in
    front of the older one. *)
Theorem equal_deadlines_ignore_creation_time :
  let newer := plainTask "newer" "Book venue" 2000 (Some 5000) high in
  let older := plainTask "older" "Send invitations" 1000 (Some 5000) high in
  PriorityEngine.compareTasks newer older = 0
  /\ PriorityEngine.prioritizeTasks [newer; older] = [newer; older]
  /\ createdAt older < createdAt newer.
Proof. vm_compute. repeat split; reflexivity. Qed.

(** ** Progress manager *)

(** C9 (defect in the code).  Today is 2024-11-04 (the clock reads
    2024-11-04T15:00:00Z) and tasks were completed on 2024-11-02, 2024-11-03
    and 2024-11-04.  With the host in America/New_York the loop steps from
    "2024-11-04" to "2024-11-02": local midnight arithmetic ([getDate] /
    [setDate]) crosses the end of daylight saving time while the day strings
    are UTC days, so 2024-11-03 is skipped and the streak is 2.  In a zone
    with a fixed offset the same data give 3. *)
Theorem streak_skips_a_day_at_end_of_dst :
  let now := 1730732400000 in
  let store : TaskStore.Tasks :=
    {[ "a" := completedTask "a" "Draft agenda" 0 (now - 2 * msPerDay);
       "b" := completedTask "b" "Review notes" 0 (now - msPerDay);
       "c" := completedTask "c" "Send minutes" 0 (now - msPerHour) ]} in
  ProgressManager.formatDate now = "2024-11-04"
  /\ ProgressManager.getCompletionDates
       [ completedTask "a" "Draft agenda" 0 (now - 2 * msPerDay);
         completedTask "b" "Review notes" 0 (now - msPerDay);
         completedTask "c" "Send minutes" 0 (now - msPerHour) ]
     = ["2024-11-02"; "2024-11-03"; "2024-11-04"]
  /\ ProgressManager.calculateStreak newYork2024 now store = Ok 2
  /\ ProgressManager.calculateStreak (fixedZone 0) now store = Ok 3
  /\ ProgressManager.calculateStreak (fixedZone (-5 * msPerHour)) now store = Ok 3.
Proof. vm_compute. repeat split; reflexivity. Qed.

(** ** Progress manager: the streak in a time zone with a fixed offset *)

Lemma digit_not_T k : 0 <= k <= 9 -> Ascii.eqb (digit k) "T" = false.
Proof.
  intros H. destruct (digit_cases k H) as [->|[->|[->|[->|[->|[->|[->|[->|[->| ->]]]]]]]]];
    reflexivity.
Qed.

Lemma beforeT_cons c l :
  Ascii.eqb c "T" = false ->
  ProgressManager.beforeT (c :: l) = c :: ProgressManager.beforeT l.
Proof. intros H. simpl. by rewrite H. Qed.

Lemma beforeT_T l : ProgressManager.beforeT ("T"%char :: l) = [].
Proof. reflexivity. Qed.

Lemma beforeT_pad w : forall n rest,
  ProgressManager.beforeT (pad w n ++ rest) = pad w n ++ ProgressManager.beforeT rest.
Proof.
  induction w as [|w IH]; intros n rest; [reflexivity|].
  simpl. rewrite <- !app_assoc, IH. cbn [app].
  rewrite beforeT_cons by (apply digit_not_T; divmod). reflexivity.
Qed.

Lemma beforeT_yearChars y rest :
  ProgressManager.beforeT (yearChars y ++ rest) = yearChars y ++ ProgressManager.beforeT rest.
Proof.
  unfold yearChars. destruct ((0 <=? y) && (y <=? 9999)).
  - apply beforeT_pad.
  - destruct (y <? 0); cbn [app]; by rewrite beforeT_cons, beforeT_pad.
Qed.

Lemma formatDate_dateChars t :
  ProgressManager.formatDate t = string_of_list_ascii (dateChars t).
Proof.
  unfold ProgressManager.formatDate, isoChars. f_equal.
  rewrite dateChars_app, beforeT_yearChars.
  rewrite beforeT_cons, beforeT_pad by done.
  rewrite beforeT_cons, beforeT_pad by done.
  rewrite beforeT_T. reflexivity.
Qed.

(** The date depends on the day number only. *)
Lemma dateChars_Day t1 t2 : Day t1 = Day t2 -> dateChars t1 = dateChars t2.
Proof.
  intros H. unfold dateChars, DateFromTime, MonthFromTime, InLeapYear, DayWithinYear,
    YearFromTime. by rewrite H.
Qed.

(** [new Date("YYYY-MM-DD")] is midnight UTC of that day. *)
Lemma parseChars_dateChars t :
  valid t -> parseChars (dateChars t) = Some (Day t * msPerDay).
Proof.
  intros Hv.
  pose proof (YearFromTime_range t Hv) as Hy.
  pose proof (MonthFromTime_range t) as Hm.
  pose proof (DateFromTime_range t) as Hd.
  assert (Hd31 : DateFromTime t <= 31).
  { pose proof (DayWithinYear_range t) as Hw. rewrite InLeapYear_spec in Hw.
    pose proof (monthStart_monthOfDay _ _ Hw (InLeapYear_range t)) as (_ & _ & H3).
    unfold DateFromTime, MonthFromTime. lia. }
  unfold parseChars. rewrite <- (app_nil_r (dateChars t)), dateChars_app.
  rewrite yearField_yearChars by lia. cbn [mbind option_bind].
  rewrite expect_cons. cbn [mbind option_bind].
  rewrite (field_pad 2) by (simpl; lia). cbn [mbind option_bind].
  rewrite expect_cons. cbn [mbind option_bind].
  rewrite (field_pad 2) by (simpl; lia). cbn [mbind option_bind].
  replace (MonthFromTime t + 1 - 1) with (MonthFromTime t) by lia.
  rewrite andb_intro4; [|lia..].
  rewrite MakeDay_of_time. unfold MakeDate, timeClip, validb.
  destruct Hv as [Hlo Hhi].
  replace ((- maxTime <=? Day t * msPerDay + 0) && (Day t * msPerDay + 0 <=? maxTime))
    with true.
  - f_equal. lia.
  - symmetry. rewrite andb_true_iff. unfold Day, msPerDay, maxTime in *. divmod.
Qed.

Lemma parse_formatDate t :
  valid t -> parse (ProgressManager.formatDate t) = Some (Day t * msPerDay).
Proof.
  intros Hv. unfold parse. rewrite formatDate_dateChars.
  rewrite list_ascii_of_string_of_list_ascii. by apply parseChars_dateChars.
Qed.

(** Distinct days have distinct date strings. *)
Lemma formatDate_inj t1 t2 :
  valid t1 -> valid t2 ->
  ProgressManager.formatDate t1 = ProgressManager.formatDate t2 -> Day t1 = Day t2.
Proof.
  intros H1 H2 Heq. pose proof (parse_formatDate t1 H1) as P1.
  rewrite Heq, (parse_formatDate t2 H2) in P1. injection P1. unfold msPerDay. lia.
Qed.

(** In a fixed-offset zone [setDate(getDate() - 1)] goes back 24 hours. *)
Lemma setDate_previous offset t :
  setDate (fixedZone offset) t (getDate (fixedZone offset) t - 1) = t - msPerDay.
Proof.
  unfold setDate, getDate, LocalTime, UTC, fixedZone. simpl.
  set (l := t + offset).
  rewrite MakeDay_in_year by apply MonthFromTime_range.
  unfold DateFromTime, DayWithinYear. rewrite InLeapYear_leapOf.
  unfold MakeDate.
  pose proof (MakeDate_of_time l) as H. unfold MakeDate in H. unfold l in *. lia.
Qed.

Lemma Day_previous t : Day (t - msPerDay) = Day t - 1.
Proof. unfold Day, msPerDay. divmod. Qed.

Lemma Day_midnight d : Day (d * msPerDay) = d.
Proof. unfold Day, msPerDay. divmod. Qed.

(** *** Date strings of four-digit years are ordered like the days *)

Lemma compare_digit a b : 0 <= a <= 9 -> 0 <= b <= 9 ->
  Ascii.compare (digit a) (digit b) = (a ?= b).
Proof.
  intros Ha Hb.
  destruct (digit_cases a Ha) as [->|[->|[->|[->|[->|[->|[->|[->|[->| ->]]]]]]]]];
  destruct (digit_cases b Hb) as [->|[->|[->|[->|[->|[->|[->|[->|[->| ->]]]]]]]]];
    reflexivity.
Qed.

Lemma compare_pad w : forall a b r1 r2,
  0 <= a < 10 ^ Z.of_nat w -> 0 <= b < 10 ^ Z.of_nat w ->
  String.compare (string_of_list_ascii (pad w a ++ r1)) (string_of_list_ascii (pad w b ++ r2))
  = lexNext (a ?= b) (String.compare (string_of_list_ascii r1) (string_of_list_ascii r2)).
Proof.
  induction w as [|w IH]; intros a b r1 r2 Ha Hb.
  - simpl in *. assert (a = 0) by lia. assert (b = 0) by lia. by subst.
  - rewrite Nat2Z.inj_succ, Z.pow_succ_r in * by lia.
    simpl. rewrite <- !app_assoc. cbn [app].
    rewrite IH by divmod. simpl.
    rewrite compare_digit by divmod.
    destruct (Z.compare_spec (a / 10) (b / 10)) as [Hq|Hq|Hq]; simpl.
    + destruct (Z.compare_spec (a mod 10) (b mod 10)) as [Hr|Hr|Hr];
        destruct (Z.compare_spec a b) as [Hab|Hab|Hab]; simpl; try reflexivity;
        exfalso; revert Hq Hr Hab; divmod.
    + destruct (Z.compare_spec a b) as [Hab|Hab|Hab]; simpl; try reflexivity;
        exfalso; revert Hq Hab; divmod.
    + destruct (Z.compare_spec a b) as [Hab|Hab|Hab]; simpl; try reflexivity;
        exfalso; revert Hq Hab; divmod.
Qed.

Lemma YearFromDay_mono d1 d2 : d1 <= d2 -> YearFromDay d1 <= YearFromDay d2.
Proof.
  intros Hle. pose proof (YearFromDay_spec d1) as [H1 _].
  pose proof (YearFromDay_spec d2) as [_ H2].
  destruct (Z.le_gt_cases (YearFromDay d1) (YearFromDay d2)) as [|Hgt]; [done|].
  pose proof (DayFromYear_mono (YearFromDay d2 + 1) (YearFromDay d1) ltac:(lia)). lia.
Qed.

Lemma monthOfDay_mono w1 w2 leap :
  w1 <= w2 -> monthOfDay w1 leap <= monthOfDay w2 leap.
Proof. intros H. unfold monthOfDay. split_ifs; lia. Qed.

(** The calendar date of an earlier day is lexicographically smaller. *)
Lemma civil_mono t1 t2 :
  Day t1 < Day t2 ->
  YearFromTime t1 < YearFromTime t2
  \/ (YearFromTime t1 = YearFromTime t2
      /\ (MonthFromTime t1 < MonthFromTime t2
          \/ (MonthFromTime t1 = MonthFromTime t2 /\ DateFromTime t1 < DateFromTime t2))).
Proof.
  intros Hlt.
  pose proof (YearFromDay_mono (Day t1) (Day t2) ltac:(lia)) as Hy.
  fold (YearFromTime t1) (YearFromTime t2) in Hy.
  destruct (Z.eq_dec (YearFromTime t1) (YearFromTime t2)) as [Heq|Hne]; [right|left; lia].
  split; [done|].
  assert (Hw : DayWithinYear t1 < DayWithinYear t2)
    by (unfold DayWithinYear; rewrite Heq; lia).
  assert (Hl : InLeapYear t1 = InLeapYear t2) by (unfold InLeapYear; by rewrite Heq).
  pose proof (monthOfDay_mono (DayWithinYear t1) (DayWithinYear t2) (InLeapYear t1)
                ltac:(lia)) as Hm.
  unfold MonthFromTime, DateFromTime. rewrite <- !Hl.
  destruct (Z.eq_dec (monthOfDay (DayWithinYear t1) (InLeapYear t1))
                     (monthOfDay (DayWithinYear t2) (InLeapYear t1))) as [Hmeq|Hmne].
  - right. split; [done|]. unfold MonthFromTime. rewrite <- Hl, Hmeq. lia.
  - left. lia.
Qed.

Lemma compare_formatDate t1 t2 :
  fourDigitYear t1 -> fourDigitYear t2 -> Day t1 < Day t2 ->
  String.compare (ProgressManager.formatDate t1) (ProgressManager.formatDate t2) = Lt.
Proof.
  intros Hy1 Hy2 Hlt. unfold fourDigitYear in *.
  rewrite !formatDate_dateChars.
  rewrite <- (app_nil_r (dateChars t1)), <- (app_nil_r (dateChars t2)), !dateChars_app.
  unfold yearChars.
  replace ((0 <=? YearFromTime t1) && (YearFromTime t1 <=? 9999)) with true
    by (symmetry; rewrite andb_true_iff; lia).
  replace ((0 <=? YearFromTime t2) && (YearFromTime t2 <=? 9999)) with true
    by (symmetry; rewrite andb_true_iff; lia).
  pose proof (MonthFromTime_range t1). pose proof (MonthFromTime_range t2).
  pose proof (DateFromTime_range t1) as [Hd1 _].
  pose proof (DateFromTime_range t2) as [Hd2 _].
  assert (Hd31 : forall t, DateFromTime t <= 31).
  { intros t. pose proof (DayWithinYear_range t) as Hw. rewrite InLeapYear_spec in Hw.
    pose proof (monthStart_monthOfDay _ _ Hw (InLeapYear_range t)) as (_ & _ & H3).
    unfold DateFromTime, MonthFromTime. lia. }
  pose proof (Hd31 t1). pose proof (Hd31 t2).
  rewrite (compare_pad 4) by (simpl; lia).
  cbn [string_of_list_ascii String.compare]. change (Ascii.compare "-" "-") with Eq. cbv iota.
  rewrite (compare_pad 2) by (simpl; lia).
  cbn [string_of_list_ascii String.compare]. change (Ascii.compare "-" "-") with Eq. cbv iota.
  rewrite (compare_pad 2) by (simpl; lia).
  destruct (civil_mono t1 t2 Hlt) as [Hy|[Hy [Hm|[Hm Hd]]]].
  - by rewrite (proj2 (Z.compare_lt_iff _ _) Hy).
  - rewrite Hy, Z.compare_refl. simpl.
    assert (Hm' : MonthFromTime t1 + 1 < MonthFromTime t2 + 1) by lia.
    by rewrite (proj2 (Z.compare_lt_iff _ _) Hm').
  - rewrite Hy, Hm, !Z.compare_refl. simpl.
    by rewrite (proj2 (Z.compare_lt_iff _ _) Hd).
Qed.

(** *** The set of completion dates *)

Lemma elem_of_setAdd dates d s :
  s ∈ ProgressManager.setAdd dates d <-> s ∈ dates \/ s = d.
Proof.
  unfold ProgressManager.setAdd.
  destruct (existsb (String.eqb d) dates) eqn:Hex.
  - split; [by left|]. intros [?| ->]; [done|].
    apply existsb_exists in Hex as (x & Hin & Heq%String.eqb_eq). subst.
    by apply list_elem_of_In.
  - rewrite elem_of_app, list_elem_of_singleton. done.
Qed.

Lemma NoDup_setAdd dates d : NoDup dates -> NoDup (ProgressManager.setAdd dates d).
Proof.
  intros Hnd. unfold ProgressManager.setAdd.
  destruct (existsb (String.eqb d) dates) eqn:Hex; [done|].
  apply NoDup_app. split_and!; [done| |apply NoDup_singleton].
  intros x Hx ->%list_elem_of_singleton.
  assert (existsb (String.eqb d) dates = true); [|congruence].
  apply existsb_exists. exists d. split; [by apply list_elem_of_In|apply String.eqb_refl].
Qed.

Lemma getCompletionDates_spec allTasks :
  NoDup (ProgressManager.getCompletionDates allTasks)
  /\ forall s, s ∈ ProgressManager.getCompletionDates allTasks <->
       exists task ts, task ∈ allTasks /\ completionOf task = Some ts
                       /\ s = ProgressManager.formatDate ts.
Proof.
  unfold ProgressManager.getCompletionDates.
  set (step := fun (dates : list string) (task : Task) => _).
  assert (Hgen : forall tasks acc, NoDup acc ->
            NoDup (foldl step acc tasks)
            /\ forall s, s ∈ foldl step acc tasks <->
                 s ∈ acc \/ exists task ts, task ∈ tasks /\ completionOf task = Some ts
                                            /\ s = ProgressManager.formatDate ts).
  { induction tasks as [|task tasks IH]; intros acc Hacc; simpl.
    - split; [done|]. intros s. split; [by left|].
      intros [?|(task & ts & Hin%elem_of_nil & _)]; done.
    - assert (Hstep : NoDup (step acc task)
                /\ forall s, s ∈ step acc task <->
                     s ∈ acc \/ exists ts, completionOf task = Some ts
                                           /\ s = ProgressManager.formatDate ts).
      { unfold step, completionOf.
        destruct (status task);
          try (split; [done|]; intros s; split; [by left|]; by intros [?|(ts & ? & _)]).
        destruct (find ProgressManager.isCompletedEntry (history task)) as [e|]; simpl.
        - split; [by apply NoDup_setAdd|]. intros s. rewrite elem_of_setAdd. split.
          + intros [?| ->]; [by left|right; eauto].
          + intros [?|(ts & [= <-] & ->)]; [by left|by right].
        - split; [done|]. intros s. split; [by left|]. by intros [?|(ts & ? & _)]. }
      destruct Hstep as [Hnd Hmem].
      destruct (IH (step acc task) Hnd) as [Hnd' Hmem'].
      split; [done|]. intros s. rewrite Hmem', Hmem. split.
      + intros [[?|(ts & Hc & ->)]|(task' & ts & Hin & Hc & ->)].
        * by left.
        * right. exists task, ts. split_and!; [by left|done|done].
        * right. exists task', ts. split_and!; [by right|done|done].
      + intros [?|(task' & ts & Hin & Hc & ->)]; [by left; left|].
        apply elem_of_cons in Hin as [->|Hin].
        * left. right. eauto.
        * right. eauto. }
  destruct (Hgen allTasks [] (NoDup_nil_2)) as [Hnd Hmem].
  split; [done|]. intros s. rewrite Hmem. split.
  - by intros [?%elem_of_nil|?].
  - by right.
Qed.

(** *** [localeCompare] as a total order *)

Lemma ascii_compare_N a b : Ascii.compare a b = (N_of_ascii a ?= N_of_ascii b)%N.
Proof. reflexivity. Qed.

Lemma string_compare_le_trans : forall a b c,
  String.compare a b <> Gt -> String.compare b c <> Gt -> String.compare a c <> Gt.
Proof.
  induction a as [|x a IH]; intros [|y b] [|z c]; simpl; try done.
  rewrite !ascii_compare_N.
  destruct (N.compare_spec (N_of_ascii x) (N_of_ascii y)) as [Hxy|Hxy|Hxy];
    destruct (N.compare_spec (N_of_ascii y) (N_of_ascii z)) as [Hyz|Hyz|Hyz];
    destruct (N.compare_spec (N_of_ascii x) (N_of_ascii z)) as [Hxz|Hxz|Hxz];
    try done; try lia.
  apply IH.
Qed.

Lemma descending_total a b :
  JS.localeCompare b a <= 0 \/ JS.localeCompare a b <= 0.
Proof.
  unfold JS.localeCompare. rewrite (String.compare_antisym a b).
  destruct (String.compare b a); simpl; lia.
Qed.

Lemma localeCompare_le a b : JS.localeCompare a b <= 0 <-> String.compare a b <> Gt.
Proof. unfold JS.localeCompare. destruct (String.compare a b); split; (done || lia). Qed.

Lemma descending_trans a b c :
  JS.localeCompare b a <= 0 -> JS.localeCompare c b <= 0 -> JS.localeCompare c a <= 0.
Proof.
  rewrite !localeCompare_le. intros H1 H2. by eapply string_compare_le_trans.
Qed.

Lemma descending_antisym a b :
  JS.localeCompare b a <= 0 -> JS.localeCompare a b <= 0 -> a = b.
Proof.
  rewrite !localeCompare_le, (String.compare_antisym a b).
  destruct (String.compare b a) eqn:Hc; simpl; try done.
  intros _ _. symmetry. by apply String.compare_eq_iff.
Qed.

(** *** The streak in a zone without clock changes *)

Lemma fourDigitYear_valid t : fourDigitYear t -> valid t.
Proof.
  unfold fourDigitYear, YearFromTime, valid, maxTime. intros Hy.
  pose proof (YearFromDay_spec (Day t)) as [Hlo Hhi].
  assert (H0 : DayFromYear 0 <= DayFromYear (YearFromDay (Day t)))
    by (apply DayFromYear_mono; lia).
  assert (H1 : DayFromYear (YearFromDay (Day t) + 1) <= DayFromYear 10000)
    by (apply DayFromYear_mono; lia).
  change (DayFromYear 0) with (-719528) in H0.
  change (DayFromYear 10000) with 2932897 in H1.
  unfold Day, msPerDay in *. divmod.
Qed.

Lemma fourDigitYear_between t1 t t2 :
  fourDigitYear t1 -> fourDigitYear t2 -> Day t1 <= Day t <= Day t2 -> fourDigitYear t.
Proof.
  unfold fourDigitYear, YearFromTime. intros H1 H2 [Hlo Hhi].
  pose proof (YearFromDay_mono _ _ Hlo). pose proof (YearFromDay_mono _ _ Hhi). lia.
Qed.

Lemma formatDate_Day t1 t2 :
  Day t1 = Day t2 -> ProgressManager.formatDate t1 = ProgressManager.formatDate t2.
Proof. intros H. rewrite !formatDate_dateChars. f_equal. by apply dateChars_Day. Qed.

Lemma formatDate_lt t1 t2 :
  fourDigitYear t1 -> fourDigitYear t2 -> Day t1 < Day t2 ->
  ProgressManager.formatDate t1 <> ProgressManager.formatDate t2.
Proof.
  intros H1 H2 Hlt Heq. pose proof (compare_formatDate _ _ H1 H2 Hlt) as Hc.
  rewrite Heq in Hc.
  pose proof (String.compare_antisym (ProgressManager.formatDate t2)
                (ProgressManager.formatDate t2)) as Hanti.
  rewrite Hc in Hanti. done.
Qed.

Lemma descending_formatDate t1 t2 :
  fourDigitYear t1 -> fourDigitYear t2 -> Day t1 < Day t2 ->
  JS.localeCompare (ProgressManager.formatDate t1) (ProgressManager.formatDate t2) <= 0.
Proof.
  intros H1 H2 Hlt. unfold JS.localeCompare.
  by rewrite (compare_formatDate _ _ H1 H2 Hlt).
Qed.

(** One turn of the loop on the expected date: the streak grows and the
    expected date moves to the previous day. *)
Lemma countStreak_hit offset t rest streak :
  valid t ->
  ProgressManager.countStreak (fixedZone offset)
    (ProgressManager.formatDate t :: rest) streak (ProgressManager.formatDate t)
  = ProgressManager.countStreak (fixedZone offset) rest (streak + 1)
      (ProgressManager.formatDate (t - msPerDay)).
Proof.
  intros Hv. cbn [ProgressManager.countStreak].
  rewrite String.eqb_refl, (parse_formatDate _ Hv). cbv zeta.
  rewrite setDate_previous. f_equal. apply formatDate_Day.
  rewrite !Day_previous, Day_midnight. done.
Qed.

Lemma sorted_completion_dates (now : Date) allTasks :
  fourDigitYear (now - 2 * msPerDay) -> fourDigitYear now ->
  (forall task ts, task ∈ allTasks -> completionOf task = Some ts ->
     Day now - 2 <= Day ts <= Day now) ->
  (forall k, 0 <= k <= 2 ->
     exists task ts, task ∈ allTasks /\ completionOf task = Some ts /\ Day ts = Day now - k) ->
  JS.sort (fun a b => JS.localeCompare b a) (ProgressManager.getCompletionDates allTasks)
  = [ProgressManager.formatDate now;
     ProgressManager.formatDate (now - msPerDay);
     ProgressManager.formatDate (now - 2 * msPerDay)].
Proof.
  intros Hy2 Hy0 Hall Hsome.
  assert (Hd1 : Day (now - msPerDay) = Day now - 1) by apply Day_previous.
  assert (Hd2 : Day (now - 2 * msPerDay) = Day now - 2).
  { replace (now - 2 * msPerDay) with (now - msPerDay - msPerDay) by lia.
    rewrite !Day_previous. lia. }
  assert (Hy1 : fourDigitYear (now - msPerDay))
    by (apply (fourDigitYear_between _ _ _ Hy2 Hy0); lia).
  set (a := ProgressManager.formatDate now).
  set (b := ProgressManager.formatDate (now - msPerDay)).
  set (c := ProgressManager.formatDate (now - 2 * msPerDay)).
  set (cmp := fun x y : string => JS.localeCompare y x).
  destruct (getCompletionDates_spec allTasks) as [Hnd Hmem].
  assert (Hba : JS.localeCompare b a <= 0) by (apply descending_formatDate; [done..|lia]).
  assert (Hcb : JS.localeCompare c b <= 0) by (apply descending_formatDate; [done..|lia]).
  assert (Hca : JS.localeCompare c a <= 0) by (apply descending_formatDate; [done..|lia]).
  assert (Hab : a <> b) by (apply not_eq_sym, formatDate_lt; [done..|lia]).
  assert (Hbc : b <> c) by (apply not_eq_sym, formatDate_lt; [done..|lia]).
  assert (Hac : a <> c) by (apply not_eq_sym, formatDate_lt; [done..|lia]).
  assert (Hperm : JS.sort cmp (ProgressManager.getCompletionDates allTasks) ≡ₚ [a; b; c]).
  { rewrite sort_Permutation. apply NoDup_Permutation; [done| |].
    - rewrite !NoDup_cons, !elem_of_cons, !elem_of_nil.
      split_and!; [intuition congruence..|apply NoDup_nil_2].
    - intros s. rewrite Hmem. split.
      + intros (task & ts & Hin & Hc & ->).
        specialize (Hall _ _ Hin Hc).
        assert (Hcase : Day ts = Day now \/ Day ts = Day (now - msPerDay)
                        \/ Day ts = Day (now - 2 * msPerDay)) by lia.
        destruct Hcase as [H|[H|H]]; rewrite (formatDate_Day _ _ H), !elem_of_cons; auto.
      + intros Hs.
        assert (Hk : exists k, 0 <= k <= 2 /\ forall ts, Day ts = Day now - k ->
                       s = ProgressManager.formatDate ts).
        { apply elem_of_cons in Hs as [->|Hs]; [|apply elem_of_cons in Hs as [->|Hs]].
          - exists 0. split; [lia|]. intros ts H. apply formatDate_Day. lia.
          - exists 1. split; [lia|]. intros ts H. apply formatDate_Day. lia.
          - apply list_elem_of_singleton in Hs as ->.
            exists 2. split; [lia|]. intros ts H. apply formatDate_Day. lia. }
        destruct Hk as (k & Hk & Hfmt).
        destruct (Hsome k Hk) as (task & ts & Hin & Hc & Hday).
        exists task, ts. split_and!; [done..|by apply Hfmt]. }
  pose proof (sort_sorted cmp (fun x y => descending_total x y)
                (fun x y z => descending_trans x y z)
                (ProgressManager.getCompletionDates allTasks)) as Hsorted.
  eapply (StronglySorted_unique_strong (fun x y : string => cmp x y <= 0));
    [|exact Hsorted| |exact Hperm].
  - intros x y _ _ Hxy Hyx. by apply descending_antisym.
  - repeat constructor; done.
Qed.

(** In a zone whose offset never changes, completions on each of the three
    days ending today, and on no other day, give a streak of 3. *)
Lemma streak_of_three_days_in_fixed_zone offset (now : Date) allTasks :
  fourDigitYear (now - 2 * msPerDay) -> fourDigitYear now ->
  (forall task ts, task ∈ allTasks -> completionOf task = Some ts ->
     Day now - 2 <= Day ts <= Day now) ->
  (forall k, 0 <= k <= 2 ->
     exists task ts, task ∈ allTasks /\ completionOf task = Some ts /\ Day ts = Day now - k) ->
  ProgressManager.streakOf (fixedZone offset) now allTasks = Ok 3.
Proof.
  intros Hy2 Hy0 Hall Hsome.
  assert (Hd : forall k, Day (now - k * msPerDay) = Day now - k)
    by (intros k; unfold Day, msPerDay; divmod).
  assert (Hy : forall k, 0 <= k <= 2 -> fourDigitYear (now - k * msPerDay)).
  { intros k Hk. apply (fourDigitYear_between _ _ _ Hy2 Hy0). rewrite !Hd. lia. }
  unfold ProgressManager.streakOf. cbv zeta.
  rewrite (sorted_completion_dates now allTasks (Hy 2 ltac:(lia)) Hy0 Hall Hsome).
  rewrite String.eqb_refl. cbn [negb andb].
  rewrite (countStreak_hit offset now) by by apply fourDigitYear_valid.
  rewrite (countStreak_hit offset (now - msPerDay)).
  2: { apply fourDigitYear_valid. replace (now - msPerDay) with (now - 1 * msPerDay) by lia.
       apply Hy. lia. }
  replace (now - 2 * msPerDay) with (now - msPerDay - msPerDay) by lia.
  rewrite (countStreak_hit offset (now - msPerDay - msPerDay)).
  2: { apply fourDigitYear_valid.
       replace (now - msPerDay - msPerDay) with (now - 2 * msPerDay) by lia.
       apply Hy. lia. }
  reflexivity.
Qed.

(** Whatever the zone, when the latest completion is two days old or older
    the streak is 0. *)
Lemma streak_of_old_completions tz (now : Date) allTasks :
  valid now -> valid (now - msPerDay) ->
  (forall task ts, task ∈ allTasks -> completionOf task = Some ts ->
     valid ts /\ Day ts <= Day now - 2) ->
  ProgressManager.streakOf tz now allTasks = Ok 0.
Proof.
  intros Hv0 Hv1 Hall. unfold ProgressManager.streakOf. cbv zeta.
  destruct (JS.sort _ _) as [|first rest] eqn:Hsort; [done|].
  assert (Hin : first ∈ ProgressManager.getCompletionDates allTasks).
  { rewrite <- (sort_Permutation (fun a b => JS.localeCompare b a)), Hsort. by left. }
  apply (getCompletionDates_spec allTasks) in Hin as (task & ts & Hin & Hc & ->).
  destruct (Hall _ _ Hin Hc) as [Hv Hday].
  change (24 * 60 * 60 * 1000) with msPerDay.
  assert (H0 : String.eqb (ProgressManager.formatDate ts) (ProgressManager.formatDate now)
               = false).
  { apply String.eqb_neq. intros Heq%formatDate_inj; [lia|done..]. }
  assert (H1 : String.eqb (ProgressManager.formatDate ts)
                 (ProgressManager.formatDate (now - msPerDay)) = false).
  { apply String.eqb_neq. intros Heq%formatDate_inj; [|done..].
    rewrite Day_previous in Heq. lia. }
  by rewrite H0, H1.
Qed.

(** The two lemmas at work on 2024-11-04T15:00:00Z, five hours west of
    Greenwich all year round. *)
Example streak_in_fixed_zone_example :
  let now := 1730732400000 in
  ProgressManager.streakOf (fixedZone (-5 * msPerHour)) now
    [ completedTask "a" "Draft agenda" 0 (now - 2 * msPerDay);
      completedTask "b" "Review notes" 0 (now - msPerDay);
      completedTask "c" "Send minutes" 0 (now - msPerHour) ] = Ok 3
  /\ ProgressManager.streakOf newYork2024 now
       [ completedTask "d" "Book room" 0 (now - 3 * msPerDay) ] = Ok 0.
Proof.
  intros now. split.
  - apply streak_of_three_days_in_fixed_zone.
    + unfold fourDigitYear. vm_compute. split; discriminate.
    + unfold fourDigitYear. vm_compute. split; discriminate.
    + intros task ts Hin Hc.
      repeat (apply elem_of_cons in Hin as [->|Hin]);
        [..|by apply elem_of_nil in Hin];
        injection Hc as <-; vm_compute; split; discriminate.
    + intros k Hk.
      assert (Hcase : k = 0 \/ k = 1 \/ k = 2) by lia.
      destruct Hcase as [->|[->| ->]].
      * exists (completedTask "c" "Send minutes" 0 (now - msPerHour)), (now - msPerHour).
        split_and!; [rewrite !elem_of_cons; auto|reflexivity|reflexivity].
      * exists (completedTask "b" "Review notes" 0 (now - msPerDay)), (now - msPerDay).
        split_and!; [rewrite !elem_of_cons; auto|reflexivity|reflexivity].
      * exists (completedTask "a" "Draft agenda" 0 (now - 2 * msPerDay)), (now - 2 * msPerDay).
        split_and!; [rewrite !elem_of_cons; auto|reflexivity|reflexivity].
  - apply streak_of_old_completions.
    + vm_compute. split; discriminate.
    + vm_compute. split; discriminate.
    + intros task ts Hin Hc.
      apply list_elem_of_singleton in Hin as ->. injection Hc as <-.
      vm_compute. repeat split; discriminate.
Qed.

(** ** Atomization engine *)

(** C6.  When the [generateJSON] call made by [atomize] rejects, whatever
    the error, [atomize] resolves with the single-task result: one micro-task
    wrapping the task, no dependencies, [parallelGroups = [[0]]], and an
    [mvpSuggestion] exactly when the task has a deadline. *)
Theorem atomize_absorbs_provider_failure :
  forall (llmProvider : AtomizationEngine.LLMProvider) (task : Task) (error : string),
    llmProvider
      [ AtomizationEngine.mkMessage "system" AtomizationEngine.getSystemPrompt;
        AtomizationEngine.mkMessage "user" (AtomizationEngine.buildAtomizationPrompt task) ]
      = Throw error ->
    exists result mt,
      AtomizationEngine.atomize llmProvider task = Ok result
      /\ result = AtomizationEngine.createSingleTaskResult task
      /\ AtomizationEngine.microTasks result = [mt]
      /\ AtomizationEngine.mt_title mt = AtomizationEngine.ensureActionVerb (title task)
      /\ AtomizationEngine.mt_description mt = description task
      /\ AtomizationEngine.dependsOn mt = []
      /\ AtomizationEngine.isParallelizable mt = true
      /\ AtomizationEngine.dependencies result = []
      /\ AtomizationEngine.parallelGroups result = [[0%nat]]
      /\ (is_Some (AtomizationEngine.mvpSuggestion result) <-> is_Some (deadline task)).
Proof.
  intros llm task error Hfail.
  eexists _, _. split; [|split; [reflexivity|]].
  - unfold AtomizationEngine.atomize.
    destruct (AtomizationEngine.smallEnough task); [reflexivity|].
    rewrite Hfail. reflexivity.
  - simpl. repeat split; try reflexivity.
    + destruct (deadline task); simpl; [eauto|]. by intros [? ?].
    + destruct (deadline task); simpl; [eauto|]. by intros [? ?].
Qed.

Lemma atomize_absorbs_provider_failure_witness :
  let task := plainTask "t1" "quarterly report" 0 (Some 72000000) medium in
  let llm : AtomizationEngine.LLMProvider := fun _ => Throw "504 Gateway Timeout" in
  exists result mt,
    AtomizationEngine.atomize llm task = Ok result
    /\ result = AtomizationEngine.createSingleTaskResult task
    /\ AtomizationEngine.microTasks result = [mt]
    /\ AtomizationEngine.mt_title mt = AtomizationEngine.ensureActionVerb (title task)
    /\ AtomizationEngine.mt_description mt = description task
    /\ AtomizationEngine.dependsOn mt = []
    /\ AtomizationEngine.isParallelizable mt = true
    /\ AtomizationEngine.dependencies result = []
    /\ AtomizationEngine.parallelGroups result = [[0%nat]]
    /\ (is_Some (AtomizationEngine.mvpSuggestion result) <-> is_Some (deadline task)).
Proof.
  intros task llm.
  apply (atomize_absorbs_provider_failure llm task "504 Gateway Timeout").
  reflexivity.
Defined.

(** C7, as stated, fails: a negative [estimatedMinutes] is truthy, so it is
    not replaced by 30 but clamped to the lower bound, 15. *)
Lemma negative_estimate_becomes_15 :
  let response :=
    AtomizationEngine.mkLLMResponse
      [AtomizationEngine.mkLLMMicroTask "Write outline" None (Some (-5)) None] None in
  let task := plainTask "t1" "quarterly report" 0 None medium in
  AtomizationEngine.mt_estimatedMinutes
    <$> AtomizationEngine.microTasks (AtomizationEngine.processLLMResponse response task)
  = [15]
  /\ 15 <> 30.
Proof. vm_compute. split; [reflexivity|discriminate]. Qed.

(** C7, amended.  [processLLMResponse] keeps every micro-task of the
    response, in order, and for the one at position [i]: a missing (or zero)
    [estimatedMinutes] becomes 30; a negative one becomes 15; a missing
    dependency list gives an empty [dependsOn] and [isParallelizable]. *)
Theorem response_fields_are_defaulted :
  forall (response : AtomizationEngine.AtomizationLLMResponse) (task : Task)
         (i : nat) (mt : AtomizationEngine.LLMMicroTask),
    AtomizationEngine.llm_microTasks response !! i = Some mt ->
    length (AtomizationEngine.microTasks (AtomizationEngine.processLLMResponse response task))
      = length (AtomizationEngine.llm_microTasks response)
    /\ exists out,
      AtomizationEngine.microTasks (AtomizationEngine.processLLMResponse response task) !! i
        = Some out
      /\ (AtomizationEngine.llm_estimatedMinutes mt = None ->
            AtomizationEngine.mt_estimatedMinutes out = 30)
      /\ (AtomizationEngine.llm_estimatedMinutes mt = Some 0 ->
            AtomizationEngine.mt_estimatedMinutes out = 30)
      /\ (forall m, AtomizationEngine.llm_estimatedMinutes mt = Some m -> m < 0 ->
            AtomizationEngine.mt_estimatedMinutes out = 15)
      /\ (AtomizationEngine.llm_dependsOn mt = None ->
            AtomizationEngine.dependsOn out = []
            /\ AtomizationEngine.isParallelizable out = true).
Proof.
  intros response task i mt Hi. simpl. split; [by rewrite length_fmap|].
  exists (AtomizationEngine.buildMicroTask mt). split.
  - by rewrite list_lookup_fmap, Hi.
  - unfold AtomizationEngine.buildMicroTask; simpl.
    split; [|split; [|split]].
    + by intros ->.
    + by intros ->.
    + intros m -> Hm. unfold AtomizationEngine.truthyNumber.
      destruct (Z.eqb_spec m 0); [lia|]. simpl.
      unfold AtomizationEngine.clampTimeEstimate. lia.
    + by intros ->.
Qed.

Lemma response_fields_are_defaulted_witness :
  let response :=
    AtomizationEngine.mkLLMResponse
      [ AtomizationEngine.mkLLMMicroTask "Write outline" None (Some (-5)) None;
        AtomizationEngine.mkLLMMicroTask "Review draft" None None (Some [0]) ] None in
  let task := plainTask "t1" "quarterly report" 0 None medium in
  length (AtomizationEngine.microTasks (AtomizationEngine.processLLMResponse response task))
    = length (AtomizationEngine.llm_microTasks response)
  /\ exists out,
    AtomizationEngine.microTasks (AtomizationEngine.processLLMResponse response task) !! 0%nat
      = Some out
    /\ (Some (-5) = None -> AtomizationEngine.mt_estimatedMinutes out = 30)
    /\ (Some (-5) = Some 0 -> AtomizationEngine.mt_estimatedMinutes out = 30)
    /\ (forall m, Some (-5) = Some m -> m < 0 ->
          AtomizationEngine.mt_estimatedMinutes out = 15)
    /\ ((None : option (list Z)) = None ->
          AtomizationEngine.dependsOn out = []
          /\ AtomizationEngine.isParallelizable out = true).
Proof.
  intros response task.
  apply (response_fields_are_defaulted response task 0%nat
           (AtomizationEngine.mkLLMMicroTask "Write outline" None (Some (-5)) None)).
  reflexivity.
Defined.

(** ** Serialisation *)

Lemma optionalDate_toISOString (o : option Z) :
  (forall d, o = Some d -> valid d) -> optionalDate (toISOString <$> o) = Some o.
Proof.
  intros Hv. destruct o as [d|]; [|reflexivity].
  pose proof (parse_toISOString d (Hv d eq_refl)) as Hp.
  simpl. destruct (toISOString d) eqn:E.
  - discriminate Hp.
  - by rewrite Hp.
Qed.

Lemma deserializeHistoryEntry_serialize h :
  valid_entry h -> deserializeHistoryEntry (serializeHistoryEntry h) = Some h.
Proof.
  intros Hv. unfold deserializeHistoryEntry, serializeHistoryEntry. simpl.
  rewrite parse_toISOString by done. simpl. by destruct h.
Qed.

Lemma deserializeHistory_serialize hist :
  Forall valid_entry hist ->
  mapM deserializeHistoryEntry (serializeHistoryEntry <$> hist) = Some hist.
Proof.
  intros Hv. apply mapM_Some, Forall2_fmap_l, Forall_Forall2_diag.
  eapply Forall_impl; [exact Hv|]. intros h Hh.
  by apply deserializeHistoryEntry_serialize.
Qed.

(** C8.  For every task of the data model (all its dates are ECMAScript time
    values), [deserializeTask (serializeTask task)] is the task itself: every
    field is returned unchanged, and [createdAt], [updatedAt], [deadline],
    [scheduledDate] and each history [timestamp] come back as the same
    instants. *)
Theorem deserialize_serialize_task :
  forall task : Task, valid_task task -> deserializeTask (serializeTask task) = Some task.
Proof.
  intros task (Hc & Hu & Hd & Hs & Hh).
  unfold deserializeTask, serializeTask. cbn [s_createdAt s_updatedAt s_deadline
    s_scheduledDate s_history].
  rewrite !parse_toISOString by done. cbn [mbind option_bind].
  rewrite !optionalDate_toISOString by done. cbn [mbind option_bind].
  rewrite deserializeHistory_serialize by done. cbn [mbind option_bind].
  by destruct task.
Qed.

Lemma deserialize_serialize_task_witness :
  let task :=
    mkTask "7d1c" 1700000000000 1700003600000 "Write quarterly report" (Some "Q3 numbers")
      "write the quarterly report by friday" None ["9f2a"] (Some 1700500000000) None (Some 90)
      high "High: Due in 6 days" in_progress emptyContext
      [ mkHistoryEntry 1700000000000 act_created "Task created" None None;
        mkHistoryEntry 1700003600000 act_updated "deadline changed" None
          (Some (VDate 1700500000000)) ] in
  deserializeTask (serializeTask task) = Some task.
Proof.
  intros task. apply (deserialize_serialize_task task).
  unfold valid_task, valid_entry, valid, maxTime. simpl.
  split; [lia|]. split; [lia|].
  split; [intros d [= <-]; lia|].
  split; [intros d H; discriminate H|].
  repeat constructor; simpl; lia.
Defined.

(** ** Priority engine: the score *)

Lemma hours_le (x k : Z) :
  Qle_bool (inject_Z x / inject_Z (1000 * 60 * 60))%Q (inject_Z k) = (x <=? k * 3600000).
Proof.
  destruct (Z.leb_spec x (k * 3600000)) as [H|H].
  - rewrite Qle_bool_iff. unfold Qle, Qdiv, Qmult, Qinv. simpl. lia.
  - apply not_true_iff_false. rewrite Qle_bool_iff. unfold Qle, Qdiv, Qmult, Qinv. simpl. lia.
Qed.

Lemma week_value (x : Z) :
  JS.Math_round
    (90 - (inject_Z x / inject_Z (1000 * 60 * 60) / PriorityEngine.HOURS_IN_DAY - 1) * 3)%Q
  = (187 * 86400000 - 6 * x) / 172800000.
Proof.
  assert (Heq : (90 - (inject_Z x / inject_Z (1000 * 60 * 60) / PriorityEngine.HOURS_IN_DAY - 1) * 3
                 == inject_Z (93 * 86400000 - 3 * x) / inject_Z 86400000)%Q).
  { unfold Qeq, Qdiv, Qmult, Qplus, Qminus, Qopp, Qinv, inject_Z,
      PriorityEngine.HOURS_IN_DAY. simpl. lia. }
  unfold JS.Math_round. rewrite Heq.
  fold (JS.Math_round (inject_Z (93 * 86400000 - 3 * x) / inject_Z 86400000)%Q).
  rewrite Math_round_quotient by lia. f_equal. lia.
Qed.

Lemma far_value (x : Z) :
  JS.Math_round
    (60 - inject_Z x / inject_Z (1000 * 60 * 60) / PriorityEngine.HOURS_IN_DAY)%Q
  = (121 * 86400000 - 2 * x) / 172800000.
Proof.
  assert (Heq : (60 - inject_Z x / inject_Z (1000 * 60 * 60) / PriorityEngine.HOURS_IN_DAY
                 == inject_Z (60 * 86400000 - x) / inject_Z 86400000)%Q).
  { unfold Qeq, Qdiv, Qmult, Qplus, Qminus, Qopp, Qinv, inject_Z,
      PriorityEngine.HOURS_IN_DAY. simpl. lia. }
  unfold JS.Math_round. rewrite Heq.
  fold (JS.Math_round (inject_Z (60 * 86400000 - x) / inject_Z 86400000)%Q).
  rewrite Math_round_quotient by lia. f_equal. lia.
Qed.

(** The value of the deadline factor as a function of the time left. *)
Lemma deadline_factor_value now task dl :
  deadline task = Some dl ->
  PriorityEngine.weight (PriorityEngine.calculateDeadlineFactor now task) = 50
  /\ PriorityEngine.value (PriorityEngine.calculateDeadlineFactor now task)
     = if dl - now <=? 24 * 3600000 then 100
       else if dl - now <=? 168 * 3600000
       then (187 * 86400000 - 6 * (dl - now)) / 172800000
       else Z.max 20 ((121 * 86400000 - 2 * (dl - now)) / 172800000).
Proof.
  intros Hdl. unfold PriorityEngine.calculateDeadlineFactor. rewrite Hdl.
  change (0 : Q) with (inject_Z 0).
  change PriorityEngine.HOURS_IN_WEEK with (inject_Z 168).
  change (Qle_bool ?h PriorityEngine.HOURS_IN_DAY) with (Qle_bool h (inject_Z 24)).
  rewrite !hours_le.
  destruct (Z.leb_spec (dl - now) (0 * 3600000)) as [H0|H0].
  { simpl. split; [done|]. destruct (Z.leb_spec (dl - now) (24 * 3600000)); [done|lia]. }
  destruct (Z.leb_spec (dl - now) (24 * 3600000)) as [H1|H1]; [done|].
  destruct (Z.leb_spec (dl - now) (168 * 3600000)) as [H2|H2]; cbn [PriorityEngine.weight PriorityEngine.value].
  - split; [done|]. apply week_value.
  - split; [done|]. by rewrite far_value.
Qed.

Lemma deadline_factor_range now task :
  PriorityEngine.weight (PriorityEngine.calculateDeadlineFactor now task) = 50
  /\ 20 <= PriorityEngine.value (PriorityEngine.calculateDeadlineFactor now task) <= 100.
Proof.
  destruct (deadline task) as [dl|] eqn:Hdl.
  - destruct (deadline_factor_value now task dl Hdl) as [-> ->]. split; [done|].
    destruct (Z.leb_spec (dl - now) (24 * 3600000)); [lia|].
    destruct (Z.leb_spec (dl - now) (168 * 3600000)); [divmod|].
    split; [lia|]. apply Z.max_lub; [lia|divmod].
  - unfold PriorityEngine.calculateDeadlineFactor. rewrite Hdl. simpl. lia.
Qed.

Lemma hierarchy_factor_range task :
  PriorityEngine.weight (PriorityEngine.calculateHierarchyFactor task) = 10
  /\ 40 <= PriorityEngine.value (PriorityEngine.calculateHierarchyFactor task) <= 70.
Proof.
  unfold PriorityEngine.calculateHierarchyFactor.
  destruct (0 <? length (childIds task))%nat; simpl; [lia|].
  destruct (parentId task) as [[|]|]; simpl; lia.
Qed.

Lemma existing_factor_range task :
  PriorityEngine.weight (PriorityEngine.calculateExistingPriorityFactor task) = 30
  /\ 20 <= PriorityEngine.value (PriorityEngine.calculateExistingPriorityFactor task) <= 100.
Proof.
  unfold PriorityEngine.calculateExistingPriorityFactor. simpl.
  destruct (priority task); simpl; lia.
Qed.

(** The score as an integer quotient of the four factor values. *)
Lemma score_quotient now task :
  PriorityEngine.score (PriorityEngine.calculatePriority now task)
  = (2 * (PriorityEngine.value (PriorityEngine.calculateDeadlineFactor now task) * 50
          + PriorityEngine.value (PriorityEngine.calculateExistingPriorityFactor task) * 30
          + PriorityEngine.value (PriorityEngine.calculateAgeFactor now task) * 10
          + PriorityEngine.value (PriorityEngine.calculateHierarchyFactor task) * 10)
     + 100) / 200.
Proof.
  unfold PriorityEngine.calculatePriority. cbn [PriorityEngine.score].
  destruct (deadline_factor_range now task) as [-> _].
  destruct (existing_factor_range task) as [-> _].
  destruct (hierarchy_factor_range task) as [-> _].
  change (PriorityEngine.weight (PriorityEngine.calculateAgeFactor now task)) with 10.
  rewrite Math_round_quotient by lia. f_equal.
Qed.



(** X2.  Of two tasks that differ only in their deadlines, the one due
    earlier never gets the lower score, nor the lower level. *)
Theorem earlier_deadline_never_scores_lower :
  forall (now : Date) (a b : Task) (da db : Date),
    priority a = priority b -> createdAt a = createdAt b ->
    childIds a = childIds b -> parentId a = parentId b ->
    deadline a = Some da -> deadline b = Some db -> da <= db ->
    PriorityEngine.score (PriorityEngine.calculatePriority now b)
      <= PriorityEngine.score (PriorityEngine.calculatePriority now a)
    /\ PriorityEngine.priorityOrder (PriorityEngine.level (PriorityEngine.calculatePriority now a))
       <= PriorityEngine.priorityOrder
            (PriorityEngine.level (PriorityEngine.calculatePriority now b)).
Proof.
  intros now a b da db Hp Hc Hch Hpa Ha Hb Hle.
  assert (Hscore : PriorityEngine.score (PriorityEngine.calculatePriority now b)
                   <= PriorityEngine.score (PriorityEngine.calculatePriority now a)).
  { rewrite !score_quotient.
    assert (He : PriorityEngine.calculateExistingPriorityFactor a
                 = PriorityEngine.calculateExistingPriorityFactor b)
      by (unfold PriorityEngine.calculateExistingPriorityFactor; by rewrite Hp).
    assert (Hg : PriorityEngine.calculateAgeFactor now a
                 = PriorityEngine.calculateAgeFactor now b)
      by (unfold PriorityEngine.calculateAgeFactor; by rewrite Hc).
    assert (Hh : PriorityEngine.calculateHierarchyFactor a
                 = PriorityEngine.calculateHierarchyFactor b)
      by (unfold PriorityEngine.calculateHierarchyFactor; by rewrite Hch, Hpa).
    rewrite He, Hg, Hh.
    destruct (deadline_factor_value now a da Ha) as [_ ->].
    destruct (deadline_factor_value now b db Hb) as [_ ->].
    assert (Hd :
      (if db - now <=? 24 * 3600000 then 100
       else if db - now <=? 168 * 3600000
            then (187 * 86400000 - 6 * (db - now)) / 172800000
            else Z.max 20 ((121 * 86400000 - 2 * (db - now)) / 172800000))
      <= (if da - now <=? 24 * 3600000 then 100
          else if da - now <=? 168 * 3600000
               then (187 * 86400000 - 6 * (da - now)) / 172800000
               else Z.max 20 ((121 * 86400000 - 2 * (da - now)) / 172800000))).
    { destruct (Z.leb_spec (da - now) (24 * 3600000)),
               (Z.leb_spec (db - now) (24 * 3600000)),
               (Z.leb_spec (da - now) (168 * 3600000)),
               (Z.leb_spec (db - now) (168 * 3600000));
        try lia; try divmod;
        try (apply Z.max_lub; [divmod|divmod]);
        try (apply Z.max_le_compat_l; divmod). }
    apply Z.div_le_mono; lia. }
  split; [done|].
  change (PriorityEngine.level (PriorityEngine.calculatePriority now a))
    with (PriorityEngine.scoreToLevel (PriorityEngine.score (PriorityEngine.calculatePriority now a))).
  change (PriorityEngine.level (PriorityEngine.calculatePriority now b))
    with (PriorityEngine.scoreToLevel (PriorityEngine.score (PriorityEngine.calculatePriority now b))).
  unfold PriorityEngine.scoreToLevel.
  repeat match goal with
         | |- context [?x <=? ?y] => destruct (Z.leb_spec x y)
         end; simpl; lia.
Qed.

Lemma earlier_deadline_never_scores_lower_witness :
  let now := 1700000000000 in
  let a := plainTask "a" "Submit tax form" now (Some (now + 2 * msPerDay)) medium in
  let b := plainTask "b" "Renew passport" now (Some (now + 9 * msPerDay)) medium in
  PriorityEngine.score (PriorityEngine.calculatePriority now b)
    <= PriorityEngine.score (PriorityEngine.calculatePriority now a)
  /\ PriorityEngine.priorityOrder (PriorityEngine.level (PriorityEngine.calculatePriority now a))
     <= PriorityEngine.priorityOrder
          (PriorityEngine.level (PriorityEngine.calculatePriority now b)).
Proof.
  intros now a b.
  apply (earlier_deadline_never_scores_lower now a b (now + 2 * msPerDay) (now + 9 * msPerDay));
    try reflexivity.
  vm_compute. discriminate.
Defined.

(** X3.  A task with a deadline at most 24 hours ahead (overdue included),
    a stored priority of [high] or [medium] and a creation time not in the
    future is classified [high]. *)
Theorem due_within_a_day_is_high :
  forall (now : Date) (task : Task) (dl : Date),
    deadline task = Some dl -> dl - now <= 24 * msPerHour ->
    createdAt task <= now -> priority task <> low ->
    PriorityEngine.level (PriorityEngine.calculatePriority now task) = high
    /\ 72 <= PriorityEngine.score (PriorityEngine.calculatePriority now task).
Proof.
  intros now task dl Hdl Hrange Hage Hprio.
  assert (Hscore : 72 <= PriorityEngine.score (PriorityEngine.calculatePriority now task)).
  { rewrite score_quotient.
    destruct (deadline_factor_value now task dl Hdl) as [_ ->].
    destruct (Z.leb_spec (dl - now) (24 * 3600000)) as [_|H]; [|unfold msPerHour in *; lia].
    destruct (hierarchy_factor_range task) as [_ Hh].
    pose proof (age_factor_value now task Hage) as Ha.
    assert (He : 50 <= PriorityEngine.value (PriorityEngine.calculateExistingPriorityFactor task)).
    { unfold PriorityEngine.calculateExistingPriorityFactor. simpl.
      destruct (priority task); simpl; try lia. done. }
    divmod. }
  split; [|done].
  change (PriorityEngine.level (PriorityEngine.calculatePriority now task))
    with (PriorityEngine.scoreToLevel
            (PriorityEngine.score (PriorityEngine.calculatePriority now task))).
  unfold PriorityEngine.scoreToLevel.
  destruct (Z.leb_spec 70 (PriorityEngine.score (PriorityEngine.calculatePriority now task)));
    [done|lia].
Qed.

Lemma due_within_a_day_is_high_witness :
  let now := 1700000000000 in
  let task := plainTask "t1" "Submit tax form" now (Some (now - msPerHour)) medium in
  PriorityEngine.level (PriorityEngine.calculatePriority now task) = high
  /\ 72 <= PriorityEngine.score (PriorityEngine.calculatePriority now task).
Proof.
  intros now task.
  apply (due_within_a_day_is_high now task (now - msPerHour)).
  - reflexivity.
  - vm_compute. discriminate.
  - vm_compute. discriminate.
  - discriminate.
Defined.

(** ** Priority engine: ordering *)

Lemma compareTasks_tie x a b :
  PriorityEngine.compareTasks x a = 0 -> PriorityEngine.compareTasks x b = 0 ->
  PriorityEngine.compareTasks a b <= 0.
Proof.
  unfold PriorityEngine.compareTasks.
  destruct (priority x), (priority a), (priority b),
    (deadline x), (deadline a), (deadline b); simpl; lia.
Qed.

(** X4.  [prioritizeTasks] is a stable sort for its comparison: the result
    is a permutation of the input, no task is followed by one that the
    comparison ranks strictly before it, and the tasks that tie with a given
    task keep their input order. *)
Theorem prioritizeTasks_is_a_stable_sort :
  forall tasks : list Task,
    PriorityEngine.prioritizeTasks tasks ≡ₚ tasks
    /\ StronglySorted (fun a b => PriorityEngine.compareTasks a b <= 0)
         (PriorityEngine.prioritizeTasks tasks)
    /\ forall x : Task,
         filter (fun t => PriorityEngine.compareTasks x t = 0)
           (PriorityEngine.prioritizeTasks tasks)
         = filter (fun t => PriorityEngine.compareTasks x t = 0) tasks.
Proof.
  intros tasks. destruct (prioritizeTasks_sorted tasks) as [Hperm Hsorted].
  split_and!; [done|done|].
  intros x. unfold PriorityEngine.prioritizeTasks.
  apply (sort_stable PriorityEngine.compareTasks
           (fun t => PriorityEngine.compareTasks x t = 0)).
  intros a b. apply compareTasks_tie.
Qed.

Lemma head_of_sorted {A} (R : A -> A -> Prop) (l : list A) x :
  StronglySorted R l -> head l = Some x -> forall y, y ∈ l -> y = x \/ R x y.
Proof.
  intros Hs Hh y Hy. destruct l as [|z l]; [done|]. injection Hh as ->.
  apply StronglySorted_inv in Hs as [_ Hall].
  apply elem_of_cons in Hy as [->|Hy]; [by left|].
  right. by eapply Forall_forall in Hall.
Qed.

Lemma compareTasks_refl a : PriorityEngine.compareTasks a a <= 0.
Proof. destruct (compareTasks_total a a); done. Qed.

(** X5.  [getNextTask] returns [null] exactly when no task of the list is
    pending or in progress; otherwise it returns a pending or in-progress
    task of the list that no other such task is ranked strictly before. *)
Theorem getNextTask_is_a_best_open_task :
  forall tasks : list Task,
    match PriorityEngine.getNextTask tasks with
    | None => forall t, t ∈ tasks -> PriorityEngine.isOpen t = false
    | Some next =>
        next ∈ tasks /\ PriorityEngine.isOpen next = true
        /\ forall t, t ∈ tasks -> PriorityEngine.isOpen t = true ->
             PriorityEngine.compareTasks next t <= 0
    end.
Proof.
  intros tasks. unfold PriorityEngine.getNextTask.
  set (open := filter (fun t => PriorityEngine.isOpen t = true) tasks).
  destruct (prioritizeTasks_sorted open) as [Hperm Hsorted].
  destruct (head (PriorityEngine.prioritizeTasks open)) as [next|] eqn:Hhead.
  - assert (Hin : next ∈ open).
    { rewrite <- Hperm. by apply head_Some_elem_of. }
    apply list_elem_of_filter in Hin as [Hopen Hin].
    split_and!; [done|done|].
    intros t Ht Hto.
    assert (Hto' : t ∈ PriorityEngine.prioritizeTasks open).
    { rewrite Hperm. by apply list_elem_of_filter. }
    destruct (head_of_sorted _ _ _ Hsorted Hhead t Hto') as [->|H]; [|done].
    apply compareTasks_refl.
  - intros t Ht. apply head_None in Hhead.
    destruct (PriorityEngine.isOpen t) eqn:Hopen; [|done].
    assert (Hin : t ∈ PriorityEngine.prioritizeTasks open).
    { rewrite Hperm. by apply list_elem_of_filter. }
    rewrite Hhead in Hin. by apply elem_of_nil in Hin.
Qed.

(** ** Task store: single operations *)

(** X6.  [update] (with [explicit = true]), [complete], [defer] and [delete]
    (with [explicit = true]) on an id that is not in the store throw
    "Task not found: <id>" and leave the store as it was; [get] returns
    [null]. *)
Theorem missing_id_is_rejected :
  forall (date_differs : Date -> Date -> bool) (tz : TimeZone) (tasks : TaskStore.Tasks)
         (now : Date) (i : string) (updates : TaskUpdate) (newDate : option Date),
    tasks !! i = None ->
    TaskStore.get tasks i = None
    /\ TaskStore.update date_differs tasks now i updates true
       = (tasks, Throw ("Task not found: " +:+ i))
    /\ TaskStore.complete tasks now i = (tasks, Throw ("Task not found: " +:+ i))
    /\ TaskStore.defer tz tasks now i newDate = (tasks, Throw ("Task not found: " +:+ i))
    /\ TaskStore.delete tasks now i true = (tasks, Throw ("Task not found: " +:+ i)).
Proof.
  intros dd tz tasks now i updates newDate Hi.
  unfold TaskStore.get, TaskStore.update, TaskStore.complete, TaskStore.defer, TaskStore.delete.
  rewrite Hi. simpl. done.
Qed.

Lemma missing_id_is_rejected_witness :
  let t0 := plainTask "a" "Pay rent" 0 None medium in
  let tasks : TaskStore.Tasks := {[ "a" := t0 ]} in
  TaskStore.get tasks "b" = None
  /\ TaskStore.update (fun _ _ => true) tasks 5 "b" [upd_title "Pay the rent"] true
     = (tasks, Throw ("Task not found: " +:+ "b"))
  /\ TaskStore.complete tasks 5 "b" = (tasks, Throw ("Task not found: " +:+ "b"))
  /\ TaskStore.defer (fixedZone 0) tasks 5 "b" None
     = (tasks, Throw ("Task not found: " +:+ "b"))
  /\ TaskStore.delete tasks 5 "b" true = (tasks, Throw ("Task not found: " +:+ "b")).
Proof.
  intros t0 tasks.
  apply (missing_id_is_rejected (fun _ _ => true) (fixedZone 0) tasks 5 "b").
  vm_compute. reflexivity.
Defined.

Lemma truthy_Some (s : string) : s <> "" -> TaskStore.truthy (Some s) = true.
Proof. by destruct s. Qed.

(** X7.  [create] under a parent that is in the store: the new task is stored
    under the new id with the parent's title and raw input as its context,
    the parent gets the new id appended to [childIds] and one ['updated']
    entry appended to its history, and every other task is untouched. *)
Theorem create_links_child_and_parent :
  forall (tasks : TaskStore.Tasks) (now : Date) (newId pid : string)
         (input : TaskInput) (parent : Task),
    keyed tasks ->
    in_parentId input = Some pid -> pid <> "" ->
    tasks !! pid = Some parent ->
    tasks !! newId = None ->
    exists tasks' task parent' e,
      TaskStore.create tasks now newId input = (tasks', task)
      /\ TaskStore.get tasks' newId = Some task
      /\ id task = newId /\ parentId task = Some pid /\ childIds task = []
      /\ status task = pending
      /\ parentContext (context task) = Some (title parent)
      /\ originalGoal (context task) = Some (rawInput parent)
      /\ TaskStore.get tasks' pid = Some parent'
      /\ childIds parent' = childIds parent ++ [newId]
      /\ history parent' = history parent ++ [e]
      /\ action e = act_updated /\ timestamp e = now
      /\ updatedAt parent' = now
      /\ status parent' = status parent /\ parentId parent' = parentId parent
      /\ (forall k, k <> newId -> k <> pid -> tasks' !! k = tasks !! k).
Proof.
  intros tasks now newId pid input parent Hk Hin Hne Hp Hfresh.
  assert (Hid : id parent = pid) by by apply Hk.
  assert (Hneq : newId <> pid) by congruence.
  unfold TaskStore.create, TaskStore.get.
  rewrite Hin, (truthy_Some pid Hne). simpl. rewrite Hp. rewrite Hid.
  eexists _, _, _, _. split; [reflexivity|].
  rewrite lookup_insert_eq, lookup_insert_ne, lookup_insert_eq by done.
  split_and!; try reflexivity.
  intros k H1 H2. by rewrite !lookup_insert_ne.
Qed.

Lemma create_links_child_and_parent_witness :
  let t0 := plainTask "a" "Plan the trip" 0 None medium in
  let input := mkTaskInput "Book the flights" None None (Some "a") None None None None in
  exists tasks' task parent' e,
    TaskStore.create {[ "a" := t0 ]} 5 "b" input = (tasks', task)
    /\ TaskStore.get tasks' "b" = Some task
    /\ id task = "b" /\ parentId task = Some "a" /\ childIds task = []
    /\ status task = pending
    /\ parentContext (context task) = Some (title t0)
    /\ originalGoal (context task) = Some (rawInput t0)
    /\ TaskStore.get tasks' "a" = Some parent'
    /\ childIds parent' = childIds t0 ++ ["b"]
    /\ history parent' = history t0 ++ [e]
    /\ action e = act_updated /\ timestamp e = 5
    /\ updatedAt parent' = 5
    /\ status parent' = status t0 /\ parentId parent' = parentId t0
    /\ (forall k, k <> "b" -> k <> "a" ->
          tasks' !! k = ({[ "a" := t0 ]} : TaskStore.Tasks) !! k).
Proof.
  intros t0 input.
  apply (create_links_child_and_parent {[ "a" := t0 ]} 5 "b" "a" input t0).
  - apply (bool_decide_unpack _). vm_compute. reflexivity.
  - reflexivity.
  - discriminate.
  - vm_compute. reflexivity.
  - vm_compute. reflexivity.
Defined.

(** X8.  [create] followed by [delete] of the task just created, when the
    new task names no parent that is in the store: the store is exactly what
    it was before the two calls. *)
Theorem create_then_delete_restores_the_store :
  forall (tasks : TaskStore.Tasks) (now later : Date) (newId : string) (input : TaskInput),
    tasks !! newId = None ->
    (forall pid, in_parentId input = Some pid -> tasks !! pid = None) ->
    TaskStore.delete (TaskStore.create tasks now newId input).1 later newId true
    = (tasks, Ok tt).
Proof.
  intros tasks now later newId input Hfresh Hnop.
  assert (Hparent :
    (if TaskStore.truthy (in_parentId input)
     then pid ← in_parentId input; tasks !! pid else None) = None).
  { destruct (in_parentId input) as [pid|] eqn:Hpid;
      destruct (TaskStore.truthy _); simpl; try done. by apply Hnop. }
  unfold TaskStore.create. rewrite Hparent. cbn [fst].
  match goal with
  | |- context [<[newId := ?t]> tasks] => set (task0 := t)
  end.
  unfold TaskStore.delete. rewrite lookup_insert_eq. cbn [negb].
  change (parentId task0) with (in_parentId input).
  assert (Hm : forall m : Task,
             base.delete newId (<[newId := m]> (<[newId := task0]> tasks)) = tasks).
  { intros m. rewrite insert_insert_eq, delete_insert_eq. by apply delete_id. }
  assert (Hm' : base.delete newId (<[newId := task0]> tasks) = tasks).
  { rewrite delete_insert_eq. by apply delete_id. }
  destruct (in_parentId input) as [pid|] eqn:Hpid;
    destruct (TaskStore.truthy _); cbn [mbind option_bind]; rewrite ?Hm'; try done.
  destruct (decide (pid = newId)) as [->|Hne].
  - rewrite lookup_insert_eq. change (id task0) with newId. by rewrite Hm.
  - rewrite lookup_insert_ne by done. rewrite (Hnop pid eq_refl). by rewrite Hm'.
Qed.

Lemma create_then_delete_restores_the_store_witness :
  let t0 := plainTask "a" "Plan the trip" 0 None medium in
  let input := mkTaskInput "Book the flights" None None (Some "gone") None None None None in
  TaskStore.delete (TaskStore.create {[ "a" := t0 ]} 5 "b" input).1 9 "b" true
  = ({[ "a" := t0 ]}, Ok tt).
Proof.
  intros t0 input.
  apply (create_then_delete_restores_the_store {[ "a" := t0 ]} 5 9 "b" input).
  - vm_compute. reflexivity.
  - intros pid [= <-]. vm_compute. reflexivity.
Defined.

(** X9.  [delete] (with [explicit = true]) of a stored task whose parent is
    in the store: the task is gone, the parent loses the id from [childIds]
    and gets one ['updated'] history entry, and every other task is
    untouched.  In particular the children of the deleted task stay in the
    store, still naming it as their parent. *)
Theorem delete_unlinks_but_does_not_cascade :
  forall (tasks : TaskStore.Tasks) (now : Date) (i pid : string) (task parent : Task),
    keyed tasks ->
    tasks !! i = Some task ->
    parentId task = Some pid -> pid <> "" -> pid <> i ->
    tasks !! pid = Some parent ->
    exists tasks' parent' e,
      TaskStore.delete tasks now i true = (tasks', Ok tt)
      /\ TaskStore.get tasks' i = None
      /\ TaskStore.get tasks' pid = Some parent'
      /\ childIds parent' = filter (fun cid => cid <> i) (childIds parent)
      /\ (i ∉ childIds parent')
      /\ history parent' = history parent ++ [e]
      /\ action e = act_updated /\ timestamp e = now
      /\ (forall k, k <> i -> k <> pid -> tasks' !! k = tasks !! k)
      /\ (forall c child, tasks !! c = Some child -> parentId child = Some i ->
            c <> i -> c <> pid -> TaskStore.get tasks' c = Some child).
Proof.
  intros tasks now i pid task parent Hk Hi Hpar Hne Hneq Hp.
  assert (Hid : id parent = pid) by by apply Hk.
  unfold TaskStore.delete, TaskStore.get. rewrite Hi. cbn [negb].
  rewrite Hpar, (truthy_Some pid Hne). cbn [mbind option_bind]. rewrite Hp, Hid.
  eexists _, _, _. split; [reflexivity|].
  rewrite lookup_delete_eq, lookup_delete_ne, lookup_insert_eq by done.
  split_and!; try reflexivity.
  - cbn [childIds TaskStore.withChildren]. rewrite list_elem_of_filter. tauto.
  - intros k H1 H2. by rewrite lookup_delete_ne, lookup_insert_ne.
  - intros c child Hc _ H1 H2. by rewrite lookup_delete_ne, lookup_insert_ne.
Qed.

Lemma delete_unlinks_but_does_not_cascade_witness :
  let parent := mkTask "p" 0 1 "Plan the trip" None "Plan the trip" None ["a"] None None None
                  medium "Default priority" pending emptyContext
                  [mkHistoryEntry 0 act_created "Task created" None None] in
  let task := mkTask "a" 1 2 "Book the flights" None "Book the flights" (Some "p") ["c"]
                None None None medium "Default priority" pending emptyContext
                [mkHistoryEntry 1 act_created "Task created" None None] in
  let child := mkTask "c" 2 2 "Compare fares" None "Compare fares" (Some "a") []
                 None None None medium "Default priority" pending emptyContext
                 [mkHistoryEntry 2 act_created "Task created" None None] in
  let tasks : TaskStore.Tasks := {[ "p" := parent; "a" := task; "c" := child ]} in
  exists tasks' parent' e,
    TaskStore.delete tasks 9 "a" true = (tasks', Ok tt)
    /\ TaskStore.get tasks' "a" = None
    /\ TaskStore.get tasks' "p" = Some parent'
    /\ childIds parent' = filter (fun cid => cid <> "a") (childIds parent)
    /\ ("a" ∉ childIds parent')
    /\ history parent' = history parent ++ [e]
    /\ action e = act_updated /\ timestamp e = 9
    /\ (forall k, k <> "a" -> k <> "p" -> tasks' !! k = tasks !! k)
    /\ (forall c ch, tasks !! c = Some ch -> parentId ch = Some "a" ->
          c <> "a" -> c <> "p" -> TaskStore.get tasks' c = Some ch).
Proof.
  intros parent task child tasks.
  apply (delete_unlinks_but_does_not_cascade tasks 9 "a" "p" task parent).
  - apply (bool_decide_unpack _). vm_compute. reflexivity.
  - vm_compute. reflexivity.
  - reflexivity.
  - discriminate.
  - discriminate.
  - vm_compute. reflexivity.
Defined.

Lemma foldl_assign_fixed updates : forall task,
  let task' := foldl TaskStore.assign task updates in
  createdAt task' = createdAt task /\ rawInput task' = rawInput task
  /\ parentId task' = parentId task /\ childIds task' = childIds task
  /\ context task' = context task /\ history task' = history task
  /\ updatedAt task' = updatedAt task.
Proof.
  induction updates as [|p ps IH]; intros task; [done|].
  simpl. destruct (IH (TaskStore.assign task p)) as (-> & -> & -> & -> & -> & -> & ->).
  done.
Qed.

(** X10.  A successful [update] stores its result under the same id and
    never changes the task's [id], [createdAt], [rawInput], [parentId],
    [childIds] or [context]; it sets [updatedAt] to the current time and
    leaves every other task untouched. *)
Theorem update_keeps_identity_and_hierarchy :
  forall (date_differs : Date -> Date -> bool) (tasks : TaskStore.Tasks) (now : Date)
         (i : string) (updates : TaskUpdate) (task : Task),
    tasks !! i = Some task ->
    exists tasks' task',
      TaskStore.update date_differs tasks now i updates true = (tasks', Ok task')
      /\ TaskStore.get tasks' i = Some task'
      /\ id task' = id task /\ createdAt task' = createdAt task
      /\ rawInput task' = rawInput task /\ parentId task' = parentId task
      /\ childIds task' = childIds task /\ context task' = context task
      /\ updatedAt task' = now
      /\ history task `prefix_of` history task'
      /\ (forall k, k <> i -> tasks' !! k = tasks !! k).
Proof.
  intros dd tasks now i updates task Hi.
  unfold TaskStore.update, TaskStore.get. rewrite Hi. cbn [negb].
  eexists _, _. split; [reflexivity|]. rewrite lookup_insert_eq.
  destruct (foldl_assign_fixed updates task) as (H1 & H2 & H3 & H4 & H5 & _).
  cbn [id createdAt rawInput parentId childIds context updatedAt history TaskStore.withStamp].
  rewrite foldl_assign_id.
  split_and!; try done.
  - by apply prefix_app_r.
  - intros k Hk. by rewrite lookup_insert_ne.
Qed.

Lemma update_keeps_identity_and_hierarchy_witness :
  let t0 := plainTask "a" "Pay rent" 0 None medium in
  exists tasks' task',
    TaskStore.update (fun _ _ => true) {[ "a" := t0 ]} 5 "a"
      [upd_title "Pay the rent"; upd_status in_progress] true = (tasks', Ok task')
    /\ TaskStore.get tasks' "a" = Some task'
    /\ id task' = id t0 /\ createdAt task' = createdAt t0
    /\ rawInput task' = rawInput t0 /\ parentId task' = parentId t0
    /\ childIds task' = childIds t0 /\ context task' = context t0
    /\ updatedAt task' = 5
    /\ history t0 `prefix_of` history task'
    /\ (forall k, k <> "a" -> tasks' !! k = ({[ "a" := t0 ]} : TaskStore.Tasks) !! k).
Proof.
  intros t0.
  apply (update_keeps_identity_and_hierarchy (fun _ _ => true) {[ "a" := t0 ]} 5 "a"
           [upd_title "Pay the rent"; upd_status in_progress] t0).
  vm_compute. reflexivity.
Defined.

Lemma assign_keeps_undefined task p q :
  TaskStore.valueOf q = None -> TaskStore.currentOf task p = None ->
  TaskStore.currentOf (TaskStore.assign task q) p = None.
Proof. destruct p, q as [|[]|[]| | |[]|[]|]; simpl; done. Qed.

Lemma assign_undefined task p :
  TaskStore.valueOf p = None -> TaskStore.currentOf (TaskStore.assign task p) p = None.
Proof. destruct p as [|[]|[]| | |[]|[]|]; simpl; done. Qed.

Lemma foldl_assign_undefined updates : forall task p,
  Forall (fun q => TaskStore.valueOf q = None) updates ->
  (p ∈ updates \/ TaskStore.currentOf task p = None) ->
  TaskStore.currentOf (foldl TaskStore.assign task updates) p = None.
Proof.
  induction updates as [|q qs IH]; intros task p Hall Hp.
  - destruct Hp as [Hp%elem_of_nil|Hp]; done.
  - apply Forall_cons in Hall as [Hq Hqs]. simpl. apply IH; [done|].
    destruct Hp as [Hp|Hp].
    + apply elem_of_cons in Hp as [->|Hp]; [right; by apply assign_undefined|by left].
    + right. by apply assign_keeps_undefined.
Qed.

Lemma currentOf_withStamp task now hist p :
  TaskStore.currentOf (TaskStore.withStamp task now hist) p = TaskStore.currentOf task p.
Proof. by destruct p. Qed.

(** X11.  A patch whose properties all carry the value [undefined] is
    applied without a trace: the fields it names are cleared in the stored
    task, and no entry is appended to the history. *)
Theorem undefined_properties_clear_without_history :
  forall (date_differs : Date -> Date -> bool) (tasks : TaskStore.Tasks) (now : Date)
         (i : string) (updates : TaskUpdate) (task : Task),
    tasks !! i = Some task ->
    Forall (fun p => TaskStore.valueOf p = None) updates ->
    exists tasks' task',
      TaskStore.update date_differs tasks now i updates true = (tasks', Ok task')
      /\ TaskStore.get tasks' i = Some task'
      /\ history task' = history task
      /\ forall p, p ∈ updates -> TaskStore.currentOf task' p = None.
Proof.
  intros dd tasks now i updates task Hi Hall.
  unfold TaskStore.update, TaskStore.get. rewrite Hi. cbn [negb].
  eexists _, _. split; [reflexivity|]. rewrite lookup_insert_eq.
  split_and!; [done| |].
  - cbn [history TaskStore.withStamp].
    assert (Hnone : TaskStore.historyEntriesFor dd now task updates = []).
    { unfold TaskStore.historyEntriesFor. clear Hi.
      induction Hall as [|p ps Hp _ IH]; [done|].
      cbn [omap list_omap]. rewrite Hp. exact IH. }
    rewrite Hnone. apply app_nil_r.
  - intros p Hp. rewrite currentOf_withStamp. apply foldl_assign_undefined; auto.
Qed.

Lemma undefined_properties_clear_without_history_witness :
  let t0 := plainTask "a" "Pay rent" 0 (Some 86400000) medium in
  exists tasks' task',
    TaskStore.update (fun _ _ => true) {[ "a" := t0 ]} 5 "a" [upd_deadline None] true
      = (tasks', Ok task')
    /\ TaskStore.get tasks' "a" = Some task'
    /\ history task' = history t0
    /\ forall p, p ∈ [upd_deadline None] -> TaskStore.currentOf task' p = None.
Proof.
  intros t0.
  apply (undefined_properties_clear_without_history (fun _ _ => true) {[ "a" := t0 ]} 5 "a"
           [upd_deadline None] t0).
  - vm_compute. reflexivity.
  - repeat constructor.
Defined.

(** In a fixed-offset zone [setDate(getDate() + k)] moves by [k] days. *)
Lemma setDate_shift offset t k :
  setDate (fixedZone offset) t (getDate (fixedZone offset) t + k) = t + k * msPerDay.
Proof.
  unfold setDate, getDate, LocalTime, UTC, fixedZone. simpl.
  set (l := t + offset).
  rewrite MakeDay_in_year by apply MonthFromTime_range.
  unfold DateFromTime, DayWithinYear. rewrite InLeapYear_leapOf.
  unfold MakeDate.
  pose proof (MakeDate_of_time l) as H. unfold MakeDate in H. unfold l in *. lia.
Qed.

(** In a fixed-offset zone [setHours(h, 0, 0, 0)] is [h] o'clock local time
    on the same local day. *)
Lemma setHours_local offset t h :
  LocalTime (fixedZone offset) (setHours (fixedZone offset) t h 0 0 0)
  = Day (LocalTime (fixedZone offset) t) * msPerDay + h * msPerHour.
Proof.
  unfold setHours, LocalTime, UTC, fixedZone, MakeDate, MakeTime. simpl.
  unfold msPerMinute, msPerSecond. lia.
Qed.

(** X12.  [defer] on a stored task sets the status to ['deferred'], appends
    one ['deferred'] history entry and schedules the task for the date given;
    without a date, in a time zone with a fixed offset, it schedules it for
    09:00 local time on the local calendar day after the current one.  The
    current date is taken at least eight days from the ends of the range of
    dates. *)
Theorem defer_reschedules :
  forall (offset : Z) (tasks : TaskStore.Tasks) (now : Date) (i : string)
         (newDate : option Date) (task : Task),
    tasks !! i = Some task ->
    clearOfLimits now ->
    exists tasks' task' e scheduled,
      TaskStore.defer (fixedZone offset) tasks now i newDate = (tasks', Ok task')
      /\ TaskStore.get tasks' i = Some task'
      /\ status task' = deferred
      /\ scheduledDate task' = Some scheduled
      /\ history task' = history task ++ [e]
      /\ action e = act_deferred
      /\ newValue e = Some (VString (toISOString scheduled))
      /\ match newDate with
         | Some d => scheduled = d
         | None =>
             LocalTime (fixedZone offset) scheduled
             = (Day (LocalTime (fixedZone offset) now) + 1) * msPerDay + 9 * msPerHour
         end.
Proof.
  intros offset tasks now i newDate task Hi _.
  unfold TaskStore.defer, TaskStore.get. rewrite Hi.
  eexists _, _, _, _. split; [reflexivity|]. rewrite lookup_insert_eq.
  split_and!; try reflexivity.
  destruct newDate as [d|]; [reflexivity|]. cbn [default].
  rewrite setHours_local, setDate_shift.
  unfold LocalTime, fixedZone, Day, msPerDay, msPerHour. simpl. divmod.
Qed.

Lemma defer_reschedules_witness :
  let t0 := plainTask "a" "Pay rent" 0 None medium in
  exists tasks' task' e scheduled,
    TaskStore.defer (fixedZone (-18000000)) {[ "a" := t0 ]} 1730732400000 "a" None
      = (tasks', Ok task')
    /\ TaskStore.get tasks' "a" = Some task'
    /\ status task' = deferred
    /\ scheduledDate task' = Some scheduled
    /\ history task' = history t0 ++ [e]
    /\ action e = act_deferred
    /\ newValue e = Some (VString (toISOString scheduled))
    /\ LocalTime (fixedZone (-18000000)) scheduled
       = (Day (LocalTime (fixedZone (-18000000)) 1730732400000) + 1) * msPerDay
         + 9 * msPerHour.
Proof.
  intros t0.
  apply (defer_reschedules (-18000000) {[ "a" := t0 ]} 1730732400000 "a" None t0).
  - vm_compute. reflexivity.
  - vm_compute. split; discriminate.
Defined.

(** ** Task store: the hierarchy across sequences of operations *)

(** Replacing a task by one with the same [parentId] and [childIds] keeps
    the links. *)
Lemma linked_insert_same tasks i t t' :
  linked tasks -> tasks !! i = Some t ->
  parentId t' = parentId t -> childIds t' = childIds t ->
  linked (<[i := t']> tasks).
Proof.
  intros Hl Hi Hp Hc p parent Hlook.
  assert (Hsame : forall c q, (exists child, <[i := t']> tasks !! c = Some child
                                    /\ parentId child = Some q)
                         <-> (exists child, tasks !! c = Some child
                                    /\ parentId child = Some q)).
  { intros c q. destruct (decide (c = i)) as [->|Hne].
    - rewrite lookup_insert_eq, Hi. split; intros (child & [= <-] & H); eexists; split;
        try done; congruence.
    - by rewrite lookup_insert_ne. }
  destruct (decide (p = i)) as [->|Hne].
  - rewrite lookup_insert_eq in Hlook. injection Hlook as <-.
    rewrite Hc. destruct (Hl i t Hi) as [Hnd Hmem]. split; [done|].
    intros c. by rewrite Hsame.
  - rewrite lookup_insert_ne in Hlook by done.
    destruct (Hl p parent Hlook) as [Hnd Hmem]. split; [done|].
    intros c. by rewrite Hsame.
Qed.

Lemma parent_lookup_cases (tasks : TaskStore.Tasks) (pid : option string) :
  tasks !! "" = None ->
  (if TaskStore.truthy pid then i ← pid; tasks !! i else None)
  = (i ← pid; tasks !! i).
Proof.
  intros Hempty. destruct pid as [[|c s]|]; simpl; try done.
Qed.

Lemma create_linked tasks now newId input :
  keyed tasks -> tasks !! "" = None -> linked tasks -> unused tasks newId input ->
  linked (TaskStore.create tasks now newId input).1.
Proof.
  intros Hk Hempty Hl (Hne & Hfresh & Hself & Hrefs).
  unfold TaskStore.create. rewrite (parent_lookup_cases tasks _ Hempty).
  match goal with
  | |- context [<[newId := ?t]> tasks] => set (task0 := t)
  end.
  destruct (in_parentId input ≫= _) as [par|] eqn:Hpar; cbn [fst].
  - destruct (in_parentId input) as [pid|] eqn:Hpid; [|done]. simpl in Hpar.
    assert (Hid : id par = pid) by by apply Hk.
    rewrite Hid.
    assert (Hneq : newId <> pid) by congruence.
    match goal with
    | |- linked (<[newId := ?t]> (<[pid := ?q]> tasks)) => set (task := t); set (par' := q)
    end.
    assert (Hnotin : newId ∉ childIds par).
    { intros Hin. apply (Hl pid par Hpar) in Hin as (child & Hc & _). congruence. }
    intros p parent Hlook.
    assert (Hchild : forall c q,
      (exists child, <[newId := task]> (<[pid := par']> tasks) !! c = Some child
                     /\ parentId child = Some q)
      <-> (c = newId /\ q = pid)
          \/ (exists child, tasks !! c = Some child /\ parentId child = Some q)).
    { intros c q. destruct (decide (c = newId)) as [->|Hc1].
      - rewrite lookup_insert_eq. split.
        + intros (child & [= <-] & H). left. simpl in H. split; congruence.
        + intros [[_ ->]|(child & Hc & _)]; [by eexists|congruence].
      - rewrite lookup_insert_ne by done.
        destruct (decide (c = pid)) as [->|Hc2].
        + rewrite lookup_insert_eq, Hpar. split.
          * intros (child & [= <-] & H). right. by eexists.
          * intros [[? _]|(child & [= <-] & H)]; [done|]. by eexists.
        + rewrite lookup_insert_ne by done. split; [by right|].
          intros [[? _]|?]; done. }
    destruct (decide (p = newId)) as [->|Hp1].
    + rewrite lookup_insert_eq in Hlook. injection Hlook as <-. simpl.
      split; [constructor|]. intros c. rewrite Hchild. split; [by intros ?%elem_of_nil|].
      intros [[_ ?]|(child & Hc & Hcp)]; [done|].
      by apply (Hrefs c child Hc) in Hcp.
    + rewrite lookup_insert_ne in Hlook by done.
      destruct (decide (p = pid)) as [->|Hp2].
      * rewrite lookup_insert_eq in Hlook. injection Hlook as <-. simpl.
        destruct (Hl pid par Hpar) as [Hnd Hmem]. split.
        { apply NoDup_app. split_and!; [done| |apply NoDup_singleton].
          intros x Hx ->%list_elem_of_singleton. done. }
        intros c. rewrite Hchild, elem_of_app, list_elem_of_singleton, Hmem.
        split; intros [H|H]; auto. destruct H as [-> _]. by right.
      * rewrite lookup_insert_ne in Hlook by done.
        destruct (Hl p parent Hlook) as [Hnd Hmem]. split; [done|].
        intros c. rewrite Hchild, Hmem. split; [by right|].
        intros [[_ ?]|?]; done.
  - intros p parent Hlook.
    assert (Hchild : forall c q,
      (exists child, <[newId := task0]> tasks !! c = Some child /\ parentId child = Some q)
      <-> (c = newId /\ in_parentId input = Some q)
          \/ (exists child, tasks !! c = Some child /\ parentId child = Some q)).
    { intros c q. destruct (decide (c = newId)) as [->|Hc1].
      - rewrite lookup_insert_eq. split.
        + intros (child & [= <-] & H). by left.
        + intros [[_ H]|(child & Hc & _)]; [by eexists|congruence].
      - rewrite lookup_insert_ne by done. split; [by right|].
        intros [[? _]|?]; done. }
    destruct (decide (p = newId)) as [->|Hp1].
    + rewrite lookup_insert_eq in Hlook. injection Hlook as <-. simpl.
      split; [constructor|]. intros c. rewrite Hchild. split; [by intros ?%elem_of_nil|].
      intros [[_ ?]|(child & Hc & Hcp)]; [done|].
      by apply (Hrefs c child Hc) in Hcp.
    + rewrite lookup_insert_ne in Hlook by done.
      destruct (Hl p parent Hlook) as [Hnd Hmem]. split; [done|].
      intros c. rewrite Hchild, Hmem. split; [by right|].
      intros [[_ Hq]|?]; [|done]. rewrite Hq in Hpar. simpl in Hpar. congruence.
Qed.

Lemma delete_linked tasks now i :
  keyed tasks -> tasks !! "" = None -> linked tasks ->
  linked (TaskStore.delete tasks now i true).1.
Proof.
  intros Hk Hempty Hl. unfold TaskStore.delete. cbn [negb].
  destruct (tasks !! i) as [task|] eqn:Hi; [|done].
  rewrite (parent_lookup_cases tasks _ Hempty). cbn [fst].
  destruct (parentId task ≫= _) as [par|] eqn:Hpar.
  - destruct (parentId task) as [pid|] eqn:Hpid; [|done]. simpl in Hpar.
    assert (Hid : id par = pid) by by apply Hk.
    rewrite Hid.
    match goal with
    | |- linked (base.delete i (<[pid := ?q]> tasks)) => set (par' := q)
    end.
    intros p parent Hlook.
    assert (Hpi : p <> i) by (intros ->; by rewrite lookup_delete_eq in Hlook).
    rewrite lookup_delete_ne in Hlook by done.
    assert (Hchild : forall c q,
      (exists child, base.delete i (<[pid := par']> tasks) !! c = Some child
                     /\ parentId child = Some q)
      <-> c <> i /\ exists child, tasks !! c = Some child /\ parentId child = Some q).
    { intros c q. destruct (decide (c = i)) as [->|Hc1].
      - rewrite lookup_delete_eq. split; [by intros (? & ? & _)|by intros [? _]].
      - rewrite lookup_delete_ne by done.
        destruct (decide (c = pid)) as [->|Hc2].
        + rewrite lookup_insert_eq, Hpar. split.
          * intros (child & [= <-] & H). split; [done|]. by eexists.
          * intros [_ (child & [= <-] & H)]. by eexists.
        + rewrite lookup_insert_ne by done. tauto. }
    destruct (decide (p = pid)) as [->|Hp2].
    + rewrite lookup_insert_eq in Hlook. injection Hlook as <-. simpl.
      destruct (Hl pid par Hpar) as [Hnd Hmem]. split; [by apply NoDup_filter|].
      intros c. rewrite Hchild, list_elem_of_filter, Hmem. done.
    + rewrite lookup_insert_ne in Hlook by done.
      destruct (Hl p parent Hlook) as [Hnd Hmem]. split; [done|].
      intros c. rewrite Hchild, Hmem. split; [|tauto].
      intros (child & Hc & Hcp). split; [|by eexists].
      intros ->. congruence.
  - intros p parent Hlook.
    assert (Hpi : p <> i) by (intros ->; by rewrite lookup_delete_eq in Hlook).
    rewrite lookup_delete_ne in Hlook by done.
    destruct (Hl p parent Hlook) as [Hnd Hmem]. split; [done|].
    intros c. rewrite Hmem. split.
    + intros (child & Hc & Hcp). exists child. split; [|done].
      rewrite lookup_delete_ne; [done|]. intros ->.
      rewrite Hi in Hc. injection Hc as <-. rewrite Hcp in Hpar. simpl in Hpar. congruence.
    + intros (child & Hc & Hcp). exists child. split; [|done].
      destruct (decide (c = i)) as [->|Hne]; [by rewrite lookup_delete_eq in Hc|].
      by rewrite lookup_delete_ne in Hc.
Qed.

Lemma applyOp_no_empty_id date_differs tz tasks op :
  keyed tasks -> tasks !! "" = None ->
  match op with OpCreate _ newId _ => newId <> "" | _ => True end ->
  applyOp date_differs tz tasks op !! "" = None.
Proof.
  intros Hk Hempty Hop.
  destruct op as [now newId input|now i updates explicit|now i|now i nd|now i explicit];
    simpl.
  - unfold TaskStore.create. rewrite (parent_lookup_cases tasks _ Hempty).
    destruct (in_parentId input ≫= _) as [par|] eqn:Hpar; cbn [fst].
    + destruct (in_parentId input) as [pid|]; [|done]. simpl in Hpar.
      rewrite (Hk _ _ Hpar).
      rewrite !lookup_insert_ne; [done|congruence|done].
    + by rewrite lookup_insert_ne.
  - unfold TaskStore.update. destruct explicit; [|done]. cbn [negb].
    destruct (tasks !! i) eqn:Hi; [|done]. cbn [fst].
    rewrite lookup_insert_ne; [done|congruence].
  - unfold TaskStore.complete.
    destruct (tasks !! i) eqn:Hi; [|done]. cbn [fst].
    rewrite lookup_insert_ne; [done|congruence].
  - unfold TaskStore.defer.
    destruct (tasks !! i) eqn:Hi; [|done]. cbn [fst].
    rewrite lookup_insert_ne; [done|congruence].
  - unfold TaskStore.delete. destruct explicit; [|done]. cbn [negb].
    destruct (tasks !! i) as [task|] eqn:Hi; [|done]. cbn [fst].
    rewrite (parent_lookup_cases tasks _ Hempty).
    rewrite lookup_delete_ne by congruence.
    destruct (parentId task ≫= _) as [par|] eqn:Hpar; [|done].
    destruct (parentId task) as [pid|]; [|done]. simpl in Hpar.
    rewrite (Hk _ _ Hpar). rewrite lookup_insert_ne; [done|congruence].
Qed.

Lemma applyOp_linked date_differs tz tasks op :
  keyed tasks -> tasks !! "" = None -> linked tasks ->
  match op with OpCreate _ newId input => unused tasks newId input | _ => True end ->
  linked (applyOp date_differs tz tasks op).
Proof.
  intros Hk Hempty Hl Hop.
  destruct op as [now newId input|now i updates explicit|now i|now i nd|now i explicit];
    simpl.
  - by apply create_linked.
  - unfold TaskStore.update. destruct explicit; [|done]. cbn [negb].
    destruct (tasks !! i) as [task|] eqn:Hi; [|done]. cbn [fst].
    destruct (foldl_assign_fixed updates task) as (_ & _ & Hp & Hc & _).
    by apply (linked_insert_same tasks i task).
  - unfold TaskStore.complete.
    destruct (tasks !! i) as [task|] eqn:Hi; [|done]. cbn [fst].
    by apply (linked_insert_same tasks i task).
  - unfold TaskStore.defer.
    destruct (tasks !! i) as [task|] eqn:Hi; [|done]. cbn [fst].
    by apply (linked_insert_same tasks i task).
  - destruct explicit; [by apply delete_linked|done].
Qed.

Lemma runOps_linked date_differs tz ops : forall tasks,
  keyed tasks -> tasks !! "" = None -> linked tasks ->
  freshIds date_differs tz tasks ops ->
  keyed (runOps date_differs tz tasks ops)
  /\ runOps date_differs tz tasks ops !! "" = None
  /\ linked (runOps date_differs tz tasks ops).
Proof.
  induction ops as [|op ops IH]; intros tasks Hk Hempty Hl Hfresh; [done|].
  destruct Hfresh as [Hop Hrest]. simpl. apply IH; [| | |done].
  - by apply applyOp_keyed.
  - apply applyOp_no_empty_id; [done|done|].
    destruct op; try done. by destruct Hop.
  - by apply applyOp_linked.
Qed.

(** X13.  Across any sequence of [create], [update], [complete], [defer]
    and [delete] calls in which [create] is always given an unused id,
    starting from a store whose links agree (the empty store, say), the
    links still agree at the end: every stored task is kept under its own
    id, and its [childIds] list, once each, exactly the ids of the stored
    tasks that name it as their parent. *)
Theorem hierarchy_links_stay_consistent :
  forall (date_differs : Date -> Date -> bool) (tz : TimeZone)
         (tasks : TaskStore.Tasks) (ops : list StoreOp),
    keyed tasks -> tasks !! "" = None -> linked tasks ->
    freshIds date_differs tz tasks ops ->
    keyed (runOps date_differs tz tasks ops)
    /\ linked (runOps date_differs tz tasks ops).
Proof.
  intros dd tz tasks ops Hk Hempty Hl Hfresh.
  destruct (runOps_linked dd tz ops tasks Hk Hempty Hl Hfresh) as (H1 & _ & H2).
  by split.
Qed.

Lemma hierarchy_links_stay_consistent_witness :
  let ops :=
    [ OpCreate 1 "p" (mkTaskInput "Plan the trip" None None None None None None None);
      OpCreate 2 "a" (mkTaskInput "Book the flights" None None (Some "p") None None None None);
      OpCreate 3 "b" (mkTaskInput "Reserve a room" None None (Some "p") None None None None);
      OpComplete 4 "a";
      OpDelete 5 "b" true ] in
  keyed (runOps (fun _ _ => true) (fixedZone 0) ∅ ops)
  /\ linked (runOps (fun _ _ => true) (fixedZone 0) ∅ ops).
Proof.
  intros ops.
  apply (hierarchy_links_stay_consistent (fun _ _ => true) (fixedZone 0) ∅ ops).
  - apply map_Forall_empty.
  - apply lookup_empty.
  - intros p parent Hp. by rewrite lookup_empty in Hp.
  - unfold ops, freshIds, unused.
    repeat split; try discriminate; try (vm_compute; reflexivity);
      apply (bool_decide_unpack _); vm_compute; reflexivity.
Defined.

(** ** Task store: queries, persistence and import *)

Lemma TaskStatus_str_inj a b : TaskStatus_str a = TaskStatus_str b -> a = b.
Proof. by destruct a, b. Qed.

Lemma PriorityLevel_str_inj a b : PriorityLevel_str a = PriorityLevel_str b -> a = b.
Proof. by destruct a, b. Qed.

Lemma includesStatus_spec l x : TaskStore.includesStatus l x = true <-> x ∈ l.
Proof.
  unfold TaskStore.includesStatus. rewrite existsb_exists. split.
  - intros (y & Hin & Heq%String.eqb_eq). apply TaskStatus_str_inj in Heq as ->.
    by apply list_elem_of_In.
  - intros Hin. exists x. split; [by apply list_elem_of_In|apply String.eqb_refl].
Qed.

Lemma includesPriority_spec l x : TaskStore.includesPriority l x = true <-> x ∈ l.
Proof.
  unfold TaskStore.includesPriority. rewrite existsb_exists. split.
  - intros (y & Hin & Heq%String.eqb_eq). apply PriorityLevel_str_inj in Heq as ->.
    by apply list_elem_of_In.
  - intros Hin. exists x. split; [by apply list_elem_of_In|apply String.eqb_refl].
Qed.

Lemma filterAll_spec :
  forall (tz : TimeZone) (f : TaskFilter) (all : list Task),
    sublist (TaskStore.filterAll tz (Some f) all) all
    /\ forall t,
         t ∈ TaskStore.filterAll tz (Some f) all <->
         t ∈ all
         /\ (forall x l, f_status f = Some (x :: l) -> status t ∈ x :: l)
         /\ (forall x l, f_priority f = Some (x :: l) -> priority t ∈ x :: l)
         /\ (forall s e, f_dateRange f = Some (s, e) ->
               exists sd, scheduledDate t = Some sd /\ s <= sd <= e)
         /\ (forall pid, f_parentId f = Some pid -> parentId t = Some pid)
         /\ (forall target, f_scheduledDate f = Some target ->
               exists sd, scheduledDate t = Some sd
                          /\ setHours tz sd 0 0 0 0 = setHours tz target 0 0 0 0).
Proof.
  intros tz f all. unfold TaskStore.filterAll, TaskStore.applyFilter.
  destruct f as [fs fp fr fpar fsd]. cbn [f_status f_priority f_dateRange f_parentId
    f_scheduledDate].
  set (l1 := match fs with Some (x :: l) => _ | _ => all end).
  set (l2 := match fp with Some (x :: l) => _ | _ => l1 end).
  set (l3 := match fr with Some range => _ | None => l2 end).
  set (l4 := match fpar with Some pid => _ | None => l3 end).
  set (l5 := match fsd with Some target => _ | None => l4 end).
  assert (H1 : sublist l1 all /\ forall t, t ∈ l1 <->
            t ∈ all /\ forall x l, fs = Some (x :: l) -> status t ∈ x :: l).
  { unfold l1. destruct fs as [[|x l]|].
    - split; [done|]. intros t. split; [by intros ?|by intros [? _]].
    - split; [apply sublist_filter|]. intros t.
      rewrite list_elem_of_filter, includesStatus_spec. split.
      + intros [? ?]. split; [done|]. by intros ? ? [= <- <-].
      + intros [? H]. split; [by apply H|done].
    - split; [done|]. intros t. split; [by intros ?|by intros [? _]]. }
  assert (H2 : sublist l2 l1 /\ forall t, t ∈ l2 <->
            t ∈ l1 /\ forall x l, fp = Some (x :: l) -> priority t ∈ x :: l).
  { unfold l2. destruct fp as [[|x l]|].
    - split; [done|]. intros t. split; [by intros ?|by intros [? _]].
    - split; [apply sublist_filter|]. intros t.
      rewrite list_elem_of_filter, includesPriority_spec. split.
      + intros [? ?]. split; [done|]. by intros ? ? [= <- <-].
      + intros [? H]. split; [by apply H|done].
    - split; [done|]. intros t. split; [by intros ?|by intros [? _]]. }
  assert (H3 : sublist l3 l2 /\ forall t, t ∈ l3 <->
            t ∈ l2 /\ forall s e, fr = Some (s, e) ->
                        exists sd, scheduledDate t = Some sd /\ s <= sd <= e).
  { unfold l3. destruct fr as [[s e]|].
    - split; [apply sublist_filter|]. intros t.
      rewrite list_elem_of_filter. unfold TaskStore.inDateRange. cbn [fst snd]. split.
      + intros [H ?]. split; [done|]. intros ? ? [= <- <-].
        destruct (scheduledDate t) as [sd|]; [|done]. exists sd. split; [done|].
        apply andb_true_iff in H. lia.
      + intros [? H]. split; [|done]. destruct (H s e eq_refl) as (sd & -> & Hr).
        apply andb_true_iff. lia.
    - split; [done|]. intros t. split; [by intros ?|by intros [? _]]. }
  assert (H4 : sublist l4 l3 /\ forall t, t ∈ l4 <->
            t ∈ l3 /\ forall pid, fpar = Some pid -> parentId t = Some pid).
  { unfold l4. destruct fpar as [pid|].
    - split; [apply sublist_filter|]. intros t.
      rewrite list_elem_of_filter. unfold TaskStore.hasParent. split.
      + intros [H ?]. split; [done|]. intros ? [= <-].
        destruct (parentId t) as [p|]; [|done]. by apply String.eqb_eq in H as ->.
      + intros [? H]. split; [|done]. rewrite (H pid eq_refl). apply String.eqb_refl.
    - split; [done|]. intros t. split; [by intros ?|by intros [? _]]. }
  assert (H5 : sublist l5 l4 /\ forall t, t ∈ l5 <->
            t ∈ l4 /\ forall target, fsd = Some target ->
                        exists sd, scheduledDate t = Some sd
                                   /\ setHours tz sd 0 0 0 0 = setHours tz target 0 0 0 0).
  { unfold l5. destruct fsd as [target|].
    - split; [apply sublist_filter|]. intros t.
      rewrite list_elem_of_filter. unfold TaskStore.scheduledOn. split.
      + intros [H ?]. split; [done|]. intros ? [= <-].
        destruct (scheduledDate t) as [sd|]; [|done]. exists sd. split; [done|]. lia.
      + intros [? H]. split; [|done]. destruct (H target eq_refl) as (sd & -> & Hr).
        lia.
    - split; [done|]. intros t. split; [by intros ?|by intros [? _]]. }
  destruct H1 as [S1 M1], H2 as [S2 M2], H3 as [S3 M3], H4 as [S4 M4], H5 as [S5 M5].
  split.
  - by repeat (etrans; [eassumption|]).
  - intros t. rewrite M5, M4, M3, M2, M1. tauto.
Qed.

(** X14.  [getAll(filter)] returns, in the order of the unfiltered array,
    exactly the tasks that meet every criterion present in the filter: status
    and priority among the listed ones (an empty list is no criterion), a
    scheduled date within the range, the given parent id, and a scheduled
    date whose local midnight is that of the given date.  Tasks without a
    scheduled date never pass a date criterion. *)
Theorem getAll_filter_selects :
  forall (tz : TimeZone) (tasks : TaskStore.Tasks) (f : TaskFilter),
    sublist (TaskStore.getAllWith tz tasks (Some f)) (TaskStore.getAll tasks)
    /\ forall t,
         t ∈ TaskStore.getAllWith tz tasks (Some f) <->
         t ∈ TaskStore.getAll tasks
         /\ (forall x l, f_status f = Some (x :: l) -> status t ∈ x :: l)
         /\ (forall x l, f_priority f = Some (x :: l) -> priority t ∈ x :: l)
         /\ (forall s e, f_dateRange f = Some (s, e) ->
               exists sd, scheduledDate t = Some sd /\ s <= sd <= e)
         /\ (forall pid, f_parentId f = Some pid -> parentId t = Some pid)
         /\ (forall target, f_scheduledDate f = Some target ->
               exists sd, scheduledDate t = Some sd
                          /\ setHours tz sd 0 0 0 0 = setHours tz target 0 0 0 0).
Proof. intros tz tasks f. apply filterAll_spec. Qed.

(** In a fixed-offset zone two instants have the same local midnight exactly
    when they fall on the same local calendar day. *)
Lemma same_local_midnight offset a b :
  setHours (fixedZone offset) a 0 0 0 0 = setHours (fixedZone offset) b 0 0 0 0
  <-> Day (LocalTime (fixedZone offset) a) = Day (LocalTime (fixedZone offset) b).
Proof.
  unfold setHours, UTC, LocalTime, fixedZone, MakeDate, MakeTime, msPerDay. simpl.
  split; intros H; lia.
Qed.

(** X15.  [count] follows the operations: a [create] under an unused id adds
    one task, a [delete] of a stored task removes one, and [update],
    [complete] and [defer] never change the number of tasks. *)
Theorem count_follows_the_operations :
  forall (date_differs : Date -> Date -> bool) (tz : TimeZone) (tasks : TaskStore.Tasks)
         (now : Date),
    keyed tasks ->
    (forall newId input, tasks !! newId = None ->
       TaskStore.count (TaskStore.create tasks now newId input).1
       = S (TaskStore.count tasks))
    /\ (forall i task, tasks !! i = Some task ->
          S (TaskStore.count (TaskStore.delete tasks now i true).1) = TaskStore.count tasks)
    /\ (forall i updates explicit,
          TaskStore.count (TaskStore.update date_differs tasks now i updates explicit).1
          = TaskStore.count tasks)
    /\ (forall i, TaskStore.count (TaskStore.complete tasks now i).1 = TaskStore.count tasks)
    /\ (forall i newDate,
          TaskStore.count (TaskStore.defer tz tasks now i newDate).1 = TaskStore.count tasks).
Proof.
  intros dd tz tasks now Hk. unfold TaskStore.count. split_and!.
  - intros newId input Hfresh. unfold TaskStore.create.
    destruct (if TaskStore.truthy (in_parentId input) then _ else _) as [par|] eqn:Hpar;
      cbn [fst].
    + apply parent_lookup in Hpar; [|done].
      rewrite map_size_insert_None.
      * by rewrite map_size_insert_Some.
      * rewrite lookup_insert_ne; [done|congruence].
    + by rewrite map_size_insert_None.
  - intros i task Hi. unfold TaskStore.delete. rewrite Hi. cbn [negb fst].
    destruct (if TaskStore.truthy (parentId task) then _ else _) as [par|] eqn:Hpar.
    + apply parent_lookup in Hpar; [|done].
      rewrite map_size_delete_Some.
      * rewrite map_size_insert_Some by done.
        assert (size tasks <> 0%nat); [|lia].
        intros Hz%map_size_empty_inv. by rewrite Hz in Hi.
      * destruct (decide (id par = i)) as [->|Hne];
          [by rewrite lookup_insert_eq|by rewrite lookup_insert_ne].
    + rewrite map_size_delete_Some by done.
      assert (size tasks <> 0%nat); [|lia].
      intros Hz%map_size_empty_inv. by rewrite Hz in Hi.
  - intros i updates explicit. unfold TaskStore.update.
    destruct explicit; [|done]. cbn [negb].
    destruct (tasks !! i) eqn:Hi; [|done]. cbn [fst]. by rewrite map_size_insert_Some.
  - intros i. unfold TaskStore.complete.
    destruct (tasks !! i) eqn:Hi; [|done]. cbn [fst]. by rewrite map_size_insert_Some.
  - intros i newDate. unfold TaskStore.defer.
    destruct (tasks !! i) eqn:Hi; [|done]. cbn [fst]. by rewrite map_size_insert_Some.
Qed.

Lemma count_follows_the_operations_witness :
  let t0 := plainTask "a" "Pay rent" 0 None medium in
  let tasks : TaskStore.Tasks := {[ "a" := t0 ]} in
  (forall newId input, tasks !! newId = None ->
     TaskStore.count (TaskStore.create tasks 5 newId input).1 = S (TaskStore.count tasks))
  /\ (forall i task, tasks !! i = Some task ->
        S (TaskStore.count (TaskStore.delete tasks 5 i true).1) = TaskStore.count tasks)
  /\ (forall i updates explicit,
        TaskStore.count (TaskStore.update (fun _ _ => true) tasks 5 i updates explicit).1
        = TaskStore.count tasks)
  /\ (forall i, TaskStore.count (TaskStore.complete tasks 5 i).1 = TaskStore.count tasks)
  /\ (forall i newDate,
        TaskStore.count (TaskStore.defer (fixedZone 0) tasks 5 i newDate).1
        = TaskStore.count tasks).
Proof.
  intros t0 tasks.
  apply (count_follows_the_operations (fun _ _ => true) (fixedZone 0) tasks 5).
  apply (bool_decide_unpack _). vm_compute. reflexivity.
Defined.

(** *** Persisting and reloading *)

Lemma deserializeTask_serializeTask task :
  valid_task task -> deserializeTask (serializeTask task) = Some task.
Proof.
  intros (Hc & Hu & Hd & Hs & Hh).
  unfold deserializeTask, serializeTask. cbn [s_createdAt s_updatedAt s_deadline
    s_scheduledDate s_history].
  rewrite !parse_toISOString by done. cbn [mbind option_bind].
  rewrite !optionalDate_toISOString by done. cbn [mbind option_bind].
  rewrite deserializeHistory_serialize by done. cbn [mbind option_bind].
  by destruct task.
Qed.

Lemma foldl_set_lookup (l : list Task) : forall m0 : TaskStore.Tasks,
  NoDup (id <$> l) ->
  (forall t, t ∈ l -> foldl (fun m t => <[id t := t]> m) m0 l !! id t = Some t)
  /\ (forall k, k ∉ id <$> l -> foldl (fun m t => <[id t := t]> m) m0 l !! k = m0 !! k).
Proof.
  induction l as [|x l IH]; intros m0 Hnd.
  - split; [by intros t ?%elem_of_nil|done].
  - rewrite fmap_cons in Hnd. apply NoDup_cons in Hnd as [Hx Hnd].
    destruct (IH (<[id x := x]> m0) Hnd) as [IH1 IH2]. simpl. split.
    + intros t [->|Ht]%elem_of_cons; [|by apply IH1].
      rewrite IH2 by done. apply lookup_insert_eq.
    + intros k Hk. change (id <$> x :: l) with (id x :: (id <$> l)) in Hk.
      apply not_elem_of_cons in Hk as [Hk1 Hk2].
      rewrite IH2 by done. by rewrite lookup_insert_ne.
Qed.

Lemma foldl_set_values (tasks : TaskStore.Tasks) :
  keyed tasks ->
  foldl (fun m t => <[id t := t]> m) ∅ (TaskStore.getAll tasks) = tasks.
Proof.
  intros Hk. unfold TaskStore.getAll.
  assert (Hids : id <$> (map_to_list tasks).*2 = (map_to_list tasks).*1).
  { rewrite <- list_fmap_compose. apply Forall_fmap_ext, Forall_forall.
    intros [k t] Hin%elem_of_map_to_list. simpl. by apply Hk. }
  assert (Hnd : NoDup (id <$> (map_to_list tasks).*2)).
  { rewrite Hids. apply NoDup_fst_map_to_list. }
  destruct (foldl_set_lookup _ ∅ Hnd) as [H1 H2].
  apply map_eq. intros k. destruct (tasks !! k) as [t|] eqn:Ht.
  - rewrite <- (Hk _ _ Ht). apply H1.
    apply list_elem_of_fmap. exists (k, t). split; [done|]. by apply elem_of_map_to_list.
  - rewrite H2; [apply lookup_empty|].
    rewrite Hids. intros ((k' & t) & -> & Hin%elem_of_map_to_list)%list_elem_of_fmap.
    simpl in Ht. congruence.
Qed.

Lemma foldl_deserialize (l : list Task) : forall m0 : TaskStore.Tasks,
  Forall valid_task l ->
  foldl (fun acc data =>
           tasks ← acc; task ← deserializeTask data; Some (<[id task := task]> tasks))
    (Some m0) (serializeTask <$> l)
  = Some (foldl (fun m t => <[id t := t]> m) m0 l).
Proof.
  induction l as [|x l IH]; intros m0 Hv; [done|].
  apply Forall_cons in Hv as [Hx Hv]. simpl.
  rewrite deserializeTask_serializeTask by done. simpl. by apply IH.
Qed.

(** X16.  A store that persists its tasks through an adapter from which
    what was saved can be loaded again (such as [MemoryStorageAdapter]), and
    a fresh store that is then initialised from that adapter: the fresh store
    holds exactly the tasks of the first one, every field and every date
    included. *)
Theorem reload_restores_the_store :
  forall (S : Type) (adapter : StorageAdapter S) (storage : S) (tasks : TaskStore.Tasks),
    (forall st data, load (save st data) = data) ->
    keyed tasks ->
    map_Forall (fun _ t => valid_task t) tasks ->
    TaskStore.initialize (TaskStore.persist (Some storage) tasks) ∅ = Some tasks.
Proof.
  intros S adapter storage tasks Hlaw Hk Hv.
  unfold TaskStore.persist, TaskStore.initialize. rewrite Hlaw.
  rewrite foldl_deserialize.
  - by rewrite foldl_set_values.
  - unfold TaskStore.getAll. apply Forall_forall.
    intros t ((k & t') & -> & Hin%elem_of_map_to_list)%list_elem_of_fmap.
    by apply (Hv k).
Qed.

Lemma reload_restores_the_store_witness :
  let t0 := plainTask "a" "Pay rent" 1700000000000 (Some 1700500000000) medium in
  let t1 := completedTask "b" "Draft agenda" 1700000000000 1700003600000 in
  let tasks : TaskStore.Tasks := {[ "a" := t0; "b" := t1 ]} in
  TaskStore.initialize
    (TaskStore.persist (Some ([] : MemoryStorageAdapter.t)) tasks) ∅ = Some tasks.
Proof.
  intros t0 t1 tasks.
  apply (reload_restores_the_store MemoryStorageAdapter.t MemoryStorageAdapter_adapter
           [] tasks).
  - reflexivity.
  - apply (bool_decide_unpack _). vm_compute. reflexivity.
  - intros k t Hkt.
    assert (Hcases : t = t0 \/ t = t1).
    { unfold tasks in Hkt.
      destruct (decide (k = "a")) as [->|Ha].
      - rewrite lookup_insert_eq in Hkt. left. congruence.
      - rewrite lookup_insert_ne in Hkt by done.
        destruct (decide (k = "b")) as [->|Hb].
        + rewrite lookup_singleton_eq in Hkt. right. congruence.
        + by rewrite lookup_singleton_ne in Hkt. }
    destruct Hcases as [-> | ->];
      unfold valid_task, valid_entry, valid, maxTime; simpl;
      (split; [lia|]); (split; [lia|]);
      (split; [intros d; try (intros [= <-]; lia); discriminate|]);
      (split; [intros d; try (intros [= <-]; lia); discriminate|]);
      repeat constructor; simpl; lia.
Defined.

(** *** Importing *)

Lemma deserializeTaskBy_parse data : deserializeTaskBy parse data = deserializeTask data.
Proof. reflexivity. Qed.

Lemma importLoop_spec (newDate : string -> option Date) (generateId : nat -> string)
    (clock : nat -> Date) (data : list SerializedTask) (originals : list Task) :
  Forall2 (fun d t => deserializeTaskBy newDate d = Some t) data originals ->
  forall (k : nat) (tasks : TaskStore.Tasks) (acc : list Task),
    (forall n, (n < length data)%nat -> tasks !! generateId (k + n)%nat = None) ->
    (forall m n, (m < n < length data)%nat -> generateId (k + m)%nat <> generateId (k + n)%nat) ->
    exists tasks',
      TaskStore.importLoop newDate generateId clock k tasks data acc
      = Some (tasks',
              acc ++ imap (fun n t =>
                             TaskStore.importedTask t (generateId (k + n)%nat) (clock (k + n)%nat))
                       originals)
      /\ (forall i, (forall n, (n < length data)%nat -> i <> generateId (k + n)%nat) ->
            tasks' !! i = tasks !! i)
      /\ (forall n t, originals !! n = Some t ->
            tasks' !! generateId (k + n)%nat
            = Some (TaskStore.importedTask t (generateId (k + n)%nat) (clock (k + n)%nat)))
      /\ size tasks' = (size tasks + length data)%nat.
Proof.
  induction 1 as [|d t data originals Hd Hall IH]; intros k tasks acc Hfresh Hinj.
  - exists tasks. simpl. rewrite app_nil_r. split_and!; [done|done| |lia].
    intros n t Hn. by rewrite lookup_nil in Hn.
  - cbn [TaskStore.importLoop]. rewrite Hd. cbn [mbind option_bind].
    set (it := TaskStore.importedTask t (generateId k) (clock k)).
    destruct (IH (S k) (<[generateId k := it]> tasks) (acc ++ [it])) as (tasks' & Heq & Hold & Hnew & Hsize).
    + intros n Hn. rewrite lookup_insert_ne.
      * replace (S k + n)%nat with (k + S n)%nat by lia. apply Hfresh. simpl. lia.
      * replace (S k + n)%nat with (k + S n)%nat by lia.
        replace k with (k + 0)%nat at 1 by lia. apply Hinj. simpl. lia.
    + intros m n Hmn.
      replace (S k + m)%nat with (k + S m)%nat by lia.
      replace (S k + n)%nat with (k + S n)%nat by lia.
      apply Hinj. simpl. lia.
    + exists tasks'. split_and!.
      * rewrite Heq. do 2 f_equal. rewrite <- app_assoc. f_equal. simpl.
        unfold it. rewrite Nat.add_0_r. f_equal.
        apply imap_ext. intros n x _. unfold compose.
        by replace (k + S n)%nat with (S k + n)%nat by lia.
      * intros i Hi. rewrite Hold.
        -- rewrite lookup_insert_ne; [done|]. specialize (Hi 0%nat). rewrite Nat.add_0_r in Hi.
           intros E. apply Hi; [simpl; lia|done].
        -- intros n Hn. replace (S k + n)%nat with (k + S n)%nat by lia.
           apply Hi. simpl. lia.
      * intros [|n] x Hx.
        -- simpl in Hx. injection Hx as <-. rewrite Nat.add_0_r. rewrite Hold.
           ++ apply lookup_insert_eq.
           ++ intros n Hn. replace (S k + n)%nat with (k + S n)%nat by lia.
              replace k with (k + 0)%nat at 1 by lia. apply Hinj. simpl. lia.
        -- simpl in Hx. replace (k + S n)%nat with (S k + n)%nat by lia. by apply Hnew.
      * rewrite Hsize. rewrite map_size_insert_None.
        -- simpl. lia.
        -- specialize (Hfresh 0%nat). rewrite Nat.add_0_r in Hfresh. apply Hfresh. simpl. lia.
Qed.



(** ** Progress manager: the progress of a day *)

Lemma plainTask_valid i ttl created dl p :
  valid created -> (forall d, dl = Some d -> valid d) ->
  valid_task (plainTask i ttl created dl p).
Proof.
  intros Hc Hd. unfold valid_task, plainTask. simpl.
  split_and!; [done|done|done|done|]. apply Forall_cons_2; [exact Hc|apply Forall_nil_2].
Qed.

Lemma completedTask_valid i ttl created at_ :
  valid created -> valid at_ -> valid_task (completedTask i ttl created at_).
Proof.
  intros Hc Ha. unfold valid_task, completedTask. simpl.
  split_and!; [done|done|done|done|].
  apply Forall_cons_2; [exact Hc|]. apply Forall_cons_2; [exact Ha|apply Forall_nil_2].
Qed.

Lemma valid_range t : - maxTime <= t <= maxTime -> valid t.
Proof. done. Qed.

Lemma completionOf_valid task ts :
  valid_task task -> completionOf task = Some ts -> valid ts.
Proof.
  intros (_ & _ & _ & _ & Hh) Hc. unfold completionOf in Hc.
  destruct (status task); try done.
  destruct (find ProgressManager.isCompletedEntry (history task)) as [e|] eqn:He; [|done].
  injection Hc as <-. apply find_some in He as [Hin _].
  rewrite Forall_forall in Hh. apply Hh. by apply list_elem_of_In.
Qed.

(** Two day strings are equal exactly when the dates fall on the same UTC
    day. *)
Lemma formatDate_eqb t1 t2 :
  valid t1 -> valid t2 ->
  String.eqb (ProgressManager.formatDate t1) (ProgressManager.formatDate t2) = true
  <-> Day t1 = Day t2.
Proof.
  intros H1 H2. rewrite String.eqb_eq. split; [by apply formatDate_inj|apply formatDate_Day].
Qed.

Lemma isOnDate_spec date task :
  valid date -> valid_task task ->
  ProgressManager.isOnDate (ProgressManager.formatDate date) task = true
  <-> onDay (Day date) task.
Proof.
  intros Hd Hv. unfold ProgressManager.isOnDate, onDay. rewrite orb_true_iff.
  assert (Hs : match scheduledDate task with
               | Some sd => String.eqb (ProgressManager.formatDate sd)
                              (ProgressManager.formatDate date)
               | None => false
               end = true
               <-> exists sd, scheduledDate task = Some sd /\ Day sd = Day date).
  { destruct Hv as (_ & _ & _ & Hsd & _).
    destruct (scheduledDate task) as [sd|].
    - rewrite formatDate_eqb by auto. split; [by exists sd|by intros (? & [= <-] & ?)].
    - split; [done|by intros (? & ? & _)]. }
  assert (Hc : match status task with
               | completed =>
                   match find ProgressManager.isCompletedEntry (history task) with
                   | Some completedEntry =>
                       String.eqb (ProgressManager.formatDate (timestamp completedEntry))
                         (ProgressManager.formatDate date)
                   | None => false
                   end
               | _ => false
               end = true
               <-> exists ts, completionOf task = Some ts /\ Day ts = Day date).
  { pose proof (completionOf_valid task) as Hval. unfold completionOf in *.
    destruct (status task); try (split; [done|by intros (? & ? & _)]).
    destruct (find ProgressManager.isCompletedEntry (history task)) as [e|]; simpl in *.
    - rewrite formatDate_eqb by auto. split; [by exists (timestamp e)|by intros (? & [= <-] & ?)].
    - split; [done|by intros (? & ? & _)]. }
  by rewrite Hs, Hc.
Qed.

Lemma isCompleted_spec task : ProgressManager.isCompleted task = true <-> status task = completed.
Proof. unfold ProgressManager.isCompleted. by destruct (status task). Qed.

Lemma length_filter_all {A} (P : A -> Prop) `{!forall x, Decision (P x)} (l : list A) :
  length (filter P l) = length l <-> Forall P l.
Proof.
  induction l as [|x l IH].
  - split; [constructor|done].
  - rewrite filter_cons. destruct (decide (P x)) as [Hx|Hx]; simpl.
    + rewrite Forall_cons. split.
      * intros [= Hlen]. split; [done|]. by apply IH.
      * intros [_ Hall]. f_equal. by apply IH.
    + pose proof (length_filter P l). split; [lia|].
      by intros [? _]%Forall_cons.
Qed.

(** X18.  The progress of a day counts by UTC day: a task is counted in
    [totalCount] when it is scheduled for the UTC day of the date given or its
    first ['completed'] history entry (its status being ['completed']) bears
    that UTC day, and in [completedCount] when in addition its status is
    ['completed'].  The counts satisfy
    [0 <= completedCount <= totalCount <= allTasks.length], [completedTaskIds]
    has [completedCount] elements, and [getTodayProgress] is the progress of
    the current date. *)
Theorem day_progress_counts_by_utc_day :
  forall (date : Date) (allTasks : list Task),
    valid date -> Forall valid_task allTasks ->
    let progress := ProgressManager.getProgressForDate date allTasks in
    ProgressManager.dp_date progress = ProgressManager.formatDate date
    /\ 0 <= ProgressManager.completedCount progress <= ProgressManager.totalCount progress
    /\ ProgressManager.totalCount progress <= Z.of_nat (length allTasks)
    /\ Z.of_nat (length (ProgressManager.completedTaskIds progress))
       = ProgressManager.completedCount progress
    /\ (exists dayTasks,
          sublist dayTasks allTasks
          /\ (forall t, t ∈ dayTasks <-> t ∈ allTasks /\ onDay (Day date) t)
          /\ ProgressManager.totalCount progress = Z.of_nat (length dayTasks)
          /\ ProgressManager.completedTaskIds progress
             = id <$> filter (fun t => status t = completed) dayTasks)
    /\ ProgressManager.getTodayProgress date allTasks = progress.
Proof.
  intros date allTasks Hd Hv progress.
  unfold progress, ProgressManager.getProgressForDate, ProgressManager.progressOn.
  cbn [ProgressManager.dp_date ProgressManager.completedCount ProgressManager.totalCount
       ProgressManager.completedTaskIds].
  set (dayTasks := filter (fun task => ProgressManager.isOnDate _ task = true) allTasks).
  set (done_ := filter (fun t => ProgressManager.isCompleted t = true) dayTasks).
  pose proof (length_filter (fun t => ProgressManager.isCompleted t = true) dayTasks) as H1.
  pose proof (length_filter (fun task => ProgressManager.isOnDate
                (ProgressManager.formatDate date) task = true) allTasks) as H2.
  fold dayTasks in H2. fold done_ in H1.
  split_and!; [done|lia|lia|lia|by rewrite length_fmap| |done].
  exists dayTasks. split_and!.
  - apply sublist_filter.
  - intros t. unfold dayTasks. rewrite list_elem_of_filter. split.
    + intros [Hon Hin]. split; [done|]. apply isOnDate_spec; [done| |done].
      rewrite Forall_forall in Hv. by apply Hv.
    + intros [Hin Hon]. split; [|done]. apply isOnDate_spec; [done| |done].
      rewrite Forall_forall in Hv. by apply Hv.
  - done.
  - f_equal. unfold done_. apply list_filter_iff. intros t. apply isCompleted_spec.
Qed.

Lemma day_progress_counts_by_utc_day_witness :
  let now := 1730732400000 in
  let allTasks :=
    [ completedTask "a" "Draft agenda" 0 (now - 2 * msPerDay);
      completedTask "c" "Send minutes" 0 (now - msPerHour);
      plainTask "d" "Book room" 0 None medium ] in
  let progress := ProgressManager.getProgressForDate now allTasks in
  ProgressManager.dp_date progress = ProgressManager.formatDate now
  /\ 0 <= ProgressManager.completedCount progress <= ProgressManager.totalCount progress
  /\ ProgressManager.totalCount progress <= Z.of_nat (length allTasks)
  /\ Z.of_nat (length (ProgressManager.completedTaskIds progress))
     = ProgressManager.completedCount progress
  /\ (exists dayTasks,
        sublist dayTasks allTasks
        /\ (forall t, t ∈ dayTasks <-> t ∈ allTasks /\ onDay (Day now) t)
        /\ ProgressManager.totalCount progress = Z.of_nat (length dayTasks)
        /\ ProgressManager.completedTaskIds progress
           = id <$> filter (fun t => status t = completed) dayTasks)
  /\ ProgressManager.getTodayProgress now allTasks = progress.
Proof.
  intros now allTasks.
  apply (day_progress_counts_by_utc_day now allTasks).
  - vm_compute. split; discriminate.
  - repeat first [apply Forall_cons_2 | apply Forall_nil_2
                  | apply completedTask_valid | apply plainTask_valid
                  | (apply valid_range; vm_compute; split; discriminate)
                  | (intros d; discriminate) ].
Defined.

(** X19.  [isAllDoneToday] holds exactly when at least one task belongs to
    the current UTC day and every task that does has the status
    ['completed']. *)
Theorem all_done_today_iff :
  forall (now : Date) (allTasks : list Task),
    valid now -> Forall valid_task allTasks ->
    ProgressManager.isAllDoneToday now allTasks = true
    <-> (exists t, t ∈ allTasks /\ onDay (Day now) t)
        /\ (forall t, t ∈ allTasks -> onDay (Day now) t -> status t = completed).
Proof.
  intros now allTasks Hd Hv.
  unfold ProgressManager.isAllDoneToday, ProgressManager.getTodayProgress,
    ProgressManager.progressOn.
  cbn [ProgressManager.completedCount ProgressManager.totalCount].
  set (dayTasks := filter (fun task => ProgressManager.isOnDate _ task = true) allTasks).
  assert (Hmem : forall t, t ∈ dayTasks <-> t ∈ allTasks /\ onDay (Day now) t).
  { intros t. unfold dayTasks. rewrite list_elem_of_filter.
    rewrite Forall_forall in Hv. split.
    - intros [Hon Hin]. split; [done|]. apply isOnDate_spec; auto.
    - intros [Hin Hon]. split; [|done]. apply isOnDate_spec; auto. }
  rewrite andb_true_iff, Z.ltb_lt, Z.eqb_eq, Nat2Z.inj_iff, length_filter_all.
  rewrite Forall_forall. split.
  - intros [Hpos Hall]. split.
    + destruct dayTasks as [|t l] eqn:E; [simpl in Hpos; lia|].
      exists t. apply Hmem. by left.
    + intros t Hin Hon. apply isCompleted_spec, Hall, Hmem. by split.
  - intros [(t & Hin & Hon) Hall]. split.
    + assert (Ht : t ∈ dayTasks) by by apply Hmem.
      destruct dayTasks; [by apply elem_of_nil in Ht|simpl; lia].
    + intros t' [Hin' Hon']%Hmem. apply isCompleted_spec. by apply Hall.
Qed.

Lemma all_done_today_iff_witness :
  let now := 1730732400000 in
  let allTasks :=
    [ completedTask "c" "Send minutes" 0 (now - msPerHour);
      plainTask "d" "Book room" 0 None medium ] in
  ProgressManager.isAllDoneToday now allTasks = true
  <-> (exists t, t ∈ allTasks /\ onDay (Day now) t)
      /\ (forall t, t ∈ allTasks -> onDay (Day now) t -> status t = completed).
Proof.
  intros now allTasks.
  apply (all_done_today_iff now allTasks).
  - vm_compute. split; discriminate.
  - repeat first [apply Forall_cons_2 | apply Forall_nil_2
                  | apply completedTask_valid | apply plainTask_valid
                  | (apply valid_range; vm_compute; split; discriminate)
                  | (intros d; discriminate) ].
Defined.

(** X20.  In a time zone with a fixed offset [getWeeklyProgress] is the
    progress of the seven dates from six days (of 24 hours) before the
    current date up to the current date, oldest first; its last entry is
    [getTodayProgress].  The current date is taken at least eight days from
    the ends of the range of dates. *)
Theorem weekly_progress_is_the_last_seven_days :
  forall (offset : Z) (today : Date) (allTasks : list Task),
    clearOfLimits today ->
    ProgressManager.getWeeklyProgress (fixedZone offset) today allTasks
    = (fun i => ProgressManager.getProgressForDate (today - i * msPerDay) allTasks)
        <$> [6; 5; 4; 3; 2; 1; 0]
    /\ length (ProgressManager.getWeeklyProgress (fixedZone offset) today allTasks) = 7%nat
    /\ last (ProgressManager.getWeeklyProgress (fixedZone offset) today allTasks)
       = Some (ProgressManager.getTodayProgress today allTasks).
Proof.
  intros offset today allTasks _.
  assert (Hshift : forall i,
    setDate (fixedZone offset) today (getDate (fixedZone offset) today - i)
    = today - i * msPerDay).
  { intros i. replace (getDate (fixedZone offset) today - i)
      with (getDate (fixedZone offset) today + - i) by lia.
    rewrite setDate_shift. lia. }
  unfold ProgressManager.getWeeklyProgress. cbn [fmap list_fmap].
  rewrite !Hshift. split_and!; [done|done|].
  cbn [last]. by replace (today - 0 * msPerDay) with today by lia.
Qed.

Lemma weekly_progress_is_the_last_seven_days_witness :
  let today := 1730732400000 in
  let allTasks :=
    [ completedTask "a" "Draft agenda" 0 (today - 2 * msPerDay);
      plainTask "d" "Book room" 0 None medium ] in
  ProgressManager.getWeeklyProgress (fixedZone (-18000000)) today allTasks
  = (fun i => ProgressManager.getProgressForDate (today - i * msPerDay) allTasks)
      <$> [6; 5; 4; 3; 2; 1; 0]
  /\ length (ProgressManager.getWeeklyProgress (fixedZone (-18000000)) today allTasks)
     = 7%nat
  /\ last (ProgressManager.getWeeklyProgress (fixedZone (-18000000)) today allTasks)
     = Some (ProgressManager.getTodayProgress today allTasks).
Proof.
  intros today allTasks.
  apply (weekly_progress_is_the_last_seven_days (-18000000) today allTasks).
  vm_compute. split; discriminate.
Defined.

(** *** Completions are recorded by [complete] only *)

Lemma find_app_None {A} (f : A -> bool) (l1 l2 : list A) :
  find f l1 = None -> find f (l1 ++ l2) = find f l2.
Proof.
  induction l1 as [|x l1 IH]; [done|]. simpl. destruct (f x); [done|]. exact IH.
Qed.

Lemma historyEntriesFor_updated date_differs now task updates :
  Forall (fun e => action e = act_updated)
    (TaskStore.historyEntriesFor date_differs now task updates).
Proof.
  unfold TaskStore.historyEntriesFor. apply Forall_forall. intros e He.
  apply list_elem_of_omap in He as (p & _ & Hp).
  destruct (TaskStore.valueOf p); [|done].
  destruct (TaskStore.strictNotEqual _ _ _); [|done]. by injection Hp as <-.
Qed.

Lemma find_completed_updated (l : list TaskHistoryEntry) :
  Forall (fun e => action e = act_updated) l ->
  find ProgressManager.isCompletedEntry l = None.
Proof.
  induction 1 as [|e l He _ IH]; [done|]. simpl.
  unfold ProgressManager.isCompletedEntry at 1. by rewrite He.
Qed.

Lemma getCompletionDates_skip task l1 l2 :
  completionOf task = None ->
  ProgressManager.getCompletionDates (l1 ++ task :: l2)
  = ProgressManager.getCompletionDates (l1 ++ l2).
Proof.
  intros Hc. unfold ProgressManager.getCompletionDates.
  rewrite !foldl_app. cbn [foldl]. unfold completionOf in Hc.
  destruct (status task); try done.
  destruct (find ProgressManager.isCompletedEntry (history task)); done.
Qed.

(** X21.  Only [complete] records a completion.  For a stored task that has
    no ['completed'] history entry: after [complete] its completion time is
    the time of the call; after any [update], even one that sets the status
    to ['completed'], it has no completion time, so the task adds nothing to
    the completion dates (and hence to the streak), wherever it stands in the
    list of tasks. *)
Theorem only_complete_records_a_completion :
  forall (date_differs : Date -> Date -> bool) (tasks : TaskStore.Tasks) (now : Date)
         (i : string) (updates : TaskUpdate) (task : Task),
    tasks !! i = Some task ->
    find ProgressManager.isCompletedEntry (history task) = None ->
    (exists tasks' task',
       TaskStore.complete tasks now i = (tasks', Ok task')
       /\ status task' = completed /\ completionOf task' = Some now)
    /\ (exists tasks' task',
          TaskStore.update date_differs tasks now i updates true = (tasks', Ok task')
          /\ completionOf task' = None
          /\ forall l1 l2,
               ProgressManager.getCompletionDates (l1 ++ task' :: l2)
               = ProgressManager.getCompletionDates (l1 ++ l2)).
Proof.
  intros dd tasks now i updates task Hi Hnone. split.
  - unfold TaskStore.complete. rewrite Hi. eexists _, _. split; [reflexivity|].
    split; [reflexivity|]. unfold completionOf. cbn [status history TaskStore.withStamp
      TaskStore.withStatus]. by rewrite find_app_None.
  - unfold TaskStore.update. rewrite Hi. cbn [negb]. eexists _, _. split; [reflexivity|].
    assert (Hc : completionOf
              (TaskStore.withStamp (foldl TaskStore.assign task updates) now
                 (history task ++ TaskStore.historyEntriesFor dd now task updates)) = None).
    { unfold completionOf. cbn [history TaskStore.withStamp].
      rewrite find_app_None by done.
      rewrite find_completed_updated by apply historyEntriesFor_updated.
      by destruct (status _). }
    split; [done|]. intros l1 l2. by apply getCompletionDates_skip.
Qed.

Lemma only_complete_records_a_completion_witness :
  let t0 := plainTask "a" "Pay rent" 0 None medium in
  (exists tasks' task',
     TaskStore.complete {[ "a" := t0 ]} 5 "a" = (tasks', Ok task')
     /\ status task' = completed /\ completionOf task' = Some 5)
  /\ (exists tasks' task',
        TaskStore.update (fun _ _ => true) {[ "a" := t0 ]} 5 "a" [upd_status completed] true
        = (tasks', Ok task')
        /\ completionOf task' = None
        /\ forall l1 l2,
             ProgressManager.getCompletionDates (l1 ++ task' :: l2)
             = ProgressManager.getCompletionDates (l1 ++ l2)).
Proof.
  intros t0.
  apply (only_complete_records_a_completion (fun _ _ => true) {[ "a" := t0 ]} 5 "a"
           [upd_status completed] t0).
  - vm_compute. reflexivity.
  - reflexivity.
Defined.

(** *** Progress statistics *)

Lemma quotient_range (a b : Z) :
  0 <= a <= b -> 0 < b ->
  (0 <= inject_Z a / inject_Z b)%Q /\ (inject_Z a / inject_Z b <= 1)%Q
  /\ ((inject_Z a / inject_Z b == 1)%Q <-> a = b).
Proof.
  intros Hab Hb. destruct b as [|p|p]; try lia.
  unfold Qle, Qeq, Qdiv, Qmult, Qinv, inject_Z. simpl. split_and!; try lia.
Qed.

(** X22.  [getProgressStats] throws only when [calculateStreak] does;
    otherwise it returns today's progress, the streak, the number of tasks
    with status ['completed'] -- between 0 and the number of tasks -- and a
    completion rate between 0 and 1 that is 0 for an empty store and 1 exactly
    when the store is not empty and every task is completed. *)
Theorem progress_stats_are_consistent :
  forall (tz : TimeZone) (now : Date) (allTasks : list Task),
    match ProgressManager.getProgressStats tz now allTasks with
    | Throw e => ProgressManager.streakOf tz now allTasks = Throw e
    | Ok stats =>
        ProgressManager.streakOf tz now allTasks = Ok (ProgressManager.streak stats)
        /\ ProgressManager.today stats = ProgressManager.getTodayProgress now allTasks
        /\ 0 <= ProgressManager.totalCompleted stats <= Z.of_nat (length allTasks)
        /\ (0 <= ProgressManager.completionRate stats)%Q
        /\ (ProgressManager.completionRate stats <= 1)%Q
        /\ (allTasks = [] -> (ProgressManager.completionRate stats == 0)%Q)
        /\ ((ProgressManager.completionRate stats == 1)%Q
            <-> allTasks <> [] /\ Forall (fun t => status t = completed) allTasks)
    end.
Proof.
  intros tz now allTasks. unfold ProgressManager.getProgressStats.
  destruct (ProgressManager.streakOf tz now allTasks) as [n|e]; [|done].
  cbn [ProgressManager.streak ProgressManager.today ProgressManager.totalCompleted
       ProgressManager.completionRate].
  pose proof (length_filter (fun t => ProgressManager.isCompleted t = true) allTasks) as Hle.
  assert (Hall : length (filter (fun t => ProgressManager.isCompleted t = true) allTasks)
                 = length allTasks
                 <-> Forall (fun t => status t = completed) allTasks).
  { rewrite length_filter_all. apply Forall_iff. intros t. apply isCompleted_spec. }
  split_and!; [done|done|lia|lia|..].
  - destruct allTasks as [|t l]; [done|].
    change (0 <? length (t :: l))%nat with true. cbv iota.
    apply quotient_range; [lia|simpl; lia].
  - destruct allTasks as [|t l]; [done|].
    change (0 <? length (t :: l))%nat with true. cbv iota.
    apply quotient_range; [lia|simpl; lia].
  - by intros ->.
  - destruct allTasks as [|t l].
    + simpl. split; [done|by intros [? _]].
    + change (0 <? length (t :: l))%nat with true. cbv iota.
      destruct (quotient_range
                  (Z.of_nat (length (filter (fun t => ProgressManager.isCompleted t = true)
                                       (t :: l))))
                  (Z.of_nat (length (t :: l)))) as (_ & _ & ->); [lia|simpl; lia|].
      rewrite Nat2Z.inj_iff, Hall. split; [by intros ?|by intros [_ ?]].
Qed.

(** *** The streak in a zone without clock changes, in general *)

Lemma fourDigitYear_valid_previous t : fourDigitYear t -> valid (t - msPerDay).
Proof.
  unfold fourDigitYear, YearFromTime, valid, maxTime. intros Hy.
  pose proof (YearFromDay_spec (Day t)) as [Hlo Hhi].
  assert (H0 : DayFromYear 0 <= DayFromYear (YearFromDay (Day t)))
    by (apply DayFromYear_mono; lia).
  assert (H1 : DayFromYear (YearFromDay (Day t) + 1) <= DayFromYear 10000)
    by (apply DayFromYear_mono; lia).
  change (DayFromYear 0) with (-719528) in H0.
  change (DayFromYear 10000) with 2932897 in H1.
  unfold Day, msPerDay in *. divmod.
Qed.

Lemma fourDigitYear_below t1 t t2 :
  fourDigitYear t1 -> YearFromTime t2 <= 9999 -> Day t1 <= Day t <= Day t2 ->
  fourDigitYear t.
Proof.
  unfold fourDigitYear, YearFromTime. intros H1 H2 [Hlo Hhi].
  pose proof (YearFromDay_mono _ _ Hlo). pose proof (YearFromDay_mono _ _ Hhi). lia.
Qed.

(** A date of the list that lies before the expected one ends the loop. *)
Lemma countStreak_gap tz t tc rest streak :
  fourDigitYear t -> fourDigitYear tc -> Day t < Day tc ->
  ProgressManager.countStreak tz (ProgressManager.formatDate t :: rest) streak
    (ProgressManager.formatDate tc) = Ok streak.
Proof.
  intros Ht Htc Hlt. cbn [ProgressManager.countStreak].
  pose proof (compare_formatDate t tc Ht Htc Hlt) as Hc.
  assert (Hne : String.eqb (ProgressManager.formatDate t) (ProgressManager.formatDate tc)
                = false).
  { apply String.eqb_neq. intros E. rewrite E in Hc.
    pose proof (String.compare_antisym (ProgressManager.formatDate tc)
                  (ProgressManager.formatDate tc)) as Hanti.
    rewrite Hc in Hanti. done. }
  rewrite Hne. unfold JS.string_lt. by rewrite Hc.
Qed.

(** The loop on dates in strictly decreasing order of days, none after the
    expected one: it counts the days of the list that follow one another
    downwards from the expected day. *)
Lemma countStreak_run offset (ts : list Z) : forall (tc acc : Z),
  Forall fourDigitYear ts -> YearFromTime tc <= 9999 ->
  StronglySorted (fun a b => Day b < Day a) ts ->
  Forall (fun t => Day t <= Day tc) ts ->
  exists r, 0 <= r
    /\ ProgressManager.countStreak (fixedZone offset) (ProgressManager.formatDate <$> ts) acc
         (ProgressManager.formatDate tc) = Ok (acc + r)
    /\ (forall k, 0 <= k < r -> exists t, t ∈ ts /\ Day t = Day tc - k)
    /\ (forall t, t ∈ ts -> Day t <> Day tc - r).
Proof.
  induction ts as [|t ts IH]; intros tc acc Hfour Hhi Hsorted Hle.
  - exists 0. split_and!; [lia|simpl; f_equal; lia|lia|by intros t ?%elem_of_nil].
  - apply Forall_cons in Hfour as [Ht Hfour]. apply Forall_cons in Hle as [Htle Hle].
    apply StronglySorted_inv in Hsorted as [Hsorted Hbelow].
    assert (Htc : fourDigitYear tc) by (apply (fourDigitYear_below t tc tc); [done|done|lia]).
    destruct (decide (Day t = Day tc)) as [Heq|Hne].
    + rewrite fmap_cons, (formatDate_Day t tc Heq).
      rewrite countStreak_hit by by apply fourDigitYear_valid.
      destruct (IH (tc - msPerDay) (acc + 1)) as (r & Hr & Hrun & Hin & Hout).
      * done.
      * unfold YearFromTime in *. rewrite Day_previous.
        pose proof (YearFromDay_mono (Day tc - 1) (Day tc)). lia.
      * done.
      * rewrite Forall_forall in Hbelow. apply Forall_forall. intros t' Ht'.
        rewrite Day_previous. specialize (Hbelow t' Ht'). simpl in Hbelow. lia.
      * exists (r + 1). split_and!; [lia|rewrite Hrun; f_equal; lia| |].
        -- intros k Hk. destruct (decide (k = 0)) as [->|Hk0].
           ++ exists t. split; [by left|lia].
           ++ destruct (Hin (k - 1)) as (t' & Hin' & Hday); [lia|].
              exists t'. split; [by right|]. rewrite Day_previous in Hday. lia.
        -- intros t' [->|Ht']%elem_of_cons; [lia|].
           specialize (Hout t' Ht'). rewrite Day_previous in Hout. lia.
    + rewrite fmap_cons, countStreak_gap by (done || lia).
      exists 0. split_and!; [lia|f_equal; lia|lia|].
      intros t' [->|Ht']%elem_of_cons; [lia|].
      rewrite Forall_forall in Hbelow. specialize (Hbelow t' Ht'). simpl in Hbelow. lia.
Qed.

Lemma preimages {A B} (f : A -> B) (Q : A -> Prop) (l : list B) :
  (forall s, s ∈ l -> exists t, Q t /\ s = f t) ->
  exists ts, l = f <$> ts /\ Forall Q ts.
Proof.
  induction l as [|s l IH]; intros H.
  - by exists [].
  - destruct (H s) as (t & Ht & ->); [by left|].
    destruct IH as (ts & -> & Hts); [intros s' Hs'; apply H; by right|].
    exists (t :: ts). split; [done|by constructor].
Qed.

(** Day strings sorted in descending order, without repetition: the days
    decrease strictly. *)
Lemma descending_days (ts : list Z) :
  Forall fourDigitYear ts ->
  NoDup (ProgressManager.formatDate <$> ts) ->
  StronglySorted (fun a b => JS.localeCompare b a <= 0) (ProgressManager.formatDate <$> ts) ->
  StronglySorted (fun a b => Day b < Day a) ts.
Proof.
  induction ts as [|t ts IH]; intros Hfour Hnd Hsorted; [constructor|].
  apply Forall_cons in Hfour as [Ht Hfour]. rewrite fmap_cons in Hnd, Hsorted.
  apply NoDup_cons in Hnd as [Hnotin Hnd].
  apply StronglySorted_inv in Hsorted as [Hsorted Hbelow].
  constructor; [by apply IH|].
  apply Forall_forall. intros t' Ht'.
  assert (Ht'4 : fourDigitYear t') by (rewrite Forall_forall in Hfour; by apply Hfour).
  assert (Hle : JS.localeCompare (ProgressManager.formatDate t') (ProgressManager.formatDate t)
                <= 0).
  { rewrite Forall_forall in Hbelow. apply Hbelow. apply list_elem_of_fmap. by exists t'. }
  destruct (Z.lt_trichotomy (Day t') (Day t)) as [Hlt|[Heq|Hgt]]; [done| |].
  - exfalso. apply Hnotin. rewrite <- (formatDate_Day t' t Heq).
    apply list_elem_of_fmap. by exists t'.
  - exfalso. pose proof (compare_formatDate t t' Ht Ht'4 Hgt) as Hc.
    unfold JS.localeCompare in Hle.
    rewrite (String.compare_antisym (ProgressManager.formatDate t')
               (ProgressManager.formatDate t)), Hc in Hle. simpl in Hle. lia.
Qed.

Lemma sorted_completions (now : Date) (allTasks : list Task) :
  (forall task ts, task ∈ allTasks -> completionOf task = Some ts ->
     fourDigitYear ts /\ Day ts <= Day now) ->
  exists ts,
    JS.sort (fun a b => JS.localeCompare b a) (ProgressManager.getCompletionDates allTasks)
    = ProgressManager.formatDate <$> ts
    /\ Forall fourDigitYear ts
    /\ Forall (fun t => Day t <= Day now) ts
    /\ StronglySorted (fun a b => Day b < Day a) ts
    /\ (forall d, completedOn allTasks d <-> exists t, t ∈ ts /\ Day t = d).
Proof.
  intros Hall.
  destruct (getCompletionDates_spec allTasks) as [Hnd Hmem].
  set (sorted := JS.sort (fun a b => JS.localeCompare b a)
                   (ProgressManager.getCompletionDates allTasks)).
  assert (Hperm : sorted ≡ₚ ProgressManager.getCompletionDates allTasks)
    by apply sort_Permutation.
  destruct (preimages ProgressManager.formatDate
              (fun t => fourDigitYear t /\ Day t <= Day now /\ completedOn allTasks (Day t))
              sorted) as (ts & Hts & Hprops).
  { intros s Hs. rewrite Hperm in Hs. apply Hmem in Hs as (task & t & Hin & Hc & ->).
    exists t. destruct (Hall task t Hin Hc) as [H4 Hle].
    split; [|done]. split_and!; [done|done|]. by exists task, t. }
  exists ts.
  assert (Hfour : Forall fourDigitYear ts)
    by (eapply Forall_impl; [exact Hprops|]; by intros t (? & _)).
  split_and!; [done|done| | |].
  - eapply Forall_impl; [exact Hprops|]. by intros t (_ & ? & _).
  - apply descending_days; [done| |].
    + rewrite <- Hts, Hperm. done.
    + rewrite <- Hts. apply sort_sorted.
      * intros x y. apply descending_total.
      * intros x y z. apply descending_trans.
  - intros d. split.
    + intros (task & t0 & Hin & Hc & Hd).
      assert (Hs : ProgressManager.formatDate t0 ∈ sorted).
      { rewrite Hperm. apply Hmem. by exists task, t0. }
      rewrite Hts in Hs. apply list_elem_of_fmap in Hs as (t & Heq & Ht).
      exists t. split; [done|]. rewrite <- Hd. symmetry. apply formatDate_inj; [| |done].
      * apply fourDigitYear_valid. by apply (Hall task t0).
      * apply fourDigitYear_valid. rewrite Forall_forall in Hfour. by apply Hfour.
    + intros (t & Ht & <-). rewrite Forall_forall in Hprops.
      by destruct (Hprops t Ht) as (_ & _ & ?).
Qed.

Lemma streakOf_counts_consecutive_days :
  forall (offset : Z) (now : Date) (allTasks : list Task),
    fourDigitYear now ->
    (forall task ts, task ∈ allTasks -> completionOf task = Some ts ->
       fourDigitYear ts /\ Day ts <= Day now) ->
    exists n start,
      ProgressManager.streakOf (fixedZone offset) now allTasks = Ok n
      /\ 0 <= n
      /\ (completedOn allTasks (Day now) /\ start = Day now
          \/ ~ completedOn allTasks (Day now) /\ start = Day now - 1)
      /\ (forall k, 0 <= k < n -> completedOn allTasks (start - k))
      /\ ~ completedOn allTasks (start - n).
Proof.
  intros offset now allTasks Hnow Hall.
  destruct (sorted_completions now allTasks Hall) as (ts & Hsort & Hfour & Hle & Hsorted & Hon).
  unfold ProgressManager.streakOf. cbv zeta. rewrite Hsort.
  change (24 * 60 * 60 * 1000) with msPerDay.
  destruct ts as [|t1 ts].
  - exists 0, (Day now - 1). simpl. split_and!; [done|lia| |lia|].
    + right. split; [|done]. rewrite Hon. by intros (t & ?%elem_of_nil & _).
    + rewrite Hon. by intros (t & ?%elem_of_nil & _).
  - rewrite fmap_cons. cbv iota.
    assert (Ht1 : fourDigitYear t1) by by apply Forall_cons in Hfour as [? _].
    assert (Ht1le : Day t1 <= Day now) by by apply Forall_cons in Hle as [? _].
    assert (Hmax : forall t, t ∈ t1 :: ts -> Day t <= Day t1).
    { intros t [->|Ht]%elem_of_cons; [lia|].
      apply StronglySorted_inv in Hsorted as [_ Hbelow].
      rewrite Forall_forall in Hbelow. specialize (Hbelow t Ht). simpl in Hbelow. lia. }
    pose proof (fourDigitYear_valid _ Hnow) as Hvnow.
    pose proof (fourDigitYear_valid_previous _ Hnow) as Hvprev.
    pose proof (fourDigitYear_valid _ Ht1) as Hvt1.
    destruct (decide (Day t1 = Day now)) as [Htoday|Hnot].
    + rewrite (proj2 (String.eqb_eq _ _) (formatDate_Day t1 now Htoday)). cbn [negb andb].
      rewrite <- fmap_cons.
      destruct (countStreak_run offset (t1 :: ts) now 0) as (r & Hr & Hrun & Hin & Hout);
        [done|by destruct Hnow|done|done|].
      exists r, (Day now). rewrite Hrun. split_and!; [done|done| | |].
      * left. split; [|done]. apply Hon. exists t1. split; [by left|done].
      * intros k Hk. apply Hon. by apply Hin.
      * rewrite Hon. intros (t & Ht & Hd). by apply (Hout t Ht).
    + assert (Hne : String.eqb (ProgressManager.formatDate t1) (ProgressManager.formatDate now)
                    = false).
      { apply String.eqb_neq. intros E%formatDate_inj; done. }
      rewrite Hne. cbn [negb andb].
      assert (Hnone : ~ completedOn allTasks (Day now)).
      { rewrite Hon. intros (t & Ht & Hd). specialize (Hmax t Ht). lia. }
      destruct (decide (Day t1 = Day now - 1)) as [Hyest|Hnot'].
      * assert (Hy : Day t1 = Day (now - msPerDay)) by by rewrite Day_previous.
        rewrite (proj2 (String.eqb_eq _ _) (formatDate_Day t1 (now - msPerDay) Hy)).
        cbn [negb]. rewrite <- fmap_cons.
        destruct (countStreak_run offset (t1 :: ts) (now - msPerDay) 0)
          as (r & Hr & Hrun & Hin & Hout).
        -- done.
        -- unfold YearFromTime. rewrite Day_previous.
           pose proof (YearFromDay_mono (Day now - 1) (Day now)).
           destruct Hnow as [_ Hhi]. unfold YearFromTime in Hhi. lia.
        -- done.
        -- apply Forall_forall. intros t Ht. rewrite Day_previous.
           specialize (Hmax t Ht). lia.
        -- rewrite Day_previous in Hin, Hout.
           exists r, (Day now - 1). rewrite Hrun. split_and!; [done|done| | |].
           ++ by right.
           ++ intros k Hk. apply Hon. by apply Hin.
           ++ rewrite Hon. intros (t & Ht & Hd). by apply (Hout t Ht).
      * assert (Hne' : String.eqb (ProgressManager.formatDate t1)
                         (ProgressManager.formatDate (now - msPerDay)) = false).
        { apply String.eqb_neq. intros E%formatDate_inj; [|done|done].
          rewrite Day_previous in E. done. }
        rewrite Hne'. cbn [negb].
        exists 0, (Day now - 1). split_and!; [done|lia|by right|lia|].
        rewrite Hon. intros (t & Ht & Hd). specialize (Hmax t Ht). lia.
Qed.


(** X23.  In a time zone with a fixed offset (no clock changes), with every
    completion stamped in a year 0..9999 and not after the current UTC day,
    [calculateStreak] returns the number of consecutive UTC days with a
    completion, counted backwards from today if a task was completed today
    and from yesterday otherwise: every one of the [n] days counted has a
    completion, and the day before them has none. *)
Theorem streak_counts_consecutive_days :
  forall (offset : Z) (now : Date) (store : TaskStore.Tasks),
    fourDigitYear now ->
    (forall task ts, task ∈ TaskStore.getAll store -> completionOf task = Some ts ->
       fourDigitYear ts /\ Day ts <= Day now) ->
    exists n start,
      ProgressManager.calculateStreak (fixedZone offset) now store = Ok n
      /\ 0 <= n
      /\ (completedOn (TaskStore.getAll store) (Day now) /\ start = Day now
          \/ ~ completedOn (TaskStore.getAll store) (Day now) /\ start = Day now - 1)
      /\ (forall k, 0 <= k < n -> completedOn (TaskStore.getAll store) (start - k))
      /\ ~ completedOn (TaskStore.getAll store) (start - n).
Proof.
  intros offset now store Hnow Hall.
  apply (streakOf_counts_consecutive_days offset now (TaskStore.getAll store) Hnow Hall).
Qed.

Lemma streak_counts_consecutive_days_witness :
  let now := 1730732400000 in
  let store : TaskStore.Tasks :=
    {[ "a" := completedTask "a" "Draft agenda" 0 (now - 2 * msPerDay);
       "b" := completedTask "b" "Review notes" 0 (now - msPerDay);
       "d" := plainTask "d" "Book room" 0 None medium ]} in
  exists n start,
    ProgressManager.calculateStreak (fixedZone (-18000000)) now store = Ok n
    /\ 0 <= n
    /\ (completedOn (TaskStore.getAll store) (Day now) /\ start = Day now
        \/ ~ completedOn (TaskStore.getAll store) (Day now) /\ start = Day now - 1)
    /\ (forall k, 0 <= k < n -> completedOn (TaskStore.getAll store) (start - k))
    /\ ~ completedOn (TaskStore.getAll store) (start - n).
Proof.
  intros now store.
  apply (streak_counts_consecutive_days (-18000000) now store).
  - unfold fourDigitYear. vm_compute. split; discriminate.
  - intros task ts Hin Hc.
    assert (Hall : TaskStore.getAll store
                   = [ completedTask "a" "Draft agenda" 0 (now - 2 * msPerDay);
                       completedTask "b" "Review notes" 0 (now - msPerDay);
                       plainTask "d" "Book room" 0 None medium ])
      by (vm_compute; reflexivity).
    rewrite Hall in Hin.
    repeat (apply elem_of_cons in Hin as [->|Hin]);
      [..|by apply elem_of_nil in Hin];
      try discriminate Hc;
      injection Hc as <-; unfold fourDigitYear; vm_compute; repeat split; discriminate.
Defined.

(** ** Atomization engine: numbers and strings *)

Lemma digitChar_props c :
  digitChar c ->
  is_digit c = true /\ JS.isSpace c = false /\ c <> "-"%char /\ c <> "+"%char.
Proof.
  intros (k & Hk & ->).
  destruct (digit_cases k Hk) as [->|[->|[->|[->|[->|[->|[->|[->|[->| ->]]]]]]]]];
    vm_compute; split_and!; (reflexivity || discriminate).
Qed.

Lemma render_pos_spec fuel : forall n,
  (0 < fuel)%nat -> 0 <= n < 2 ^ Z.of_nat fuel ->
  render_pos fuel n <> []
  /\ Forall digitChar (render_pos fuel n)
  /\ number_from 0 (render_pos fuel n) = Some n.
Proof.
  induction fuel as [|fuel IH]; intros n Hf Hn; [lia|].
  cbn [render_pos]. destruct (Z.ltb_spec n 10) as [Hlt|Hge].
  - split_and!; [done| |].
    + apply Forall_cons_2; [|apply Forall_nil_2]. exists n. split; [lia|done].
    + simpl. rewrite digit_val_digit by lia. f_equal; lia.
  - rewrite Nat2Z.inj_succ, Z.pow_succ_r in Hn by lia.
    assert (Hf' : (0 < fuel)%nat).
    { destruct fuel; [simpl in Hn; lia|lia]. }
    destruct (IH (n / 10)) as (Hne & Hall & Hnum); [done|divmod|].
    split_and!.
    + intros E. apply app_eq_nil in E as [_ E]. done.
    + apply Forall_app. split; [done|]. apply Forall_cons_2; [|apply Forall_nil_2].
      exists (n mod 10). split; [divmod|done].
    + rewrite number_from_app, Hnum. simpl.
      rewrite digit_val_digit by divmod. f_equal; divmod.
Qed.

Lemma render_pos_log2 n :
  0 <= n ->
  render_pos (S (Z.to_nat (Z.log2 n))) n <> []
  /\ Forall digitChar (render_pos (S (Z.to_nat (Z.log2 n))) n)
  /\ number_from 0 (render_pos (S (Z.to_nat (Z.log2 n))) n) = Some n.
Proof.
  intros Hn. apply render_pos_spec; [lia|].
  split; [done|]. rewrite Nat2Z.inj_succ, Z2Nat.id by apply Z.log2_nonneg.
  destruct (decide (n = 0)) as [->|Hne]; [done|].
  apply Z.log2_spec. lia.
Qed.

Lemma digitRun_digits cs : Forall digitChar cs -> JS.digitRun cs = cs.
Proof.
  induction 1 as [|c cs Hc _ IH]; [done|]. simpl.
  destruct (digitChar_props c Hc) as (-> & _). by rewrite IH.
Qed.

Lemma unsignedInt_digits cs n :
  cs <> [] -> Forall digitChar cs -> number_from 0 cs = Some n ->
  JS.unsignedInt cs = Some n.
Proof.
  intros Hne Hall Hnum. unfold JS.unsignedInt. rewrite digitRun_digits by done.
  destruct cs; [done|]. exact Hnum.
Qed.

(** [parseInt(String(n), 10)] is [n], for every integer [n]. *)
Lemma parseInt_render z : JS.parseInt (render z) = Some z.
Proof.
  unfold JS.parseInt, render. destruct (Z.ltb_spec z 0) as [Hneg|Hpos].
  - destruct (render_pos_log2 (- z)) as (Hne & Hall & Hnum); [lia|].
    cbn [list_ascii_of_string]. rewrite list_ascii_of_string_of_list_ascii.
    cbn [JS.skipSpaces]. change (JS.isSpace "-") with false. cbv iota.
    rewrite (unsignedInt_digits _ (- z)) by done. simpl. f_equal. lia.
  - destruct (render_pos_log2 z) as (Hne & Hall & Hnum); [lia|].
    rewrite list_ascii_of_string_of_list_ascii.
    destruct (render_pos _ z) as [|c cs] eqn:E; [done|].
    apply Forall_cons in Hall as [Hc Hcs].
    destruct (digitChar_props c Hc) as (Hd & Hs & Hm & Hp).
    cbn [JS.skipSpaces]. rewrite Hs.
    assert (Hu : JS.unsignedInt (c :: cs) = Some z).
    { apply unsignedInt_digits; [done|by constructor|done]. }
    destruct c as [[] [] [] [] [] [] [] []]; try exact Hu; done.
Qed.

Lemma skipSpaces_head c cs : JS.isSpace c = false -> JS.skipSpaces (c :: cs) = c :: cs.
Proof. intros H. simpl. by rewrite H. Qed.

(** [String(n).trim()] is [String(n)]. *)
Lemma trim_render z : JS.trim (render z) = render z.
Proof.
  assert (Hgen : forall cs : list ascii,
            cs <> [] -> Forall (fun c => JS.isSpace c = false) cs ->
            reverse (JS.skipSpaces (reverse (JS.skipSpaces cs))) = cs).
  { intros cs Hne Hall. destruct cs as [|c cs]; [done|].
    rewrite skipSpaces_head by by apply Forall_cons in Hall as [? _].
    destruct (reverse (c :: cs)) as [|d ds] eqn:E.
    - apply (f_equal length) in E. rewrite length_reverse in E. done.
    - rewrite skipSpaces_head.
      + by rewrite <- E, reverse_involutive.
      + rewrite Forall_forall in Hall. apply Hall.
        rewrite <- elem_of_reverse, E. by left. }
  unfold JS.trim, render. destruct (Z.ltb_spec z 0) as [Hneg|Hpos].
  - destruct (render_pos_log2 (- z)) as (Hne & Hall & _); [lia|].
    cbn [list_ascii_of_string]. rewrite list_ascii_of_string_of_list_ascii.
    rewrite Hgen; [done|done|].
    constructor; [done|]. eapply Forall_impl; [exact Hall|].
    intros c Hc. by destruct (digitChar_props c Hc) as (_ & ? & _).
  - destruct (render_pos_log2 z) as (Hne & Hall & _); [lia|].
    rewrite list_ascii_of_string_of_list_ascii, Hgen; [done|done|].
    eapply Forall_impl; [exact Hall|].
    intros c Hc. by destruct (digitChar_props c Hc) as (_ & ? & _).
Qed.

Lemma space_not_digit c : JS.isSpace c = true -> Digits.is_digit c = false.
Proof.
  destruct c as [[] [] [] [] [] [] [] []]; vm_compute; intros H;
    first [reflexivity | discriminate H].
Qed.

Lemma digit_not_sign c :
  Digits.is_digit c = true -> JS.isSpace c = false /\ c <> "-"%char /\ c <> "+"%char.
Proof.
  destruct c as [[] [] [] [] [] [] [] []]; intros H;
    try (vm_compute in H; discriminate H);
    (split_and!; [reflexivity|discriminate|discriminate]).
Qed.

Lemma skipSpaces_app ws cs : whiteSpace ws -> JS.skipSpaces (ws ++ cs) = JS.skipSpaces cs.
Proof.
  induction 1 as [|c ws Hc _ IH]; [done|]. simpl. by rewrite Hc.
Qed.

Lemma skipSpaces_split cs :
  exists sp, cs = sp ++ JS.skipSpaces cs /\ whiteSpace sp.
Proof.
  induction cs as [|c cs (sp & Heq & Hsp)].
  - exists []. split; [done|apply Forall_nil_2].
  - simpl. destruct (JS.isSpace c) eqn:Hc.
    + exists (c :: sp). split; [by rewrite <- app_comm_cons, <- Heq|by apply Forall_cons_2].
    + exists []. split; [done|apply Forall_nil_2].
Qed.

Lemma skipSpaces_starts cs c r : JS.skipSpaces cs = c :: r -> JS.isSpace c = false.
Proof.
  induction cs as [|d cs IH]; [done|]. simpl.
  destruct (JS.isSpace d) eqn:Hd; [exact IH|]. by intros [= <- _].
Qed.

Lemma digitRun_app_space y sp :
  whiteSpace sp -> JS.digitRun (y ++ sp) = JS.digitRun y.
Proof.
  intros Hsp. induction y as [|c y IH].
  - destruct Hsp as [|c sp Hc _]; [done|]. simpl. by rewrite (space_not_digit c Hc).
  - simpl. destruct (Digits.is_digit c); [by rewrite IH|done].
Qed.

Lemma unsignedInt_app_space y sp :
  whiteSpace sp -> JS.unsignedInt (y ++ sp) = JS.unsignedInt y.
Proof. intros Hsp. unfold JS.unsignedInt. by rewrite digitRun_app_space. Qed.

Lemma parseInt_readInt s :
  JS.parseInt s = readInt (JS.skipSpaces (list_ascii_of_string s)).
Proof.
  unfold JS.parseInt, readInt.
  destruct (JS.skipSpaces _) as [|[[] [] [] [] [] [] [] []] l]; reflexivity.
Qed.

Lemma readInt_cases c cs :
  (c = "-"%char /\ readInt (c :: cs) = Z.opp <$> JS.unsignedInt cs)
  \/ (c = "+"%char /\ readInt (c :: cs) = JS.unsignedInt cs)
  \/ (c <> "-"%char /\ c <> "+"%char /\ readInt (c :: cs) = JS.unsignedInt (c :: cs)).
Proof.
  destruct (ascii_dec c "-") as [->|Hm]; [by left|].
  destruct (ascii_dec c "+") as [->|Hp]; [right; by left|].
  right. right. split_and!; [done|done|].
  destruct c as [[] [] [] [] [] [] [] []]; try reflexivity; done.
Qed.

Lemma readInt_app_space c y sp :
  whiteSpace sp -> readInt (c :: y ++ sp) = readInt (c :: y).
Proof.
  intros Hsp.
  destruct (readInt_cases c (y ++ sp)) as [[-> ->]|[[-> ->]|(Hm & Hp & ->)]].
  - simpl. by rewrite unsignedInt_app_space.
  - simpl. by rewrite unsignedInt_app_space.
  - destruct (readInt_cases c y) as [[-> _]|[[-> _]|(_ & _ & ->)]]; [done|done|].
    by rewrite app_comm_cons, unsignedInt_app_space.
Qed.

(** Trimming does not change what [parseInt] reads. *)
Lemma parseInt_trim s : JS.parseInt (JS.trim s) = JS.parseInt s.
Proof.
  rewrite !parseInt_readInt. unfold JS.trim.
  rewrite list_ascii_of_string_of_list_ascii.
  set (r := JS.skipSpaces (list_ascii_of_string s)).
  destruct (skipSpaces_split (reverse r)) as (sp & Heq & Hsp).
  set (y := reverse (JS.skipSpaces (reverse r))).
  assert (Hr : r = y ++ reverse sp).
  { unfold y. rewrite <- reverse_app, <- Heq. by rewrite reverse_involutive. }
  assert (Hsp' : whiteSpace (reverse sp)).
  { unfold whiteSpace in *. rewrite Forall_forall in *. intros c Hc.
    apply Hsp. by apply elem_of_reverse. }
  destruct r as [|c r'] eqn:Er.
  - destruct y; [done|]. done.
  - assert (Hc : JS.isSpace c = false) by by apply (skipSpaces_starts _ _ _ Er).
    destruct y as [|c' y'].
    + simpl in Hr. rewrite <- Hr in Hsp'. apply Forall_cons in Hsp' as [Hc' _]. congruence.
    + injection Hr as <- ->. rewrite skipSpaces_head by done.
      symmetry. by apply readInt_app_space.
Qed.

Lemma digitRun_run ds rest :
  Forall (fun c => Digits.is_digit c = true) ds -> noDigitAhead rest ->
  JS.digitRun (ds ++ rest) = ds.
Proof.
  intros Hds Hrest. induction Hds as [|c ds Hc _ IH].
  - destruct rest as [|c rest]; [done|]. simpl in *. by rewrite Hrest.
  - simpl. by rewrite Hc, IH.
Qed.

Lemma unsignedInt_run ds rest m :
  digitString ds -> Digits.number ds = Some m -> noDigitAhead rest ->
  JS.unsignedInt (ds ++ rest) = Some m.
Proof.
  intros [Hne Hds] Hm Hrest. unfold JS.unsignedInt. rewrite digitRun_run by done.
  by destruct ds.
Qed.

Lemma unsignedInt_none rest : noDigitAhead rest -> JS.unsignedInt rest = None.
Proof.
  intros H. unfold JS.unsignedInt. destruct rest as [|c rest]; [done|].
  simpl in *. by rewrite H.
Qed.

(** What [parseInt] makes of a text without a number at its start, and of a
    text with one. *)
Lemma parseInt_none ws rest :
  whiteSpace ws -> noNumberAhead rest ->
  JS.parseInt (string_of_list_ascii (ws ++ rest)) = None.
Proof.
  intros Hws Hrest. rewrite parseInt_readInt.
  rewrite list_ascii_of_string_of_list_ascii, skipSpaces_app by done.
  destruct rest as [|c rest]; [done|]. destruct Hrest as (Hs & Hd & Hsign).
  rewrite skipSpaces_head by done.
  destruct (readInt_cases c rest) as [[-> ->]|[[-> ->]|(_ & _ & ->)]].
  - rewrite unsignedInt_none; [done|]. apply Hsign. by left.
  - apply unsignedInt_none, Hsign. by right.
  - by apply (unsignedInt_none (c :: rest)).
Qed.

Lemma parseInt_number ws sign ds rest m :
  whiteSpace ws -> sign ∈ [[]; ["+"%char]; ["-"%char]] ->
  digitString ds -> Digits.number ds = Some m -> noDigitAhead rest ->
  JS.parseInt (string_of_list_ascii (ws ++ sign ++ ds ++ rest)) = Some (signedValue sign m).
Proof.
  intros Hws Hsign Hds Hm Hrest. rewrite parseInt_readInt.
  rewrite list_ascii_of_string_of_list_ascii, skipSpaces_app by done.
  pose proof (unsignedInt_run ds rest m Hds Hm Hrest) as Hu.
  rewrite !elem_of_cons in Hsign.
  destruct Hsign as [->|[->|[->|Hn]]]; [| | |by apply elem_of_nil in Hn].
  - destruct Hds as [Hne Hall]. destruct ds as [|c ds]; [done|].
    apply Forall_cons in Hall as [Hc _].
    destruct (digit_not_sign c Hc) as (Hs & Hmi & Hp).
    cbn [app]. rewrite skipSpaces_head by done.
    destruct (readInt_cases c (ds ++ rest)) as [[-> _]|[[-> _]|(_ & _ & ->)]];
      [done|done|]. exact Hu.
  - cbn [app]. rewrite skipSpaces_head by done. cbn [readInt]. by rewrite Hu.
  - cbn [app]. rewrite skipSpaces_head by done. cbn [readInt]. by rewrite Hu.
Qed.



(** ** Atomization engine: the processed response *)

Lemma clampTimeEstimate_range m :
  15 <= AtomizationEngine.clampTimeEstimate m <= 60.
Proof. unfold AtomizationEngine.clampTimeEstimate. lia. Qed.

Lemma buildMicroTask_estimate mt :
  15 <= AtomizationEngine.mt_estimatedMinutes (AtomizationEngine.buildMicroTask mt) <= 60.
Proof. apply clampTimeEstimate_range. Qed.

(** The title returned by [ensureActionVerb] is the title given, possibly
    after one of six verbs. *)
Lemma ensureActionVerb_shape title :
  AtomizationEngine.ensureActionVerb title = title
  \/ exists verb, verb ∈ ["Send"; "Schedule"; "Write"; "Fix"; "Run"; "Complete"]
                  /\ AtomizationEngine.ensureActionVerb title = verb +:+ " " +:+ title.
Proof.
  unfold AtomizationEngine.ensureActionVerb.
  destruct (existsb _ _); [by left|]. right.
  repeat match goal with
         | |- context [if ?b then _ else _] => destruct b
         end;
    [exists "Send"|exists "Schedule"|exists "Write"|exists "Fix"|exists "Run"|exists "Complete"];
    (split; [rewrite !elem_of_cons; tauto|reflexivity]).
Qed.

Lemma firstWord_prefix (verb rest : string) :
  JS.firstWord verb = verb -> JS.firstWord (verb +:+ " " +:+ rest) = verb.
Proof.
  induction verb as [|c verb IH]; simpl; [done|].
  destruct (Ascii.eqb c " "); [done|]. intros [= H]. f_equal. by apply IH.
Qed.

(** X25.  [ensureActionVerb] returns the title unchanged when its first word
    is, up to case, one of the action verbs, and otherwise the title after
    one of the verbs Send, Schedule, Write, Fix, Run or Complete and a space.
    Applying it to its own result changes nothing, except after the verb Run,
    which is not in the list of action verbs. *)
Theorem ensureActionVerb_adds_at_most_one_verb :
  forall title : string,
    let result := AtomizationEngine.ensureActionVerb title in
    (result = title
     \/ exists verb, verb ∈ ["Send"; "Schedule"; "Write"; "Fix"; "Run"; "Complete"]
                     /\ result = verb +:+ " " +:+ title)
    /\ (result = title <->
        existsb (fun verb => String.eqb (JS.toLowerCase (JS.firstWord title))
                               (JS.toLowerCase verb))
          AtomizationEngine.ACTION_VERBS = true)
    /\ (result <> "Run " +:+ title -> AtomizationEngine.ensureActionVerb result = result).
Proof.
  intros title result. split; [apply ensureActionVerb_shape|]. split.
  - unfold result, AtomizationEngine.ensureActionVerb.
    destruct (existsb _ _); [done|]. split; [|done].
    repeat match goal with
           | |- context [if ?b then _ else _] => destruct b
           end; intros E; apply (f_equal String.length) in E; simpl in E;
      change ("" +:+ title) with title in E; lia.
  - intros Hrun.
    destruct (ensureActionVerb_shape title) as [E|(verb & Hverb & E)].
    + unfold result. by rewrite !E.
    + fold result in E. rewrite E in *.
      assert (Hfirst : JS.firstWord verb = verb /\
                existsb (fun v => String.eqb (JS.toLowerCase verb) (JS.toLowerCase v))
                  AtomizationEngine.ACTION_VERBS = true).
      { repeat (apply elem_of_cons in Hverb as [->|Hverb]);
          try (split; vm_compute; reflexivity).
        - exfalso. by apply Hrun.
        - by apply elem_of_nil in Hverb. }
      destruct Hfirst as [Hf Hv].
      unfold AtomizationEngine.ensureActionVerb.
      rewrite (firstWord_prefix verb title Hf), Hv. done.
Qed.

(** *** Parallel groups *)

(** The groups returned once the scan is over. *)
Lemma scanGroups_spec (all : list AtomizationEngine.MicroTaskSuggestion) :
  forall (rest : list AtomizationEngine.MicroTaskSuggestion) (index : nat)
         (groups : list (list nat)) (currentGroup : list nat),
    drop index all = rest ->
    currentGroup = seq (index - length currentGroup) (length currentGroup) ->
    (length currentGroup <= index)%nat ->
    Forall (fun g => g <> [] /\ exists a, g = seq a (length g)) groups ->
    let '(groups', currentGroup') :=
      AtomizationEngine.scanGroups index rest groups currentGroup in
    let final :=
      if (0 <? length currentGroup')%nat then groups' ++ [currentGroup'] else groups' in
    mjoin final
    = mjoin groups ++ currentGroup
      ++ filter (fun i => AtomizationEngine.isParallelizable <$> all !! i = Some true)
           (seq index (length rest))
    /\ Forall (fun g => g <> [] /\ exists a, g = seq a (length g)) final.
Proof.
  induction rest as [|mt rest IH]; intros index groups cur Hdrop Hcur Hlen Hgroups.
  - cbn [AtomizationEngine.scanGroups]. destruct cur as [|c cur].
    + simpl. rewrite !app_nil_r. by split.
    + change (0 <? length (c :: cur))%nat with true. cbv iota. split.
      * rewrite join_app. simpl. by rewrite !app_nil_r.
      * apply Forall_app. split; [done|]. apply Forall_cons_2; [|apply Forall_nil_2].
        split; [done|]. by eexists.
  - assert (Hmt : all !! index = Some mt).
    { rewrite <- (Nat.add_0_r index), <- lookup_drop, Hdrop. done. }
    assert (Hdrop' : drop (S index) all = rest).
    { replace (S index) with (index + 1)%nat by lia.
      rewrite <- drop_drop, Hdrop. done. }
    assert (Hq : AtomizationEngine.isParallelizable <$> all !! index
                 = Some (AtomizationEngine.isParallelizable mt)) by by rewrite Hmt.
    cbn [AtomizationEngine.scanGroups length seq].
    rewrite filter_cons, Hq.
    destruct (AtomizationEngine.isParallelizable mt) eqn:Hpar.
    + destruct (decide (Some true = Some true)) as [_|Hn]; [|done].
      specialize (IH (S index) groups (cur ++ [index]) Hdrop').
      rewrite length_app in IH. simpl in IH.
      destruct (AtomizationEngine.scanGroups (S index) rest groups (cur ++ [index]))
        as [groups' cur'].
      destruct IH as [IH1 IH2].
      * replace (S index - (length cur + 1))%nat with (index - length cur)%nat by lia.
        rewrite seq_app, <- Hcur. f_equal. simpl. f_equal. lia.
      * lia.
      * done.
      * split; [|done]. rewrite IH1. by rewrite <- !app_assoc.
    + destruct (decide (Some false = Some true)) as [Hy|_]; [done|].
      destruct cur as [|c cur].
      * change (0 <? length (@nil nat))%nat with false. cbv iota.
        specialize (IH (S index) groups [] Hdrop').
        destruct (AtomizationEngine.scanGroups (S index) rest groups []) as [groups' cur'].
        destruct IH as [IH1 IH2]; [done|simpl; lia|done|].
        split; [|done]. by rewrite IH1.
      * change (0 <? length (c :: cur))%nat with true. cbv iota.
        specialize (IH (S index) (groups ++ [c :: cur]) [] Hdrop').
        destruct (AtomizationEngine.scanGroups (S index) rest (groups ++ [c :: cur]) [])
          as [groups' cur'].
        destruct IH as [IH1 IH2]; [done|simpl; lia| |].
        { apply Forall_app. split; [done|]. apply Forall_cons_2; [|apply Forall_nil_2].
          split; [done|]. by eexists. }
        split; [|done]. rewrite IH1, join_app. simpl.
        by rewrite !app_nil_r, <- !app_assoc.
Qed.

(** X26.  [buildParallelGroups] splits the indices of the parallelizable
    micro-tasks, in increasing order, into groups: concatenated, the groups
    are exactly those indices; no group is empty; and each group is a run of
    consecutive indices. *)
Theorem parallel_groups_are_runs :
  forall microTasks : list AtomizationEngine.MicroTaskSuggestion,
    let groups := AtomizationEngine.buildParallelGroups microTasks in
    mjoin groups
    = filter (fun i => AtomizationEngine.isParallelizable <$> microTasks !! i = Some true)
        (seq 0 (length microTasks))
    /\ Forall (fun g => g <> [] /\ exists a, g = seq a (length g)) groups.
Proof.
  intros microTasks groups. unfold groups, AtomizationEngine.buildParallelGroups.
  pose proof (scanGroups_spec microTasks microTasks 0 [] []) as H.
  destruct (AtomizationEngine.scanGroups 0 microTasks [] []) as [groups' cur'].
  apply H; done.
Qed.

(** *** Dependencies *)

Lemma dependenciesOf_built n toIndex mt :
  AtomizationEngine.dependenciesOf n toIndex (AtomizationEngine.buildMicroTask mt)
  = (fun fromIndex => AtomizationEngine.mkDependency fromIndex toIndex AtomizationEngine.blocks)
      <$> filter (fun fromIndex => fromIndex < Z.of_nat n)
            (default [] (AtomizationEngine.llm_dependsOn mt)).
Proof.
  unfold AtomizationEngine.dependenciesOf. cbn [AtomizationEngine.dependsOn
    AtomizationEngine.buildMicroTask].
  induction (default [] (AtomizationEngine.llm_dependsOn mt)) as [|z l IH]; [done|].
  rewrite fmap_cons. cbn [omap list_omap]. rewrite parseInt_render, filter_cons.
  destruct (Z.ltb_spec z (Z.of_nat n)) as [Hlt|Hge].
  - destruct (decide _) as [_|Hn]; [|lia]. rewrite fmap_cons. f_equal. exact IH.
  - destruct (decide _) as [Hy|_]; [lia|]. exact IH.
Qed.

(** X27.  The [dependencies] of a processed response hold one edge of type
    ['blocks'] for every index that a micro-task of the response lists in
    [dependsOn] and that is below the number of micro-tasks -- negative
    indices and a micro-task's own index included -- and nothing else.  The
    indices are taken below 10^21 in magnitude, where [String] writes them in
    plain decimal notation. *)
Theorem dependencies_mirror_the_response :
  forall (response : AtomizationEngine.AtomizationLLMResponse) (originalTask : Task)
         (d : AtomizationEngine.Dependency),
    decimalIndices response ->
    d ∈ AtomizationEngine.dependencies
          (AtomizationEngine.processLLMResponse response originalTask)
    <-> AtomizationEngine.dep_type d = AtomizationEngine.blocks
        /\ AtomizationEngine.fromIndex d
           < Z.of_nat (length (AtomizationEngine.llm_microTasks response))
        /\ exists mt deps,
             AtomizationEngine.llm_microTasks response !! AtomizationEngine.toIndex d = Some mt
             /\ AtomizationEngine.llm_dependsOn mt = Some deps
             /\ AtomizationEngine.fromIndex d ∈ deps.
Proof.
  intros response originalTask d _.
  unfold AtomizationEngine.processLLMResponse. cbn [AtomizationEngine.dependencies].
  unfold AtomizationEngine.buildDependencies. rewrite length_fmap.
  set (n := length (AtomizationEngine.llm_microTasks response)).
  rewrite list_elem_of_join. split.
  - intros (l & Hd & Hl).
    apply elem_of_lookup_imap_1 in Hl as (toIndex & mt' & -> & Hmt').
    rewrite list_lookup_fmap in Hmt'.
    destruct (AtomizationEngine.llm_microTasks response !! toIndex) as [mt|] eqn:Hmt;
      [|done].
    injection Hmt' as <-. rewrite dependenciesOf_built in Hd.
    apply list_elem_of_fmap in Hd as (fromIndex & -> & Hin).
    apply list_elem_of_filter in Hin as [Hlt Hin]. cbn.
    split_and!; [done|done|]. exists mt.
    destruct (AtomizationEngine.llm_dependsOn mt) as [deps|]; [|by apply elem_of_nil in Hin].
    by exists deps.
  - intros (Hty & Hlt & mt & deps & Hmt & Hdeps & Hin).
    exists (AtomizationEngine.dependenciesOf n (AtomizationEngine.toIndex d)
              (AtomizationEngine.buildMicroTask mt)).
    split.
    + rewrite dependenciesOf_built, Hdeps. apply list_elem_of_fmap.
      exists (AtomizationEngine.fromIndex d). split.
      * destruct d as [f t ty]. simpl in *. by rewrite Hty.
      * apply list_elem_of_filter. by split.
    + apply elem_of_lookup_imap. exists (AtomizationEngine.toIndex d), (AtomizationEngine.buildMicroTask mt).
      split; [done|]. by rewrite list_lookup_fmap, Hmt.
Qed.

Lemma dependencies_mirror_the_response_witness :
  let response :=
    AtomizationEngine.mkLLMResponse
      [AtomizationEngine.mkLLMMicroTask "Draft outline" None (Some 20) None;
       AtomizationEngine.mkLLMMicroTask "Write report" None (Some 45) (Some [0; -1; 1; 5])]
      None in
  decimalIndices response
  /\ AtomizationEngine.mkDependency (-1) 1 AtomizationEngine.blocks
     ∈ AtomizationEngine.dependencies
         (AtomizationEngine.processLLMResponse response (plainTask "t1" "Report" 0 None medium)).
Proof.
  intros response.
  assert (Hdec : decimalIndices response).
  { unfold decimalIndices, response. cbn.
    repeat first [apply Forall_cons_2 | apply Forall_nil_2]; lia. }
  split; [exact Hdec|].
  apply (dependencies_mirror_the_response response (plainTask "t1" "Report" 0 None medium)
           (AtomizationEngine.mkDependency (-1) 1 AtomizationEngine.blocks) Hdec).
  cbn. split_and!; [done|lia|].
  eexists _, _. split_and!; [done|done|].
  rewrite !elem_of_cons. auto.
Defined.

(** ** Task manager: the views *)

Lemma setHours_midnight offset t :
  setHours (fixedZone offset) t 0 0 0 0 = localDay offset t * msPerDay - offset.
Proof.
  unfold localDay, setHours, LocalTime, UTC, fixedZone, MakeDate, MakeTime. simpl. lia.
Qed.

Lemma localDay_shift offset t k :
  localDay offset (t + k * msPerDay) = localDay offset t + k.
Proof.
  unfold localDay, LocalTime, fixedZone, Day, msPerDay. simpl. divmod.
Qed.

Lemma localDay_midnight offset d :
  localDay offset (d * msPerDay - offset) = d.
Proof.
  unfold localDay, LocalTime, fixedZone, Day, msPerDay. simpl. divmod.
Qed.

Lemma openTasks_spec tz all t :
  t ∈ TaskStore.filterAll tz (Some TaskManager.openTasks) all <-> t ∈ all /\ openTask t.
Proof.
  destruct (filterAll_spec tz TaskManager.openTasks all) as [_ H].
  rewrite H. unfold TaskManager.openTasks, openTask. cbn. split.
  - intros (Hin & Hst & _). split; [done|].
    specialize (Hst _ _ eq_refl). rewrite !elem_of_cons in Hst.
    destruct Hst as [?|[?|Hn]]; auto. by apply elem_of_nil in Hn.
  - intros (Hin & Hopen). split_and!; try done.
    intros x l [= <- <-]. rewrite !elem_of_cons. tauto.
Qed.

Lemma isToday_spec offset now t :
  TaskManager.isToday (fixedZone offset) (setHours (fixedZone offset) now 0 0 0 0) t = true
  <-> exists d, TaskManager.dateToCheck t = Some d /\ localDay offset d = localDay offset now.
Proof.
  unfold TaskManager.isToday, TaskManager.dateToCheck. rewrite !setHours_midnight.
  destruct (scheduledDate t) as [sd|].
  - rewrite setHours_midnight, Z.eqb_eq. split.
    + intros H. exists sd. split; [done|]. unfold msPerDay in H. lia.
    + intros (d & [= <-] & ->). done.
  - destruct (deadline t) as [dl|].
    + rewrite setHours_midnight, Z.eqb_eq. split.
      * intros H. exists dl. split; [done|]. unfold msPerDay in H. lia.
      * intros (d & [= <-] & ->). done.
    + split; [done|]. by intros (d & Hd & _).
Qed.

Lemma take_sorted_is_best (l : list Task) (n : nat) (a b : Task) :
  a ∈ take n (PriorityEngine.prioritizeTasks l) ->
  b ∈ l -> b ∉ take n (PriorityEngine.prioritizeTasks l) ->
  PriorityEngine.compareTasks a b <= 0.
Proof.
  intros Ha Hb Hnb.
  destruct (prioritizeTasks_sorted l) as [Hperm Hsorted].
  rewrite <- Hperm, <- (take_drop n (PriorityEngine.prioritizeTasks l)) in Hb.
  apply elem_of_app in Hb as [Hb|Hb]; [done|].
  rewrite <- (take_drop n (PriorityEngine.prioritizeTasks l)) in Hsorted.
  revert Hsorted Ha Hb.
  generalize (take n (PriorityEngine.prioritizeTasks l)) as l1.
  generalize (drop n (PriorityEngine.prioritizeTasks l)) as l2.
  intros l2 l1. induction l1 as [|x l1 IH]; intros Hs Ha Hb.
  - by apply elem_of_nil in Ha.
  - simpl in Hs. apply StronglySorted_inv in Hs as [Hs Hall].
    apply elem_of_cons in Ha as [->|Ha]; [|by apply IH].
    rewrite Forall_forall in Hall. apply Hall. apply elem_of_app. by right.
Qed.

(** X28.  In a time zone with a fixed offset the three views sort the open
    tasks (status ['pending'] or ['in_progress']) by the local calendar day
    of their scheduled date, or of their deadline when they have no scheduled
    date.  [getTodayTasks] holds the first seven, in priority order, of the
    open tasks of the current local day, so that a task of today left out
    ranks no higher than any task returned; [getUpcomingTasks] holds exactly
    the open tasks of the six local days after today; [getLaterTasks] holds
    exactly the open tasks seven or more local days ahead and those without
    any date.  An open task dated before today is in none of the views. *)
Theorem views_split_open_tasks_by_local_day :
  forall (offset : Z) (now : Date) (all : list Task),
    clearOfLimits now ->
    (forall t d, t ∈ all -> TaskManager.dateToCheck t = Some d -> clearOfLimits d) ->
    let tz := fixedZone offset in
    let today := localDay offset now in
    (exists todayTasks,
       sublist todayTasks all
       /\ (forall t, t ∈ todayTasks <->
             t ∈ all /\ openTask t
             /\ exists d, TaskManager.dateToCheck t = Some d /\ localDay offset d = today)
       /\ TaskManager.getTodayTasks tz now all
          = take 7 (PriorityEngine.prioritizeTasks todayTasks)
       /\ (length (TaskManager.getTodayTasks tz now all) <= 7)%nat
       /\ forall a b, a ∈ TaskManager.getTodayTasks tz now all -> b ∈ todayTasks ->
            b ∉ TaskManager.getTodayTasks tz now all ->
            PriorityEngine.compareTasks a b <= 0)
    /\ (forall t, t ∈ TaskManager.getUpcomingTasks tz now all <->
          t ∈ all /\ openTask t
          /\ exists d, TaskManager.dateToCheck t = Some d
                       /\ today + 1 <= localDay offset d <= today + 6)
    /\ (forall t, t ∈ TaskManager.getLaterTasks tz now all <->
          t ∈ all /\ openTask t
          /\ (TaskManager.dateToCheck t = None
              \/ exists d, TaskManager.dateToCheck t = Some d
                           /\ today + 7 <= localDay offset d))
    /\ (forall t d, TaskManager.dateToCheck t = Some d -> localDay offset d < today ->
          (t ∉ TaskManager.getTodayTasks tz now all)
          /\ (t ∉ TaskManager.getUpcomingTasks tz now all)
          /\ (t ∉ TaskManager.getLaterTasks tz now all)).
Proof.
  intros offset now all _ _ tz today.
  assert (Hup : forall t, t ∈ TaskManager.getUpcomingTasks tz now all <->
            t ∈ all /\ openTask t
            /\ exists d, TaskManager.dateToCheck t = Some d
                         /\ today + 1 <= localDay offset d <= today + 6).
  { intros t. unfold TaskManager.getUpcomingTasks.
    destruct (prioritizeTasks_sorted
                (filter (fun task => TaskManager.isUpcoming tz
                           (setDate tz (setHours tz now 0 0 0 0)
                              (getDate tz (setHours tz now 0 0 0 0) + 1))
                           (setDate tz (setHours tz now 0 0 0 0)
                              (getDate tz (setHours tz now 0 0 0 0) + 7)) task = true)
                   (TaskStore.filterAll tz (Some TaskManager.openTasks) all))) as [Hperm _].
    rewrite Hperm, list_elem_of_filter, openTasks_spec.
    unfold tz. rewrite !setDate_shift, setHours_midnight.
    unfold TaskManager.isUpcoming. fold today.
    destruct (TaskManager.dateToCheck t) as [d|].
    - rewrite setHours_midnight, andb_true_iff, Z.leb_le, Z.ltb_lt. split.
      + intros [Hd [Hin Hopen]]. split_and!; [done|done|]. exists d.
        split; [done|]. unfold msPerDay in Hd. lia.
      + intros (Hin & Hopen & d' & [= <-] & Hd). split; [|done].
        unfold msPerDay. lia.
    - split; [by intros [? _]|]. by intros (_ & _ & d & Hd & _). }
  assert (Hlater : forall t, t ∈ TaskManager.getLaterTasks tz now all <->
            t ∈ all /\ openTask t
            /\ (TaskManager.dateToCheck t = None
                \/ exists d, TaskManager.dateToCheck t = Some d
                             /\ today + 7 <= localDay offset d)).
  { intros t. unfold TaskManager.getLaterTasks.
    destruct (prioritizeTasks_sorted
                (filter (fun task => TaskManager.isLater tz
                           (setHours tz (setDate tz now (getDate tz now + 7)) 0 0 0 0)
                           task = true)
                   (TaskStore.filterAll tz (Some TaskManager.openTasks) all))) as [Hperm _].
    rewrite Hperm, list_elem_of_filter, openTasks_spec.
    unfold tz. rewrite setDate_shift, setHours_midnight, localDay_shift.
    unfold TaskManager.isLater. fold today.
    destruct (TaskManager.dateToCheck t) as [d|].
    - rewrite setHours_midnight, Z.leb_le. split.
      + intros [Hd [Hin Hopen]]. split_and!; [done|done|]. right. exists d.
        split; [done|]. unfold msPerDay in Hd. lia.
      + intros (Hin & Hopen & [Hn|(d' & [= <-] & Hd)]); [done|]. split; [|done].
        unfold msPerDay. lia.
    - split; [intros [_ [? ?]]; auto|]. by intros (? & ? & _). }
  set (todayTasks :=
         filter (fun task => TaskManager.isToday tz (setHours tz now 0 0 0 0) task = true)
           (TaskStore.filterAll tz (Some TaskManager.openTasks) all)).
  assert (Htoday : forall t, t ∈ todayTasks <->
            t ∈ all /\ openTask t
            /\ exists d, TaskManager.dateToCheck t = Some d /\ localDay offset d = today).
  { intros t. unfold todayTasks. rewrite list_elem_of_filter, openTasks_spec.
    unfold tz. rewrite isToday_spec. fold today. tauto. }
  assert (Heq : TaskManager.getTodayTasks tz now all
                = take 7 (PriorityEngine.prioritizeTasks todayTasks)) by done.
  split_and!; [|exact Hup|exact Hlater|].
  - exists todayTasks. split_and!.
    + unfold todayTasks. etrans; [apply sublist_filter|].
      apply (filterAll_spec tz TaskManager.openTasks all).
    + exact Htoday.
    + exact Heq.
    + rewrite Heq, length_take. lia.
    + intros a b Ha Hb Hnb. rewrite Heq in Ha, Hnb.
      by apply (take_sorted_is_best todayTasks 7).
  - intros t d Hd Hlt. split_and!.
    + intros Hin. rewrite Heq in Hin. apply elem_of_take in Hin as (i & Hin & _).
      apply list_elem_of_lookup_2 in Hin.
      destruct (prioritizeTasks_sorted todayTasks) as [Hperm _].
      rewrite Hperm in Hin. apply Htoday in Hin as (_ & _ & d' & Hd' & Hday).
      rewrite Hd in Hd'. injection Hd' as <-. lia.
    + intros Hin. apply Hup in Hin as (_ & _ & d' & Hd' & Hday).
      rewrite Hd in Hd'. injection Hd' as <-. lia.
    + intros Hin. apply Hlater in Hin as (_ & _ & [Hn|(d' & Hd' & Hday)]).
      * by rewrite Hd in Hn.
      * rewrite Hd in Hd'. injection Hd' as <-. lia.
Qed.

Lemma views_split_open_tasks_by_local_day_witness :
  let offset := -18000000 in
  let now := 1730732400000 in
  let all :=
    [ plainTask "a" "Pay rent" 0 (Some (now + msPerHour)) high;
      plainTask "b" "Book room" 0 (Some (now + 3 * msPerDay)) medium;
      plainTask "c" "Sort photos" 0 None low ] in
  let tz := fixedZone offset in
  let today := localDay offset now in
  (exists todayTasks,
     sublist todayTasks all
     /\ (forall t, t ∈ todayTasks <->
           t ∈ all /\ openTask t
           /\ exists d, TaskManager.dateToCheck t = Some d /\ localDay offset d = today)
     /\ TaskManager.getTodayTasks tz now all
        = take 7 (PriorityEngine.prioritizeTasks todayTasks)
     /\ (length (TaskManager.getTodayTasks tz now all) <= 7)%nat
     /\ forall a b, a ∈ TaskManager.getTodayTasks tz now all -> b ∈ todayTasks ->
          b ∉ TaskManager.getTodayTasks tz now all ->
          PriorityEngine.compareTasks a b <= 0)
  /\ (forall t, t ∈ TaskManager.getUpcomingTasks tz now all <->
        t ∈ all /\ openTask t
        /\ exists d, TaskManager.dateToCheck t = Some d
                     /\ today + 1 <= localDay offset d <= today + 6)
  /\ (forall t, t ∈ TaskManager.getLaterTasks tz now all <->
        t ∈ all /\ openTask t
        /\ (TaskManager.dateToCheck t = None
            \/ exists d, TaskManager.dateToCheck t = Some d
                         /\ today + 7 <= localDay offset d))
  /\ (forall t d, TaskManager.dateToCheck t = Some d -> localDay offset d < today ->
        (t ∉ TaskManager.getTodayTasks tz now all)
        /\ (t ∉ TaskManager.getUpcomingTasks tz now all)
        /\ (t ∉ TaskManager.getLaterTasks tz now all)).
Proof.
  intros offset now all.
  apply (views_split_open_tasks_by_local_day offset now all).
  - vm_compute. split; discriminate.
  - intros t d Hin Hd. unfold all in Hin. rewrite !elem_of_cons in Hin.
    destruct Hin as [->|[->|[->|Hin]]]; [| | |by apply elem_of_nil in Hin];
      cbn in Hd; try discriminate; injection Hd as <-;
      vm_compute; split; discriminate.
Defined.

(** ** Task manager: [createTask] *)

(** A computed reason starts with the level, so it is never the reason
    ['User specified'] that [create] stores. *)
Lemma generateReason_computed level factors :
  PriorityEngine.generateReason level factors <> "User specified".
Proof.
  assert (Hd : PriorityEngine.defaultReason level <> "User specified")
    by by destruct level.
  unfold PriorityEngine.generateReason.
  destruct (find _ factors) as [f|]; [|done].
  destruct (String.eqb (PriorityEngine.explanation f) "Overdue"); [done|].
  destruct (String.eqb (PriorityEngine.explanation f) "Due within 24 hours"); [done|].
  destruct (String.prefix "Due in" (PriorityEngine.explanation f)); [|done].
  destruct (PriorityEngine.matchDueIn _) as [ds|]; [|done].
  destruct (JS.parseInt _) as [days|]; [|done].
  destruct (days <=? 7); [|done].
  by destruct level.
Qed.


(** ** Task manager: [getChildTasks] *)

Lemma getAll_ids tasks :
  keyed tasks -> id <$> TaskStore.getAll tasks = (map_to_list tasks).*1.
Proof.
  intros Hk. unfold TaskStore.getAll. rewrite <- list_fmap_compose.
  apply Forall_fmap_ext, Forall_forall. intros [k t] Hin.
  apply elem_of_map_to_list in Hin. simpl. by apply Hk.
Qed.

Lemma elem_of_getAll tasks t :
  t ∈ TaskStore.getAll tasks <-> exists k, tasks !! k = Some t.
Proof.
  unfold TaskStore.getAll. rewrite list_elem_of_fmap. split.
  - intros ([k t'] & -> & Hin). exists k. by apply elem_of_map_to_list.
  - intros (k & Hk). exists (k, t). split; [done|]. by apply elem_of_map_to_list.
Qed.

(** X30.  In a store whose tasks stand under their own ids and whose
    parent/child links agree -- as every sequence of store operations keeps
    them -- [getChildTasks] of a stored parent returns exactly the tasks that
    the parent lists in [childIds], each once. *)
Theorem child_tasks_are_the_listed_children :
  forall (tz : TimeZone) (store : TaskStore.Tasks) (p : string) (parent : Task),
    keyed store -> linked store -> store !! p = Some parent ->
    id <$> TaskManager.getChildTasks tz (TaskStore.getAll store) p ≡ₚ childIds parent
    /\ forall t, t ∈ TaskManager.getChildTasks tz (TaskStore.getAll store) p ->
         store !! id t = Some t /\ parentId t = Some p.
Proof.
  intros tz store p parent Hk Hl Hp.
  unfold TaskManager.getChildTasks.
  set (f := mkTaskFilter None None None (Some p) None).
  destruct (filterAll_spec tz f (TaskStore.getAll store)) as [Hsub Hmem].
  assert (Hchild : forall t, t ∈ TaskStore.filterAll tz (Some f) (TaskStore.getAll store) <->
            store !! id t = Some t /\ parentId t = Some p).
  { intros t. rewrite Hmem, elem_of_getAll. unfold f. cbn. split.
    - intros ((k & Hkt) & _ & _ & _ & Hpar & _). split; [|by apply Hpar].
      by rewrite (Hk _ _ Hkt).
    - intros (Hin & Hpar). split_and!; try done; [by eexists|].
      by intros pid [= <-]. }
  split; [|intros t Ht; by apply Hchild].
  destruct (Hl p parent Hp) as [Hnd Hc].
  apply NoDup_Permutation; [|done|].
  - assert (Hids : NoDup (id <$> TaskStore.getAll store)).
    { rewrite getAll_ids by done. apply NoDup_fst_map_to_list. }
    assert (Hsub' : sublist (id <$> TaskStore.filterAll tz (Some f) (TaskStore.getAll store))
                      (id <$> TaskStore.getAll store)) by by apply fmap_sublist.
    exact (sublist_NoDup _ _ Hids Hsub').
  - intros c. rewrite Hc, list_elem_of_fmap. split.
    + intros (t & -> & Ht). apply Hchild in Ht as [Hin Hpar]. by exists t.
    + intros (child & Hin & Hpar). exists child.
      assert (Hid : id child = c) by by apply (Hk _ _ Hin).
      split; [done|]. apply Hchild. by rewrite Hid.
Qed.

Lemma child_tasks_are_the_listed_children_witness :
  let ops :=
    [ OpCreate 1 "p" (mkTaskInput "Plan the trip" None None None None None None None);
      OpCreate 2 "a" (mkTaskInput "Book the flights" None None (Some "p") None None None None);
      OpCreate 3 "b" (mkTaskInput "Reserve a room" None None (Some "p") None None None None) ] in
  let store := runOps (fun _ _ => true) (fixedZone 0) ∅ ops in
  exists parent,
    store !! "p" = Some parent
    /\ id <$> TaskManager.getChildTasks (fixedZone 0) (TaskStore.getAll store) "p"
       ≡ₚ childIds parent
    /\ forall t, t ∈ TaskManager.getChildTasks (fixedZone 0) (TaskStore.getAll store) "p" ->
         store !! id t = Some t /\ parentId t = Some "p".
Proof.
  intros ops store.
  destruct (runOps_linked (fun _ _ => true) (fixedZone 0) ops ∅) as (Hk & _ & Hl).
  - apply map_Forall_empty.
  - apply lookup_empty.
  - intros p parent Hp. by rewrite lookup_empty in Hp.
  - unfold ops, freshIds, unused.
    repeat split; try discriminate; try (vm_compute; reflexivity);
      apply (bool_decide_unpack _); vm_compute; reflexivity.
  - assert (Hp : exists parent, store !! "p" = Some parent).
    { vm_compute. by eexists. }
    destruct Hp as [parent Hp]. exists parent. split; [exact Hp|].
    exact (child_tasks_are_the_listed_children (fixedZone 0) store "p" parent Hk Hl Hp).
Defined.

(** ** Atomization engine: [topologicalSort] *)

Import AtomizationEngine DependencyGraph.

(** *** Building the graph *)

Lemma addEdges_app E1 E2 g : addEdges (E1 ++ E2) g = addEdges E2 (addEdges E1 g).
Proof. apply foldl_app. Qed.

Lemma addDependsOn_ok n toIndex deps : forall g,
  (forall s k, s ∈ deps -> JS.parseInt s = Some k -> 0 <= k) ->
  addDependsOn n toIndex deps g = Ok (addEdges (edgesOf n toIndex deps) g).
Proof.
  induction deps as [|s deps IH]; intros g Hnn; [reflexivity|].
  assert (Hrest : forall s' k, s' ∈ deps -> JS.parseInt s' = Some k -> 0 <= k).
  { intros s' k Hin. apply Hnn. by right. }
  unfold edgesOf. simpl. destruct (JS.parseInt s) as [k|] eqn:Hk; [|by apply IH].
  assert (0 <= k) by (eapply Hnn; [left|done]).
  destruct ((k <? Z.of_nat n) && negb (k =? Z.of_nat toIndex)) eqn:Hguard; simpl.
  - destruct (Z.leb_spec 0 k); [|lia]. simpl.
    destruct g as [adjList inDegree]. simpl.
    destruct (Z.ltb_spec k 0); [lia|]. by apply IH.
  - by apply IH.
Qed.

Lemma buildGraph_ok n microTasks : forall toIndex g,
  nonnegative microTasks ->
  buildGraph n toIndex microTasks g = Ok (addEdges (edgeListFrom n toIndex microTasks) g).
Proof.
  induction microTasks as [|mt rest IH]; intros toIndex g Hnn; [reflexivity|].
  apply Forall_cons in Hnn as [Hmt Hrest].
  simpl. rewrite addDependsOn_ok.
  - rewrite addEdges_app. by apply IH.
  - intros s k Hin Hk. rewrite Forall_forall in Hmt.
    specialize (Hmt s Hin). by rewrite Hk in Hmt.
Qed.

Lemma addEdges_length E : forall g,
  length (addEdges E g).1 = length g.1 /\ length (addEdges E g).2 = length g.2.
Proof.
  induction E as [|e E IH]; intros g; [by split|].
  simpl. destruct (IH (alter (fun l => l ++ [e.2]) e.1 g.1, alter Z.succ e.2 g.2)) as [H1 H2].
  unfold addEdges in *. rewrite H1, H2. simpl. by rewrite !length_alter.
Qed.

Lemma addEdges_adj E u : forall g,
  (addEdges E g).1 !! u = (fun l => l ++ targets E u) <$> g.1 !! u.
Proof.
  induction E as [|e E IH]; intros g.
  - simpl. destruct (g.1 !! u); simpl; [by rewrite app_nil_r|done].
  - change (addEdges (e :: E) g)
      with (addEdges E (alter (fun l => l ++ [e.2]) e.1 g.1, alter Z.succ e.2 g.2)).
    rewrite IH. simpl. unfold targets at 2. simpl. fold (targets E u).
    destruct (decide (e.1 = u)) as [Heq|Hne].
    + rewrite Heq, list_lookup_alter_eq. destruct (g.1 !! u); simpl; [|done].
      by rewrite <- app_assoc.
    + by rewrite list_lookup_alter_ne.
Qed.

Lemma addEdges_deg E v : forall g,
  (addEdges E g).2 !! v = (fun d => d + Z.of_nat (indegree E v)) <$> g.2 !! v.
Proof.
  induction E as [|e E IH]; intros g.
  - unfold indegree. simpl. destruct (g.2 !! v); simpl; [f_equal; lia|done].
  - change (addEdges (e :: E) g)
      with (addEdges E (alter (fun l => l ++ [e.2]) e.1 g.1, alter Z.succ e.2 g.2)).
    rewrite IH. simpl. unfold indegree at 2. rewrite filter_cons.
    fold (indegree E v).
    destruct (decide (e.2 = v)) as [Heq|Hne].
    + rewrite Heq, list_lookup_alter_eq. destruct (g.2 !! v); simpl; [|done].
      unfold indegree. f_equal. lia.
    + by rewrite list_lookup_alter_ne.
Qed.

Lemma pending_nil E v : pending E [] v = indegree E v.
Proof.
  unfold pending, indegree. f_equal. apply list_filter_iff. intros e.
  split; [by intros [? _]|intros ?; split; [done|apply not_elem_of_nil]].
Qed.

(** *** The edge list and the edge relation *)

Lemma elem_of_edgesOf n toIndex deps u v :
  (u, v) ∈ edgesOf n toIndex deps <->
  v = toIndex /\ (u < n)%nat /\ u ≠ v
  /\ exists s, s ∈ deps /\ JS.parseInt s = Some (Z.of_nat u).
Proof.
  unfold edgesOf. rewrite list_elem_of_omap. split.
  - intros (s & Hin & Hs). destruct (JS.parseInt s) as [k|] eqn:Hk; [|done].
    destruct (Z.ltb_spec k (Z.of_nat n)); [|done].
    destruct (Z.eqb_spec k (Z.of_nat toIndex)); [done|].
    destruct (Z.leb_spec 0 k); [|done]. simpl in Hs. injection Hs as <- <-.
    repeat split; [lia|lia|]. exists s. split; [done|]. rewrite Hk. f_equal. lia.
  - intros (-> & Hu & Hne & s & Hin & Hs). exists s. split; [done|]. rewrite Hs.
    destruct (Z.ltb_spec (Z.of_nat u) (Z.of_nat n)); [|lia].
    destruct (Z.eqb_spec (Z.of_nat u) (Z.of_nat toIndex)); [lia|].
    destruct (Z.leb_spec 0 (Z.of_nat u)); [|lia]. simpl. by rewrite Nat2Z.id.
Qed.

Lemma elem_of_edgeListFrom n microTasks : forall toIndex u v,
  (u, v) ∈ edgeListFrom n toIndex microTasks <->
  (toIndex <= v)%nat /\ (u < n)%nat /\ u ≠ v
  /\ exists mt s, microTasks !! (v - toIndex)%nat = Some mt
                  /\ s ∈ dependsOn mt /\ JS.parseInt s = Some (Z.of_nat u).
Proof.
  induction microTasks as [|mt rest IH]; intros toIndex u v; simpl.
  - split; [by intros ?%elem_of_nil|]. by intros (_ & _ & _ & mt & s & ? & _).
  - rewrite elem_of_app, elem_of_edgesOf, IH. split.
    + intros [(-> & Hu & Hne & s & Hin & Hs)|(Hle & Hu & Hne & mt' & s & Hl & Hin & Hs)].
      * repeat split; [lia|done|done|]. exists mt, s.
        by rewrite Nat.sub_diag.
      * repeat split; [lia|done|done|]. exists mt', s.
        replace (v - toIndex)%nat with (S (v - S toIndex)) by lia. done.
    + intros (Hle & Hu & Hne & mt' & s & Hl & Hin & Hs).
      destruct (decide (v = toIndex)) as [->|Hv].
      * left. rewrite Nat.sub_diag in Hl. injection Hl as <-. eauto 10.
      * right. repeat split; [lia|done|done|]. exists mt', s.
        replace (v - toIndex)%nat with (S (v - S toIndex)) in Hl by lia. done.
Qed.

Lemma elem_of_edgeList microTasks u v :
  (u, v) ∈ edgeList microTasks <-> edge microTasks u v.
Proof.
  unfold edgeList, edge, listed. rewrite elem_of_edgeListFrom, Nat.sub_0_r.
  split.
  - intros (_ & Hu & Hne & mt & s & H). repeat split; eauto.
  - intros ((mt & s & H) & Hu & Hne). repeat split; eauto with lia.
Qed.

Lemma edge_bounds microTasks u v :
  edge microTasks u v -> (u < length microTasks)%nat /\ (v < length microTasks)%nat /\ u ≠ v.
Proof.
  intros ((mt & s & Hl & _) & Hu & Hne). repeat split; [done| |done].
  by eapply lookup_lt_Some.
Qed.

(** *** The loop of Kahn's algorithm *)

Section Kahn.

Variable n : nat.
Variable E : list (nat * nat).
Variable adjList : list (list nat).

Hypothesis E_bounds : forall u v, (u, v) ∈ E -> (u < n)%nat /\ (v < n)%nat /\ u ≠ v.
Hypothesis adjList_spec : forall u, (u < n)%nat -> adjList !! u = Some (targets E u).

Lemma elem_of_targets u v : v ∈ targets E u <-> (u, v) ∈ E.
Proof.
  unfold targets. rewrite list_elem_of_omap. split.
  - intros ([a b] & Hin & H). simpl in H. case_decide; [|done].
    injection H as <-. by subst.
  - intros Hin. exists (u, v). split; [done|]. simpl. by rewrite decide_True.
Qed.

Lemma count_pos l v : (0 < count l v)%nat <-> v ∈ l.
Proof.
  unfold count. induction l as [|x l IH]; simpl.
  - split; [lia|by intros ?%elem_of_nil].
  - rewrite filter_cons, elem_of_cons. destruct (decide (x = v)) as [->|Hne]; simpl.
    + split; [by left|lia].
    + rewrite IH. split; [by right|]. by intros [?|?].
Qed.

Lemma count_cons_eq l v : count (v :: l) v = S (count l v).
Proof. unfold count. by rewrite filter_cons, decide_True. Qed.

Lemma count_cons_ne l x v : x ≠ v -> count (x :: l) v = count l v.
Proof. intros. unfold count. by rewrite filter_cons, decide_False. Qed.

(** Moving [node] into the output takes the edges leaving [node] out of the
    pending counts. *)
Lemma not_elem_of_snoc (l : list nat) (x a : nat) : a ∉ l ++ [x] ↔ a ≠ x ∧ a ∉ l.
Proof. rewrite elem_of_app, list_elem_of_singleton. tauto. Qed.

Lemma pending_snoc done node v :
  node ∉ done ->
  pending E done v = (pending E (done ++ [node]) v + count (targets E node) v)%nat.
Proof.
  intros Hnode. unfold pending, targets, count. clear E_bounds adjList_spec.
  induction E as [|[a b] E' IH]; [done|].
  rewrite !filter_cons. simpl in *.
  repeat (case_decide; simpl; rewrite ?filter_cons).
  all: change (list_omap (nat * nat)%type nat)
         with (@omap list list_omap (nat * nat)%type nat).
  all: try lia.
  all: exfalso; subst;
    repeat match goal with
      | H : context [ ?a ∉ ?l ++ [?x] ] |- _ => rewrite (not_elem_of_snoc l x a) in H
      end; intuition congruence.
Qed.

Lemma pending_zero done v :
  pending E done v = 0%nat <-> forall u, (u, v) ∈ E -> u ∈ done.
Proof.
  unfold pending. rewrite length_zero_iff_nil. split.
  - intros Hnil u Hin. destruct (decide (u ∈ done)) as [|Hno]; [done|].
    assert (Hf : (u, v) ∈ filter (fun e => e.2 = v /\ e.1 ∉ done) E)
      by (apply list_elem_of_filter; by repeat split).
    rewrite Hnil in Hf. by apply elem_of_nil in Hf.
  - intros Hall. apply elem_of_nil_inv. intros [a b] [[Hb Ha] Hin]%list_elem_of_filter.
    simpl in *. subst. apply Ha, Hall, Hin.
Qed.

(** The inner [for] loop: every in-degree drops by the number of edges from
    [node], and the nodes whose in-degree reaches 0 are queued once. *)
Lemma relax_all (c : nat -> nat) ns : forall inDegree queue,
  length inDegree = n ->
  (forall v, v ∈ ns -> (v < n)%nat) ->
  (forall v, (v < n)%nat -> inDegree !! v = Some (Z.of_nat (c v + count ns v))) ->
  exists inDegree' newly,
    foldl relax (inDegree, queue) ns = (inDegree', queue ++ newly)
    /\ length inDegree' = n
    /\ (forall v, (v < n)%nat -> inDegree' !! v = Some (Z.of_nat (c v)))
    /\ NoDup newly
    /\ (forall v, v ∈ newly <-> v ∈ ns /\ c v = 0%nat).
Proof.
  induction ns as [|x ns IH]; intros inDegree queue Hlen Hns Hdeg.
  - exists inDegree, []. simpl. rewrite app_nil_r. split_and!.
    + done.
    + done.
    + intros v Hv. rewrite (Hdeg v Hv). do 2 f_equal. unfold count. simpl. lia.
    + constructor.
    + intros v. split; [by intros ?%elem_of_nil|by intros [?%elem_of_nil _]].
  - assert (Hx : (x < n)%nat) by (apply Hns; left).
    set (inDegree1 := alter Z.pred x inDegree).
    assert (Hlen1 : length inDegree1 = n) by (unfold inDegree1; by rewrite length_alter).
    assert (Hdeg1 : forall v, (v < n)%nat ->
              inDegree1 !! v = Some (Z.of_nat (c v + count ns v))).
    { intros v Hv. unfold inDegree1. destruct (decide (x = v)) as [->|Hne].
      - rewrite list_lookup_alter_eq, (Hdeg v Hv), count_cons_eq. simpl. f_equal. lia.
      - rewrite list_lookup_alter_ne, (Hdeg v Hv), count_cons_ne by done. done. }
    assert (Hns1 : forall v, v ∈ ns -> (v < n)%nat) by (intros v Hv; apply Hns; by right).
    simpl. fold inDegree1. rewrite (Hdeg1 x Hx).
    destruct (decide (Some (Z.of_nat (c x + count ns x)) = Some 0)) as [Hz|Hnz].
    + assert (Hc : c x = 0%nat /\ count ns x = 0%nat) by (injection Hz; lia).
      destruct Hc as [Hcx Hcnt].
      destruct (IH inDegree1 (queue ++ [x]) Hlen1 Hns1 Hdeg1)
        as (inDegree' & newly & Hrun & Hlen' & Hdeg' & Hnd & Hmem).
      exists inDegree', (x :: newly). rewrite Hrun, <- app_assoc. simpl.
      split_and!; try done.
      * constructor; [|done]. rewrite Hmem. intros [Hin _].
        apply count_pos in Hin. lia.
      * intros v. rewrite !elem_of_cons, Hmem. split.
        -- intros [->|[? ?]]; [by split; [left|]|by split; [right|]].
        -- intros [[->|Hin] Hcv]; [by left|by right].
    + destruct (IH inDegree1 queue Hlen1 Hns1 Hdeg1)
        as (inDegree' & newly & Hrun & Hlen' & Hdeg' & Hnd & Hmem).
      exists inDegree', newly. rewrite Hrun.
      split_and!; try done.
      intros v. rewrite elem_of_cons, Hmem. split.
      * intros [? ?]. by split; [right|].
      * intros [[->|Hin] Hcv]; [|done]. split; [|done].
        apply count_pos. destruct (count ns x) eqn:Hcnt; [|lia].
        exfalso. apply Hnz. do 2 f_equal. lia.
Qed.

Lemma bounded_NoDup_length (l : list nat) :
  NoDup l -> (forall x, x ∈ l -> (x < n)%nat) -> (length l <= n)%nat.
Proof.
  intros Hnd Hlt. rewrite <- (length_seq n 0). apply submseteq_length.
  apply NoDup_submseteq; [done|]. intros x Hx. apply elem_of_seq. split; [lia|].
  by apply Hlt.
Qed.

Lemma before_app_l (l k : list nat) u v : before l u v -> before (l ++ k) u v.
Proof.
  intros (i & j & Hi & Hj & Hij). exists i, j.
  split_and!; [by apply lookup_app_l_Some|by apply lookup_app_l_Some|done].
Qed.

Lemma before_snoc (l : list nat) u v : u ∈ l -> before (l ++ [v]) u v.
Proof.
  intros [i Hi]%list_elem_of_lookup_1. exists i, (length l).
  split_and!.
  - by apply lookup_app_l_Some.
  - by apply list_lookup_middle.
  - by eapply lookup_lt_Some.
Qed.

Lemma snoc_app_assoc (result queue newly : list nat) node :
  (result ++ [node]) ++ queue ++ newly = (result ++ node :: queue) ++ newly.
Proof. by rewrite <- !app_assoc. Qed.

(** One turn of the [while] loop keeps the invariant. *)
Lemma loop_step inDegree node queue result :
  loop_invariant n E inDegree (node :: queue) result ->
  exists inDegree' queue',
    foldl relax (inDegree, queue) (default [] (adjList !! node)) = (inDegree', queue')
    /\ loop_invariant n E inDegree' queue' (result ++ [node]).
Proof.
  intros (Hnd & Hlt & Hlen & Hdeg & Hzero & Hord).
  assert (Hnode : (node < n)%nat).
  { apply Hlt. rewrite elem_of_app, elem_of_cons. auto. }
  assert (Hfresh : node ∉ result).
  { apply NoDup_app in Hnd as (_ & Hdisj & _). intros Hin.
    apply (Hdisj node Hin). by left. }
  rewrite (adjList_spec node Hnode). simpl.
  destruct (relax_all (pending E (result ++ [node])) (targets E node) inDegree queue)
    as (inDegree' & newly & Hrun & Hlen' & Hdeg' & Hndn & Hmem).
  - done.
  - intros v Hv%elem_of_targets. by apply E_bounds in Hv as (_ & ? & _).
  - intros v Hv. rewrite (Hdeg v Hv). do 2 f_equal. by apply pending_snoc.
  - exists inDegree', (queue ++ newly). split; [done|].
    assert (Hnew : forall v, v ∈ newly -> v ∉ result ++ node :: queue).
    { intros v [Hin Hc]%Hmem Hold.
      assert (Hv : (v < n)%nat) by by apply Hlt.
      apply Hzero in Hold; [|done].
      rewrite (pending_snoc result node v Hfresh) in Hold.
      apply count_pos in Hin. lia. }
    split_and!.
    + rewrite snoc_app_assoc.
      apply NoDup_app. split_and!; [done| |done].
      intros x Hx Hx'. by apply (Hnew x Hx').
    + intros x. rewrite snoc_app_assoc, elem_of_app.
      intros [Hx|Hx]; [by apply Hlt|].
      apply Hmem in Hx as [Hx%elem_of_targets _].
      by apply E_bounds in Hx as (_ & ? & _).
    + done.
    + done.
    + intros v Hv. rewrite snoc_app_assoc, elem_of_app. split.
      * intros [Hold|Hx]; [|by apply Hmem in Hx as [_ ?]].
        apply Hzero in Hold; [|done].
        rewrite (pending_snoc result node v Hfresh) in Hold. lia.
      * intros Hz. destruct (decide (pending E result v = 0%nat)) as [Hz0|Hnz].
        -- left. by apply Hzero.
        -- right. apply Hmem. split; [|done]. apply count_pos.
           rewrite (pending_snoc result node v Hfresh) in Hnz. lia.
    + intros u v Huv. rewrite elem_of_app, list_elem_of_singleton.
      intros [Hv| ->].
      * apply before_app_l. by apply Hord.
      * apply before_snoc.
        assert (Hz : pending E result node = 0%nat).
        { apply Hzero; [done|]. rewrite elem_of_app, elem_of_cons. auto. }
        by apply (proj1 (pending_zero result node) Hz).
Qed.

(** The loop ends within [n] turns, and the invariant holds when it does. *)
Lemma kahn_terminates fuel : forall inDegree queue result,
  loop_invariant n E inDegree queue result ->
  (n <= fuel + length result)%nat ->
  exists final inDegree',
    kahn fuel adjList inDegree queue result = Some final
    /\ loop_invariant n E inDegree' [] final.
Proof.
  induction fuel as [|fuel IH]; intros inDegree queue result Hinv Hfuel.
  - destruct queue as [|node queue]; [by exists result, inDegree|].
    destruct Hinv as (Hnd & Hlt & _).
    pose proof (bounded_NoDup_length _ Hnd Hlt) as Hlen.
    rewrite length_app in Hlen. simpl in Hlen. lia.
  - destruct queue as [|node queue]; [by exists result, inDegree|].
    destruct (loop_step _ _ _ _ Hinv) as (inDegree' & queue' & Hrun & Hinv').
    simpl. rewrite Hrun. apply (IH _ _ _ Hinv').
    rewrite length_app. simpl. lia.
Qed.

Lemma loop_invariant_initial inDegree :
  length inDegree = n ->
  (forall v, (v < n)%nat -> inDegree !! v = Some (Z.of_nat (pending E [] v))) ->
  loop_invariant n E inDegree (initialQueue n inDegree) [].
Proof.
  intros Hlen Hdeg. unfold initialQueue. split_and!; simpl.
  - apply NoDup_filter, NoDup_seq.
  - intros x [_ Hx%elem_of_seq]%list_elem_of_filter. lia.
  - done.
  - done.
  - intros v Hv. rewrite list_elem_of_filter, elem_of_seq, (Hdeg v Hv). split.
    + intros [Hz _]. injection Hz. lia.
    + intros ->. split; [done|lia].
  - by intros u v _ ?%elem_of_nil.
Qed.

(** When the loop has output every position, the output is a topological
    order; when the graph is acyclic, the loop outputs every position. *)
Lemma final_complete_order inDegree final :
  loop_invariant n E inDegree [] final -> length final = n ->
  final ≡ₚ seq 0 n /\ (forall u v, (u, v) ∈ E -> before final u v).
Proof.
  intros (Hnd & Hlt & _ & _ & _ & Hord) Hlen. rewrite app_nil_r in Hnd.
  assert (Hperm : final ≡ₚ seq 0 n).
  { apply submseteq_length_Permutation; [|by rewrite length_seq, Hlen].
    apply NoDup_submseteq; [done|]. intros x Hx. apply elem_of_seq. split; [lia|].
    apply Hlt. by rewrite app_nil_r. }
  split; [done|]. intros u v Huv. apply Hord; [done|].
  rewrite Hperm. apply elem_of_seq. apply E_bounds in Huv. lia.
Qed.

Lemma before_irrefl (l : list nat) u : NoDup l -> ~ before l u u.
Proof.
  intros Hnd (i & j & Hi & Hj & Hij).
  pose proof (NoDup_lookup l i j u Hnd Hi Hj). lia.
Qed.

Lemma before_trans (l : list nat) u v w :
  NoDup l -> before l u v -> before l v w -> before l u w.
Proof.
  intros Hnd (i & j & Hi & Hj & Hij) (j' & k & Hj' & Hk & Hjk).
  pose proof (NoDup_lookup l j j' v Hnd Hj Hj'). subst j'.
  exists i, k. split_and!; [done|done|lia].
Qed.

Lemma final_complete_acyclic inDegree final :
  loop_invariant n E inDegree [] final -> length final = n ->
  forall u, ~ tc (fun a b => (a, b) ∈ E) u u.
Proof.
  intros Hinv Hlen u Hcycle.
  destruct (final_complete_order _ _ Hinv Hlen) as [_ Hord].
  destruct Hinv as (Hnd & _). rewrite app_nil_r in Hnd.
  assert (Hpath : forall a b, tc (fun a b => (a, b) ∈ E) a b -> before final a b).
  { intros a b Hab. induction Hab as [a b Hab|a b c Hab _ IH].
    - by apply Hord.
    - eapply before_trans; [done|by apply Hord|done]. }
  by apply (before_irrefl final u Hnd), Hpath.
Qed.

Lemma tc_flip_inv {A} (R : relation A) x y : tc (flip R) x y -> tc R y x.
Proof.
  induction 1 as [a b Hab|a b c Hab _ IH]; [by apply tc_once|].
  eapply tc_r; [exact IH|exact Hab].
Qed.

Lemma edges_well_founded :
  (forall u, ~ tc (fun a b => (a, b) ∈ E) u u) ->
  forall v, Acc (fun a b => (a, b) ∈ E) v.
Proof.
  intros Hacyc v.
  apply (tc_finite_sn (R := flip (fun a b => (a, b) ∈ E)) v).
  - intros x Hx. apply (Hacyc x). by apply tc_flip_inv.
  - exists (seq 0 n). intros y Hy. apply tc_flip_inv in Hy.
    apply elem_of_seq. split; [lia|].
    destruct Hy as [a b Hab|a b c Hab _]; by apply E_bounds in Hab as (? & _).
Qed.

Lemma final_acyclic_complete inDegree final :
  (forall u, ~ tc (fun a b => (a, b) ∈ E) u u) ->
  loop_invariant n E inDegree [] final -> length final = n.
Proof.
  intros Hacyc (Hnd & Hlt & _ & _ & Hzero & _). rewrite app_nil_r in *.
  assert (Hall : forall v, (v < n)%nat -> v ∈ final).
  { intros v. induction (edges_well_founded Hacyc v) as [v _ IH]. intros Hv.
    apply Hzero; [done|]. apply pending_zero. intros u Huv.
    apply IH; [done|]. by apply E_bounds in Huv as (? & _). }
  apply Nat.le_antisymm; [by apply bounded_NoDup_length|].
  rewrite <- (length_seq n 0) at 1. apply submseteq_length.
  apply NoDup_submseteq; [apply NoDup_seq|].
  intros x [_ Hx]%elem_of_seq. apply Hall. lia.
Qed.

End Kahn.

Lemma tc_iff {A} (R R' : relation A) x y :
  (forall a b, R a b <-> R' a b) -> tc R x y -> tc R' x y.
Proof.
  intros HR. induction 1 as [a b Hab|a b c Hab _ IH].
  - by apply tc_once, HR.
  - eapply tc_l; [by apply HR|done].
Qed.

(** C5, as stated, fails: the second micro-task lists itself as a
    dependency, a cycle of the graph its [dependsOn] entries describe, and
    the result is not the original order [[0; 1]]. *)
Lemma self_dependency_is_ignored :
  let microTasks :=
    [ mkMicroTask "Write summary" None 30 ["1"] false;
      mkMicroTask "Collect figures" None 30 ["1"] false ] in
  tc (listed microTasks) 1%nat 1%nat
  /\ topologicalSort microTasks = Some (Ok [1%nat; 0%nat])
  /\ [1%nat; 0%nat] <> seq 0 (length microTasks).
Proof.
  intros microTasks. split_and!.
  - apply tc_once. exists (mkMicroTask "Collect figures" None 30 ["1"] false), "1".
    split_and!; [reflexivity|by left|reflexivity].
  - reflexivity.
  - discriminate.
Qed.

(** The guard on [fromIndex] has no lower bound: an entry that reads as a
    negative number makes [adjList[fromIndex]] undefined and the call throws. *)
Lemma negative_index_throws :
  topologicalSort [ mkMicroTask "Write summary" None 30 ["-1"] false ]
  = Some (Throw "TypeError: Cannot read properties of undefined (reading 'push')").
Proof. reflexivity. Qed.

(** C5, amended.  When no [dependsOn] entry reads as a negative number,
    [topologicalSort] returns a list [order].  With the edges the function
    keeps (a listed dependency on another position of the list): if they
    form no cycle, [order] is a permutation of [0 .. n-1] in which every
    dependency comes before its dependents; if they form a cycle, [order] is
    [0 .. n-1] in the original order. *)
Theorem topologicalSort_correct :
  forall microTasks : list MicroTaskSuggestion,
    nonnegative microTasks ->
    exists order,
      topologicalSort microTasks = Some (Ok order)
      /\ (acyclic microTasks ->
            order ≡ₚ seq 0 (length microTasks)
            /\ forall u v, edge microTasks u v -> before order u v)
      /\ ((exists u, tc (edge microTasks) u u) -> order = seq 0 (length microTasks)).
Proof.
  intros microTasks Hnn. unfold topologicalSort.
  set (n := length microTasks). set (E := edgeList microTasks).
  rewrite (buildGraph_ok n microTasks 0 _ Hnn).
  change (edgeListFrom n 0 microTasks) with E.
  pose proof (addEdges_length E (replicate n [], replicate n 0)) as [Hla Hld].
  pose proof (fun u => addEdges_adj E u (replicate n [], replicate n 0)) as Hadj.
  pose proof (fun v => addEdges_deg E v (replicate n [], replicate n 0)) as Hdeg.
  destruct (addEdges E (replicate n [], replicate n 0)) as [adjList inDegree].
  cbn [fst snd] in *. rewrite length_replicate in Hla. rewrite length_replicate in Hld.
  assert (HE : forall u v, (u, v) ∈ E -> (u < n)%nat /\ (v < n)%nat /\ u ≠ v).
  { intros u v Huv. by apply edge_bounds, elem_of_edgeList. }
  assert (Hadj' : forall u, (u < n)%nat -> adjList !! u = Some (targets E u)).
  { intros u Hu. by rewrite Hadj, lookup_replicate_2. }
  assert (Hdeg' : forall v, (v < n)%nat ->
            inDegree !! v = Some (Z.of_nat (pending E [] v))).
  { intros v Hv. rewrite Hdeg, lookup_replicate_2, pending_nil by done. done. }
  destruct (kahn_terminates n E adjList HE Hadj' n inDegree (initialQueue n inDegree) [])
    as (final & inDegree' & Hrun & Hinv).
  { by apply loop_invariant_initial. }
  { simpl. lia. }
  rewrite Hrun.
  assert (Hrel : forall a b, (a, b) ∈ E <-> edge microTasks a b)
    by (intros; apply elem_of_edgeList).
  destruct (decide (length final = n)) as [Hfull|Hpart].
  - exists final. split_and!; [done| |].
    + intros _. destruct (final_complete_order n E HE _ _ Hinv Hfull) as [Hperm Hord].
      split; [done|]. intros u v Huv. by apply Hord, Hrel.
    + intros [u Hcycle]. exfalso.
      apply (final_complete_acyclic n E HE _ _ Hinv Hfull u).
      eapply tc_iff; [|exact Hcycle]. intros a b. by rewrite Hrel.
  - exists (seq 0 n). split_and!; [done| |done].
    intros Hacyc. exfalso. apply Hpart.
    apply (final_acyclic_complete n E HE inDegree' final); [|done].
    intros u Hcycle. apply (Hacyc u). eapply tc_iff; [|exact Hcycle]. apply Hrel.
Qed.

Lemma topologicalSort_correct_witness :
  let microTasks :=
    [ mkMicroTask "Write summary" None 30 ["2"; "1"] false;
      mkMicroTask "Collect figures" None 45 [] true;
      mkMicroTask "Draft tables" None 30 ["1"; "7"] false ] in
  exists order,
    topologicalSort microTasks = Some (Ok order)
    /\ (acyclic microTasks ->
          order ≡ₚ seq 0 (length microTasks)
          /\ forall u v, edge microTasks u v -> before order u v)
    /\ ((exists u, tc (edge microTasks) u u) -> order = seq 0 (length microTasks)).
Proof.
  intros microTasks. apply (topologicalSort_correct microTasks).
  repeat constructor; vm_compute; discriminate.
Defined.
